(** * weak_nlp.classification: the classification noisy label matrix (CNLM)

    A shallow embedding of [src/weak_nlp/classification/__init__.py]:
    [quality_metrics], [quantity_metrics] and [weakly_supervise], with the
    pandas operations they are written with.

    Numbers.  Python floats are idealised: a finite float is a rational
    ([Q]) and "not a number" is a value of its own ([NaN]).  [sigmoid] is
    computed in a float arithmetic [Float64] that rounds every operation and
    whose exponential is that of the library: its rounding and its
    exponential are kept abstract, and what is proved of [sigmoid] rests on
    the few laws of [Float64Laws].  Counts are Python integers ([Z]).

    Null values.  A label is a string or null; pandas [dropna], [groupby] and
    [==] treat [None] and [nan] alike, so one null ([None : Label]) stands
    for both.  A confidence is a float, [nan], or Python's [None]. *)

From Stdlib Require Import String List Bool ZArith QArith Lia Permutation.
From Stdlib Require Import Reals Lra Qreals.
Import ListNotations.

Set Implicit Arguments.

(** ** Exceptions and results *)

Inductive exn : Type :=
| Exception (msg : string)   (* [raise Exception("...")] *)
| KeyError
| IndexError
| ValueError
| TypeError.

Inductive result (A : Type) : Type :=
| Return (a : A)
| Raise (e : exn).

Arguments Return {A} a.
Arguments Raise {A} e.

Definition bind {A B : Type} (r : result A) (k : A -> result B) : result B :=
  match r with
  | Return a => k a
  | Raise e => Raise e
  end.

Declare Scope py_scope.
Delimit Scope py_scope with py.
Notation "x <- c ;; k" := (bind c (fun x => k))
  (at level 61, c at next level, right associativity) : py_scope.

(** [[f(x) for x in xs]] for a function that may raise: the first failing
    element raises. *)
Fixpoint mapM {A B : Type} (f : A -> result B) (xs : list A) : result (list B) :=
  match xs with
  | [] => Return []
  | x :: r => (y <- f x ;; ys <- mapM f r ;; Return (y :: ys))%py
  end.

(** A [for] loop threading an accumulator, whose body may raise. *)
Fixpoint foldM {A S : Type} (f : S -> A -> result S) (s : S) (xs : list A) : result S :=
  match xs with
  | [] => Return s
  | x :: r => (s' <- f s x ;; foldM f s' r)%py
  end.

(** ** Floats *)

Inductive pyfloat : Type :=
| Fin (q : Q)
| NaN.

Definition fadd (a b : pyfloat) : pyfloat :=
  match a, b with
  | Fin x, Fin y => Fin (x + y)
  | _, _ => NaN
  end.

Definition fsub (a b : pyfloat) : pyfloat :=
  match a, b with
  | Fin x, Fin y => Fin (x - y)
  | _, _ => NaN
  end.

Definition fmul (a b : pyfloat) : pyfloat :=
  match a, b with
  | Fin x, Fin y => Fin (x * y)
  | _, _ => NaN
  end.

(** [a > b]: false as soon as one side is [nan]. *)
Definition fgt (a b : pyfloat) : bool :=
  match a, b with
  | Fin x, Fin y => negb (Qle_bool x y)
  | _, _ => false
  end.

(** ** pandas helpers *)

Module Pd.

Section Unique.
Context {A : Type} (eqb : A -> A -> bool).

Definition mem (x : A) (l : list A) : bool := existsb (eqb x) l.

(** [Series.unique()]: the distinct values, in order of first
    appearance. *)
Fixpoint unique (l : list A) : list A :=
  match l with
  | [] => []
  | x :: r => x :: filter (fun y => negb (eqb x y)) (unique r)
  end.
End Unique.

(** [Series.dropna()]. *)
Fixpoint dropna {A : Type} (l : list (option A)) : list A :=
  match l with
  | [] => []
  | Some x :: r => x :: dropna r
  | None :: r => dropna r
  end.

(** Sorting of string keys, as [groupby] (with its default [sort=True])
    orders its groups; strings are compared byte by byte.  The order only
    decides which group is visited first. *)
Fixpoint insert_sorted (x : string) (l : list string) : list string :=
  match l with
  | [] => [x]
  | y :: r => if String.leb x y then x :: l else y :: insert_sorted x r
  end.

Definition sort (l : list string) : list string := fold_right insert_sorted [] l.

(** The keys [groupby] iterates over: distinct, non-null, sorted. *)
Definition groupby_keys (l : list (option string)) : list string :=
  sort (unique String.eqb (dropna l)).

End Pd.

(** ** Python dictionaries keyed by strings (insertion ordered) *)

Section Dict.
Context {V : Type}.

Definition dict : Type := list (string * V).

Fixpoint dict_get (k : string) (d : dict) : option V :=
  match d with
  | [] => None
  | (k', v) :: r => if String.eqb k k' then Some v else dict_get k r
  end.

(** [d[k] = v]: replaces the value of an existing key in place, appends a
    new key at the end. *)
Fixpoint dict_set (k : string) (v : V) (d : dict) : dict :=
  match d with
  | [] => [(k, v)]
  | (k', v') :: r => if String.eqb k k' then (k', v) :: r else (k', v') :: dict_set k v r
  end.

Definition dict_keys (d : dict) : list string := map fst d.
End Dict.

Arguments dict V : clear implicits.

(** ** Data model *)

Definition RecordId : Type := string.
Definition Label : Type := option string.

Definition label_eqb (a b : Label) : bool :=
  match a, b with
  | Some x, Some y => String.eqb x y
  | None, None => true
  | _, _ => false
  end.

(** Element-wise [==] of two pandas columns: a null never compares equal. *)
Definition series_eq (a b : Label) : bool :=
  match a, b with
  | Some x, Some y => String.eqb x y
  | _, _ => false
  end.

(** One row of a vector's [associations] frame.  [confidence] is [None] for
    Python's [None], [Some NaN] for a float [nan]. *)
Record Association : Type := mkAssociation {
  record : RecordId;
  label : Label;
  confidence : option pyfloat
}.

(** The pair [[x["label"], precision * x["confidence"]]] stored in the
    [prediction] column.  Its label is a string: for a null label the
    precision lookup has raised [KeyError] before the pair is built. *)
Definition Prediction : Type := (string * pyfloat)%type.

(** A vector's [associations] data frame: its rows (columns [record],
    [label], [confidence]) and the column [prediction], which exists only
    once [weakly_supervise] has set it. *)
Record AssocTable : Type := mkAssocTable {
  rows : list Association;
  prediction : option (list Prediction)
}.

Record Quality : Type := mkQuality {
  true_positives : Z;
  false_positives : Z
}.

Record Quantity : Type := mkQuantity {
  record_coverage : Z;
  source_overlaps : Z;
  source_conflicts : Z
}.

Record SourceVector : Type := mkSourceVector {
  identifier : string;
  associations : AssocTable;
  quality : dict Quality;
  quantity : dict Quantity
}.

(** Modelled from the spec: the attribute [is_empty] is set by the base
    class [weak_nlp.SourceVector], which is not part of the sources; the
    data model states "is_empty=true iff it has zero associations". *)
Definition is_empty (v : SourceVector) : bool :=
  match rows (associations v) with
  | [] => true
  | _ :: _ => false
  end.

Record CNLM : Type := mkCNLM {
  vectors_noisy : list SourceVector;
  vector_reference : option SourceVector;
  records : list RecordId
}.

Definition set_quality (v : SourceVector) (q : dict Quality) : SourceVector :=
  mkSourceVector (identifier v) (associations v) q (quantity v).

Definition set_quantity (v : SourceVector) (q : dict Quantity) : SourceVector :=
  mkSourceVector (identifier v) (associations v) (quality v) q.

Definition set_prediction (v : SourceVector) (p : list Prediction) : SourceVector :=
  mkSourceVector (identifier v)
    (mkAssocTable (rows (associations v)) (Some p)) (quality v) (quantity v).

Definition set_vectors_noisy (m : CNLM) (vs : list SourceVector) : CNLM :=
  mkCNLM vs (vector_reference m) (records m).

(** ** quality_metrics *)

Definition missing_reference_msg : string :=
  "Can't calculate the quality metrics without reference vector".

(** The error the spec calls [MissingReferenceError]. *)
Definition MissingReferenceError : exn := Exception missing_reference_msg.

(** [reference.set_index("record").join(noisy.set_index("record"),
    how="inner", ...)]: one row per pair of a reference row and a noisy row
    on the same record. *)
Definition df_inner_join (reference noisy : list Association)
  : list (Association * Association) :=
  flat_map (fun a => map (pair a) (filter (fun b => String.eqb (record b) (record a)) noisy))
           reference.

Definition label_reference (p : Association * Association) : Label := label (fst p).
Definition label_noisy (p : Association * Association) : Label := label (snd p).

(** The body of the loop over [df_inner_join.groupby("label_noisy")]. *)
Definition group_quality (join : list (Association * Association)) (label_name : string)
  : Quality :=
  let df_grouped := filter (fun p => label_eqb (label_noisy p) (Some label_name)) join in
  let num_intersections := Z.of_nat (length df_grouped) in
  let tp := Z.of_nat (length (filter (fun p => series_eq (label_reference p) (label_noisy p))
                                     df_grouped)) in
  mkQuality tp (num_intersections - tp).

(** The dictionary [quality] built for one non-empty noisy vector. *)
Definition vector_quality (reference noisy : list Association) : dict Quality :=
  let noisy_labels := Pd.unique String.eqb (Pd.dropna (map label noisy)) in
  let quality0 := map (fun label_name => (label_name, mkQuality 0 0)) noisy_labels in
  let join := df_inner_join reference noisy in
  fold_left (fun quality label_name => dict_set label_name (group_quality join label_name) quality)
            (Pd.groupby_keys (map label_noisy join))
            quality0.

(** First loop of [quality_metrics]: every non-empty noisy vector gets its
    [quality] slot overwritten, empty ones are skipped. *)
Definition update_quality (reference : SourceVector) (vector_noisy : SourceVector)
  : SourceVector :=
  if is_empty vector_noisy then vector_noisy
  else set_quality vector_noisy
         (vector_quality (rows (associations reference)) (rows (associations vector_noisy))).

Record QualityRow : Type := mkQualityRow {
  q_identifier : string;
  q_label_name : string;
  q_true_positives : Z;
  q_false_positives : Z;
  q_precision : Q
}.

Definition calc_precision (tp fp : Z) : Q :=
  let sum_positives := (tp + fp)%Z in
  if (sum_positives =? 0)%Z then 0%Q
  else (inject_Z tp / inject_Z sum_positives)%Q.

(** The rows of [stats_df], column [precision] included. *)
Definition quality_statistics (vs : list SourceVector) : list QualityRow :=
  flat_map (fun vector_noisy =>
              map (fun kv : string * Quality =>
                     let (label_name, quality) := kv in
                     mkQualityRow (identifier vector_noisy) label_name
                       (true_positives quality) (false_positives quality)
                       (calc_precision (true_positives quality) (false_positives quality)))
                  (quality vector_noisy))
           vs.

(** [quality_metrics]: the matrix after the call, and the returned table or
    the exception raised. *)
Definition quality_metrics (m : CNLM) : CNLM * result (list QualityRow) :=
  match vector_reference m with
  | None => (m, Raise MissingReferenceError)
  | Some reference =>
      let vs := map (update_quality reference) (vectors_noisy m) in
      (set_vectors_noisy m vs, Return (quality_statistics vs))
  end.

(** ** quantity_metrics *)

(** A row of [df_concat]: an association tagged with its [source]. *)
Definition SourceRow : Type := (string * Association)%type.

Definition source (r : SourceRow) : string := fst r.
Definition row_record (r : SourceRow) : RecordId := record (snd r).
Definition row_label (r : SourceRow) : Label := label (snd r).

(** [pd.concat(dfs)], each frame tagged with its vector's identifier. *)
Definition concat_sources (vs : list SourceVector) : list SourceRow :=
  flat_map (fun vector => map (pair (identifier vector)) (rows (associations vector))) vs.

(** The group of [df_concat.groupby("source")] for [src]. *)
Definition df_source_of (df_concat : list SourceRow) (src : string) : list SourceRow :=
  filter (fun r => String.eqb (source r) src) df_concat.

Definition df_others_of (df_concat df_source : list SourceRow) (src : string)
  : list SourceRow :=
  let source_records := Pd.unique String.eqb (map row_record df_source) in
  filter (fun r => negb (String.eqb (source r) src)
                   && Pd.mem String.eqb (row_record r) source_records)
         df_concat.

Definition initial_quantity (df_source : list SourceRow) : dict Quantity :=
  map (fun label =>
         (label,
          mkQuantity
            (Z.of_nat (length (filter (fun r => series_eq (row_label r) (Some label)) df_source)))
            0 0))
      (Pd.unique String.eqb (Pd.dropna (map row_label df_source))).

(** [quantity[label]]: a null label is never a key. *)
Definition quantity_lookup (label : Label) (quantity : dict Quantity)
  : result (string * Quantity) :=
  match label with
  | None => Raise KeyError
  | Some k =>
      match dict_get k quantity with
      | Some q => Return (k, q)
      | None => Raise KeyError
      end
  end.

(** [quantity[label]["source_overlaps"] += 1] *)
Definition incr_overlaps (label : Label) (quantity : dict Quantity)
  : result (dict Quantity) :=
  (kq <- quantity_lookup label quantity ;;
   Return (dict_set (fst kq)
             (mkQuantity (record_coverage (snd kq)) (source_overlaps (snd kq) + 1)
                         (source_conflicts (snd kq)))
             quantity))%py.

(** [quantity[label]["source_conflicts"] += 1] *)
Definition incr_conflicts (label : Label) (quantity : dict Quantity)
  : result (dict Quantity) :=
  (kq <- quantity_lookup label quantity ;;
   Return (dict_set (fst kq)
             (mkQuantity (record_coverage (snd kq)) (source_overlaps (snd kq))
                         (source_conflicts (snd kq) + 1))
             quantity))%py.

(** The body of the loop over [df_others.groupby("record")["label"]].
    With a null [label] the first test is true or the second one is
    (whichever of [None] and [nan] the null is), and each then fails on
    [quantity[label]]; with a non-null [label] neither test tells the two
    nulls apart. *)
Definition record_step (df_source df_others : list SourceRow)
           (quantity : dict Quantity) (record_id : RecordId) : result (dict Quantity) :=
  let labels := map row_label (filter (fun r => String.eqb (row_record r) record_id) df_others) in
  let labels_unique := Pd.unique label_eqb labels in
  match filter (fun r => String.eqb (row_record r) record_id) df_source with
  | [] => Raise IndexError
  | row_source :: _ =>
      let label := row_label row_source in
      (quantity1 <- (if Pd.mem label_eqb label labels_unique
                     then incr_overlaps label quantity
                     else Return quantity) ;;
       conflict <- (if (1 <? length labels_unique)%nat then Return true
                    else match labels_unique with
                         | [] => Raise IndexError
                         | label0 :: _ => Return (negb (label_eqb label0 label))
                         end) ;;
       if conflict then incr_conflicts label quantity1 else Return quantity1)%py
  end.

(** The dictionary [quantity] computed for one source. *)
Definition source_quantity (df_concat : list SourceRow) (src : string)
  : result (dict Quantity) :=
  let df_source := df_source_of df_concat src in
  let df_others := df_others_of df_concat df_source src in
  foldM (record_step df_source df_others)
        (initial_quantity df_source)
        (Pd.sort (Pd.unique String.eqb (map row_record df_others))).

Definition write_quantity (src : string) (quantity : dict Quantity) (vs : list SourceVector)
  : list SourceVector :=
  map (fun vector => if String.eqb (identifier vector) src
                     then set_quantity vector quantity else vector) vs.

(** The loop over [df_concat.groupby("source")]; an exception leaves the
    slots written so far in place. *)
Fixpoint quantity_loop (df_concat : list SourceRow) (vs : list SourceVector)
         (sources : list string) : list SourceVector * result unit :=
  match sources with
  | [] => (vs, Return tt)
  | src :: rest =>
      match source_quantity df_concat src with
      | Raise e => (vs, Raise e)
      | Return quantity => quantity_loop df_concat (write_quantity src quantity vs) rest
      end
  end.

Record QuantityRow : Type := mkQuantityRow {
  n_identifier : string;
  n_label_name : string;
  n_record_coverage : Z;
  n_source_conflicts : Z;
  n_source_overlaps : Z
}.

Definition quantity_statistics (vs : list SourceVector) : list QuantityRow :=
  flat_map (fun vector_noisy =>
              map (fun kv : string * Quantity =>
                     let (label_name, quantity) := kv in
                     mkQuantityRow (identifier vector_noisy) label_name
                       (record_coverage quantity) (source_conflicts quantity)
                       (source_overlaps quantity))
                  (quantity vector_noisy))
           vs.

(** [quantity_metrics].  [pd.concat] of an empty list raises [ValueError].
    The column [source] is set on [df = pd.DataFrame(vector.associations)];
    whether it also shows in the vector's own frame depends on whether
    that constructor shares the frame's data, and no value computed here
    or in the other two methods reads it, so it is left out of
    [AssocTable]. *)
Definition quantity_metrics (m : CNLM) : CNLM * result (list QuantityRow) :=
  match vectors_noisy m with
  | [] => (m, Raise ValueError)
  | _ :: _ =>
      let df_concat := concat_sources (vectors_noisy m) in
      let sources := Pd.sort (Pd.unique String.eqb (map source df_concat)) in
      match quantity_loop df_concat (vectors_noisy m) sources with
      | (vs, Raise e) => (set_vectors_noisy m vs, Raise e)
      | (vs, Return _) => (set_vectors_noisy m vs, Return (quantity_statistics vs))
      end
  end.

(** ** weakly_supervise *)

Definition empty_statistics_msg : string :=
  "Empty statistics; can't compute weak supervision".

(** The error the spec calls [EmptyStatisticsError]. *)
Definition EmptyStatisticsError : exn := Exception empty_statistics_msg.

Definition key_eqb (a b : string * string) : bool :=
  String.eqb (fst a) (fst b) && String.eqb (snd a) (snd b).

Fixpoint has_duplicates {A : Type} (eqb : A -> A -> bool) (l : list A) : bool :=
  match l with
  | [] => false
  | x :: r => Pd.mem eqb x r || has_duplicates eqb r
  end.

Definition stats_key (row : QualityRow) : string * string :=
  (q_identifier row, q_label_name row).

(** [stats_df.set_index(["identifier", "label_name"]).to_dict(orient="index")]:
    pandas raises [ValueError] when the index is not unique. *)
Definition stats_lkp_of (stats_df : list QualityRow) : result (list QualityRow) :=
  if has_duplicates key_eqb (map stats_key stats_df) then Raise ValueError
  else Return stats_df.

(** [stats_lkp[(identifier, label)]["precision"]] *)
Definition lkp_precision (stats_lkp : list QualityRow) (ident : string) (label : Label)
  : result (string * Q) :=
  match label with
  | None => Raise KeyError
  | Some label_name =>
      match find (fun row => key_eqb (stats_key row) (ident, label_name)) stats_lkp with
      | Some row => Return (label_name, q_precision row)
      | None => Raise KeyError
      end
  end.

(** The body of the [lambda] applied to each row of [vector_df]; a float
    times [None] raises [TypeError]. *)
Definition predict (stats_lkp : list QualityRow) (ident : string) (x : Association)
  : result Prediction :=
  (lp <- lkp_precision stats_lkp ident (label x) ;;
   match confidence x with
   | None => Raise TypeError
   | Some c => Return (fst lp, fmul (Fin (snd lp)) c)
   end)%py.

(** The frame [cnlm_df]: its index (the records) and its columns, one per
    identifier, each aligned with the index; [None] is a missing cell. *)
Record Frame : Type := mkFrame {
  index : list RecordId;
  columns : dict (list (option Prediction))
}.

(** pandas [_ensure_valid_index]: a frame with an empty index takes the
    index of the first non-empty column assigned to it. *)
Definition ensure_valid_index (df : Frame) (value_index : list RecordId) : Frame :=
  match index df, value_index with
  | [], _ :: _ =>
      mkFrame value_index
              (map (fun c => (fst c, map (fun _ => @None Prediction) value_index)) (columns df))
  | _, _ => df
  end.

Definition series_get (r : RecordId) (value : list (RecordId * Prediction)) : option Prediction :=
  match find (fun p => String.eqb (fst p) r) value with
  | Some p => Some (snd p)
  | None => None
  end.

Definition is_nil {A : Type} (l : list A) : bool :=
  match l with [] => true | _ :: _ => false end.

(** pandas [_reindex_for_setitem]: a series with the frame's index is taken
    as it is; otherwise it is reindexed on the frame's index, which raises
    [ValueError] when the series' own index has duplicate labels. *)
Definition reindex_for_setitem (value : list (RecordId * Prediction)) (df_index : list RecordId)
  : result (list (option Prediction)) :=
  if (if list_eq_dec string_dec (map fst value) df_index then true else false)
     || is_nil df_index
  then Return (map (fun p => Some (snd p)) value)
  else if has_duplicates String.eqb (map fst value) then Raise ValueError
  else Return (map (fun r => series_get r value) df_index).

(** [cnlm_df[ident] = vector_series] *)
Definition set_column (df : Frame) (ident : string) (value : list (RecordId * Prediction))
  : result Frame :=
  let df1 := ensure_valid_index df (map fst value) in
  (cells <- reindex_for_setitem value (index df1) ;;
   Return (mkFrame (index df1) (dict_set ident cells (columns df1))))%py.

(** The loop over [self.vectors_noisy]: the vectors after the loop (the
    column [prediction] is set on the vector's own frame) and the frame
    [cnlm_df], or the exception raised on the way. *)
Fixpoint vote_loop (stats_lkp : list QualityRow) (vs : list SourceVector) (cnlm_df : Frame)
  : list SourceVector * result Frame :=
  match vs with
  | [] => ([], Return cnlm_df)
  | vector :: rest =>
      let vector_df := rows (associations vector) in
      if (0 <? length vector_df)%nat then
        match mapM (predict stats_lkp (identifier vector)) vector_df with
        | Raise e => (vector :: rest, Raise e)
        | Return predictions =>
            let vector' := set_prediction vector predictions in
            let vector_series := combine (map record vector_df) predictions in
            match set_column cnlm_df (identifier vector) vector_series with
            | Raise e => (vector' :: rest, Raise e)
            | Return cnlm_df' =>
                let (rest', r) := vote_loop stats_lkp rest cnlm_df' in
                (vector' :: rest', r)
            end
        end
      else
        let (rest', r) := vote_loop stats_lkp rest cnlm_df in
        (vector :: rest', r)
  end.

(** The rows of a frame. *)
Fixpoint frame_rows (idx : list RecordId) (cols : list (list (option Prediction)))
  : list (RecordId * list (option Prediction)) :=
  match idx with
  | [] => []
  | r :: rest => (r, map (hd None) cols) :: frame_rows rest (map (@tl _) cols)
  end.

Definition notnull (cell : option Prediction) : bool :=
  match cell with Some _ => true | None => false end.

(** [cnlm_df.loc[~(cnlm_df.isnull()).all(axis=1)]] *)
Definition voted_rows (df : Frame) : list (RecordId * list (option Prediction)) :=
  filter (fun row => existsb notnull (snd row)) (frame_rows (index df) (map snd (columns df))).

(** The float arithmetic of [sigmoid]: [rnd] is the float nearest to a
    real number, the result of each arithmetic operation, and [np_exp] is
    [np.exp], a library function.  Both are kept abstract.  Rounding is why
    [sigmoid] reaches [1.0] for a large argument: [1 + np.exp(-37)] is
    rounded to [1.0].  The overflow of [np.exp] to [inf], for an argument
    above 709, has no counterpart here: [ensemble] calls [sigmoid] on a
    positive margin, for which the argument [-x + 1] of [np.exp] is below
    1. *)
Record Float64 : Type := mkFloat64 {
  np_exp : R -> R;
  rnd : R -> R
}.

(** What the properties of [sigmoid] rest on.  Rounding to the nearest
    float is monotone and symmetric, and leaves the floats 1/4, 1/2, 1, 2
    and 4 as they are; [np.exp] is monotone and never negative,
    [np.exp(0.0)] is [1.0] and [np.exp(1.0)] is not above 3. *)
Record Float64Laws (F : Float64) : Prop := mkFloat64Laws {
  rnd_monotone : forall x y : R, (x <= y)%R -> (rnd F x <= rnd F y)%R;
  rnd_opp : forall x : R, rnd F (- x) = (- rnd F x)%R;
  rnd_quarter : rnd F (1 / 4) = (1 / 4)%R;
  rnd_half : rnd F (1 / 2) = (1 / 2)%R;
  rnd_1 : rnd F 1 = 1%R;
  rnd_2 : rnd F 2 = 2%R;
  rnd_4 : rnd F 4 = 4%R;
  np_exp_monotone : forall x y : R, (x <= y)%R -> (np_exp F x <= np_exp F y)%R;
  np_exp_nonneg : forall x : R, (0 <= np_exp F x)%R;
  np_exp_0 : np_exp F 0 = 1%R;
  np_exp_1 : (np_exp F 1 <= 3)%R
}.

(** Arithmetic without rounding, with the real exponential. *)
Definition exact_arithmetic : Float64 := mkFloat64 exp (fun x => x).

(** [1 / (1 + np.exp(-c * x + k))], each operation rounded. *)
Definition sigmoid (F : Float64) (x c k : R) : R :=
  rnd F (1 / rnd F (1 + np_exp F (rnd F (rnd F (- c * x) + k)))).

(** [voters[label_name] += confidence] on a [defaultdict(float)] *)
Definition add_vote (voters : dict pyfloat) (cell : option Prediction) : dict pyfloat :=
  match cell with
  | None => voters
  | Some (label_name, confidence) =>
      let old := match dict_get label_name voters with Some v => v | None => Fin 0 end in
      dict_set label_name (fadd old confidence) voters
  end.

Definition voters_of (row : list (option Prediction)) : dict pyfloat :=
  fold_left add_vote row [].

(** [max(voters, key=voters.get)]: the first key whose value no later one
    exceeds. *)
Fixpoint py_max (best : string * pyfloat) (rest : dict pyfloat) : string * pyfloat :=
  match rest with
  | [] => best
  | kv :: r => py_max (if fgt (snd kv) (snd best) then kv else best) r
  end.

(** The winner of a row and [max_vote - (sum_votes - max_vote)]. *)
Definition margin (row : list (option Prediction)) : result (string * pyfloat) :=
  let voters := voters_of row in
  match voters with
  | [] => Raise ValueError   (* [max()] of an empty sequence *)
  | first :: rest =>
      let max_voter := fst (py_max first rest) in
      let sum_votes := fold_left fadd (map snd voters) (Fin 0) in
      match dict_get max_voter voters with
      | None => Raise KeyError
      | Some max_vote => Return (max_voter, fsub max_vote (fsub sum_votes max_vote))
      end
  end.

(** [ensemble(row)]: [[max_voter, sigmoid(confidence)]], or [None] when the
    function falls off its end. *)
Definition ensemble (F : Float64) (row : list (option Prediction)) : result (option (string * R)) :=
  (mc <- margin row ;;
   if fgt (snd mc) (Fin 0) then
     match snd mc with
     | Fin confidence => Return (Some (fst mc, sigmoid F (Q2R confidence) 1 1))
     | NaN => Return None
     end
   else Return None)%py.

(** [weakly_supervise] up to the vote table: the matrix after the loop and
    the rows of [cnlm_df] that are left. *)
Definition weakly_supervise_votes (m : CNLM)
  : CNLM * result (list (RecordId * list (option Prediction))) :=
  let (m1, r) := quality_metrics m in
  match r with
  | Raise e => (m1, Raise e)
  | Return stats_df =>
      if (length stats_df =? 0)%nat then (m1, Raise EmptyStatisticsError)
      else
        match stats_lkp_of stats_df with
        | Raise e => (m1, Raise e)
        | Return stats_lkp =>
            let cnlm_df := mkFrame (records m1) [] in
            let (vs, rf) := vote_loop stats_lkp (vectors_noisy m1) cnlm_df in
            (set_vectors_noisy m1 vs, (df <- rf ;; Return (voted_rows df))%py)
        end
  end.

(** [cnlm_df.apply(ensemble, axis=1)]: one entry per row of the frame,
    indexed by the row's record. *)
Definition apply_ensemble (F : Float64) (votes : list (RecordId * list (option Prediction)))
  : result (list (RecordId * option (string * R))) :=
  mapM (fun row : RecordId * list (option Prediction) =>
          (out <- ensemble F (snd row) ;; Return (fst row, out))%py)
       votes.

(** [weakly_supervise]: the matrix after the call, and the returned series
    or the exception raised. *)
Definition weakly_supervise (F : Float64) (m : CNLM)
  : CNLM * result (list (RecordId * option (string * R))) :=
  let (m2, r) := weakly_supervise_votes m in
  (m2, (votes <- r ;; apply_ensemble F votes)%py).

(** ** Example matrices *)

Module Examples.
Local Open Scope string_scope.

Definition assoc (r l : string) (c : Q) : Association :=
  mkAssociation r (Some l) (Some (Fin c)).

Definition vector (ident : string) (rs : list Association) : SourceVector :=
  mkSourceVector ident (mkAssocTable rs None) [] [].

(** One source, right on its only record: precision 1, margin 1. *)
Definition m_margin_one : CNLM :=
  mkCNLM [vector "s1" [assoc "r1" "a" 1]]
         (Some (vector "ref" [assoc "r1" "a" 1]))
         ["r1"].

(** Two sources of precision 1/2 that disagree on both records. *)
Definition m_tie : CNLM :=
  mkCNLM [vector "s1" [assoc "r1" "a" 1; assoc "r2" "a" 1];
          vector "s2" [assoc "r1" "b" 1; assoc "r2" "b" 1]]
         (Some (vector "ref" [assoc "r1" "a" 1; assoc "r2" "b" 1]))
         ["r1"; "r2"].

(** An association whose confidence is a float [nan]. *)
Definition m_nan : CNLM :=
  mkCNLM [vector "s1" [mkAssociation "r1" (Some "a") (Some NaN)]]
         (Some (vector "ref" [assoc "r1" "a" 1]))
         ["r1"].

(** An association whose confidence is [None]. *)
Definition m_none : CNLM :=
  mkCNLM [vector "s1" [mkAssociation "r1" (Some "a") None]]
         (Some (vector "ref" [assoc "r1" "a" 1]))
         ["r1"].


(** Two sources over two records, one record left without any vote. *)
Definition m_two_sources : CNLM :=
  mkCNLM [vector "s1" [assoc "r1" "a" 1; assoc "r2" "b" 1];
          vector "s2" [assoc "r1" "a" 1; assoc "r2" "a" 1]]
         (Some (vector "ref" [assoc "r1" "a" 1; assoc "r2" "b" 1]))
         ["r1"; "r2"; "r3"].

(** The source [s1] has a null label on [r2], which [s2] covers too. *)
Definition m_null_label : CNLM :=
  mkCNLM [vector "s1" [assoc "r1" "a" 1; mkAssociation "r2" None (Some (Fin 1))];
          vector "s2" [assoc "r2" "a" 1]]
         (Some (vector "ref" [assoc "r1" "a" 1]))
         ["r1"; "r2"].


(** Two sources that share no record. *)
Definition m_disjoint : CNLM :=
  mkCNLM [vector "s1" [assoc "r1" "a" 1]; vector "s2" [assoc "r2" "b" 1]]
         (Some (vector "ref" [assoc "r1" "a" 1; assoc "r2" "a" 1]))
         ["r1"; "r2"].
End Examples.

(** ** Notions used to state the properties *)

(** What the loop of [quantity_metrics] leaves in a vector once the
    dictionary of every source in [sources] has been computed. *)
Definition quantity_written (df_concat : list SourceRow) (sources : list string)
           (v : SourceVector) : SourceVector :=
  if Pd.mem String.eqb (identifier v) sources then
    match source_quantity df_concat (identifier v) with
    | Return q => set_quantity v q
    | Raise _ => v
    end
  else v.

(** The associations of the source [s]: those of every noisy vector with
    that identifier, in the order of [vectors_noisy]. *)
Definition source_rows (vs : list SourceVector) (s : string) : list Association :=
  flat_map (fun v => rows (associations v))
           (filter (fun v => String.eqb (identifier v) s) vs).

(** The source [s] holds an association for the record [r]. *)
Definition covers (vs : list SourceVector) (s : string) (r : RecordId) : Prop :=
  In r (map record (source_rows vs s)).

(** The first association the source [s] holds for the record [r]. *)
Definition first_association (vs : list SourceVector) (s : string) (r : RecordId)
  : option Association :=
  find (fun a => String.eqb (record a) r) (source_rows vs s).

(** The row [df_source.loc[df_source["record"] == r].iloc[0]]. *)
Definition first_row (df_source : list SourceRow) (r : RecordId) : option SourceRow :=
  find (fun row => String.eqb (row_record row) r) df_source.

(** Whether the first row the source holds for [r] carries the label [l]. *)
Definition first_is (df_source : list SourceRow) (l : string) (r : RecordId) : bool :=
  match first_row df_source r with
  | Some row => label_eqb (row_label row) (Some l)
  | None => false
  end.

(** The number of records of [done] whose first row carries the label [l]. *)
Definition visited_with (df_source : list SourceRow) (l : string) (done : list RecordId) : Z :=
  Z.of_nat (length (filter (first_is df_source l) done)).

(** [len(df_source.loc[df_source["label"] == l])] *)
Definition coverage_of (df_source : list SourceRow) (l : string) : Z :=
  Z.of_nat (length (filter (fun r => series_eq (row_label r) (Some l)) df_source)).

(** The invariant of the loop over the records of the other sources:
    coverage is the source's own count, and each counter has counted at
    most the visited records whose first row carries its label. *)
Definition quantity_bounded (df_source : list SourceRow) (done_o done_c : list RecordId)
           (q : dict Quantity) : Prop :=
  forall l qq, In (l, qq) q ->
    record_coverage qq = coverage_of df_source l
    /\ (source_overlaps qq <= visited_with df_source l done_o)%Z
    /\ (source_conflicts qq <= visited_with df_source l done_c)%Z.

(** ** Notions used to state further properties *)

(** The weighted votes a row of the vote table holds for the label [l], in
    column order, and their sum as [ensemble] accumulates it. *)
Definition votes_for (l : string) (row : list (option Prediction)) : list pyfloat :=
  map snd (filter (fun p => String.eqb (fst p) l) (Pd.dropna row)).

Definition total_for (l : string) (row : list (option Prediction)) : pyfloat :=
  fold_left fadd (votes_for l row) (Fin 0).

(** The labels of the cells of a row, in column order. *)
Definition row_labels (row : list (option Prediction)) : list string :=
  map fst (Pd.dropna row).

Definition finite (w : pyfloat) : bool :=
  match w with Fin _ => true | NaN => false end.

(** The value of a finite float. *)
Definition fval (w : pyfloat) : Q :=
  match w with Fin q => q | NaN => 0%Q end.

(** Some noisy vector holds an association for the record [r]. *)
Definition voted_on (vs : list SourceVector) (r : RecordId) : Prop :=
  exists v, In v vs /\ In r (map record (rows (associations v))).

(** A column of [cnlm_df] set from the vector [w]: the cell of a record is
    filled exactly when [w] holds an association for the record. *)
Definition column_of (w : SourceVector) (idx : list RecordId)
           (cells : list (option Prediction)) : Prop :=
  Forall2 (fun r cell => cell <> None <-> In r (map record (rows (associations w))))
          idx cells.

(** The rows of [df_concat] that belong to another source than [s]. *)
Definition other_rows (df_concat : list SourceRow) (s : string) : list SourceRow :=
  filter (fun row => negb (String.eqb (source row) s)) df_concat.

(** Among [others], some row gives the record [r] the label [l]. *)
Definition agreed_at (others : list SourceRow) (l : string) (r : RecordId) : bool :=
  existsb (fun row => String.eqb (row_record row) r
                      && label_eqb (row_label row) (Some l)) others.

(** Among [others], some row gives the record [r] something else than the
    label [l]: another label, or a null one. *)
Definition contested_at (others : list SourceRow) (l : string) (r : RecordId) : bool :=
  existsb (fun row => String.eqb (row_record row) r
                      && negb (label_eqb (row_label row) (Some l))) others.

Definition count_records (p : RecordId -> bool) (recs : list RecordId) : Z :=
  Z.of_nat (length (filter p recs)).

(** The three counts of the label [l] of a source, over the distinct
    records of the source. *)
Definition quantity_of (df_source others : list SourceRow) (l : string) : Quantity :=
  let recs := Pd.unique String.eqb (map row_record df_source) in
  mkQuantity
    (coverage_of df_source l)
    (count_records (fun r => first_is df_source l r && agreed_at others l r) recs)
    (count_records (fun r => first_is df_source l r && contested_at others l r) recs).

(** [labels.unique()] in the loop of [quantity_metrics]: the distinct labels
    the other sources give the record [r]. *)
Definition labels_on (df_others : list SourceRow) (r : RecordId) : list Label :=
  Pd.unique label_eqb
    (map row_label (filter (fun row => String.eqb (row_record row) r) df_others)).

(** The invariant of the loop over the records of the other sources, in
    exact form: after the records [done], the dictionary has the keys
    [keys] and each counter has counted the records of [done] that pass
    its test. *)
Definition quantity_exact (df_source df_others : list SourceRow) (keys : list string)
           (done : list RecordId) (q : dict Quantity) : Prop :=
  dict_keys q = keys
  /\ forall l, In l keys ->
       dict_get l q
       = Some (mkQuantity
                 (coverage_of df_source l)
                 (count_records (fun r => first_is df_source l r && agreed_at df_others l r)
                                done)
                 (count_records (fun r => first_is df_source l r && contested_at df_others l r)
                                done)).

(** Among the joined pairs of a reference row and a noisy row, those whose
    noisy label is [l] and whose reference label is [l] too, and those
    whose reference label is something else. *)
Definition matches (reference noisy : list Association) (l : string) : Z :=
  Z.of_nat (length (filter (fun p => label_eqb (label_noisy p) (Some l)
                                     && label_eqb (label_reference p) (Some l))
                           (df_inner_join reference noisy))).

Definition mismatches (reference noisy : list Association) (l : string) : Z :=
  Z.of_nat (length (filter (fun p => label_eqb (label_noisy p) (Some l)
                                     && negb (label_eqb (label_reference p) (Some l)))
                           (df_inner_join reference noisy))).

Definition sumZ (l : list Z) : Z := fold_right Z.add 0%Z l.



(** * Properties *)

(** ** Lists, [unique], [sort] and dictionaries *)

Section UniqueFacts.
Context {A : Type} (eqb : A -> A -> bool).
Hypothesis eqb_spec : forall x y, eqb x y = true <-> x = y.

Lemma mem_In (x : A) (l : list A) : Pd.mem eqb x l = true <-> In x l.
Proof.
  unfold Pd.mem. rewrite existsb_exists. split.
  - intros (y & Hy & E). apply eqb_spec in E. now subst.
  - intros H. exists x. split; [assumption | now apply eqb_spec].
Qed.

Lemma In_unique (x : A) (l : list A) : In x (Pd.unique eqb l) <-> In x l.
Proof.
  induction l as [|a l IH]; simpl; [tauto|].
  rewrite filter_In, IH. split.
  - intros [H | [H _]]; auto.
  - intros [H | H]; auto.
    destruct (eqb a x) eqn:E.
    + left. now apply eqb_spec.
    + right. split; [assumption | reflexivity].
Qed.

Lemma NoDup_unique (l : list A) : NoDup (Pd.unique eqb l).
Proof.
  induction l as [|a l IH]; simpl; constructor.
  - rewrite filter_In. intros [_ H].
    assert (E : eqb a a = true) by now apply eqb_spec.
    rewrite E in H. discriminate.
  - now apply NoDup_filter.
Qed.

Lemma unique_nil_inv (l : list A) : Pd.unique eqb l = [] -> l = [].
Proof. destruct l; simpl; [reflexivity | discriminate]. Qed.
End UniqueFacts.

Lemma string_eqb_spec : forall x y : string, String.eqb x y = true <-> x = y.
Proof. exact String.eqb_eq. Qed.

Lemma label_eqb_spec : forall x y : Label, label_eqb x y = true <-> x = y.
Proof.
  intros [x|] [y|]; simpl; try (split; congruence).
  rewrite String.eqb_eq. split; congruence.
Qed.

Lemma series_eq_Some (a : Label) (l : string) : series_eq a (Some l) = label_eqb a (Some l).
Proof. destruct a; reflexivity. Qed.

Lemma In_dropna {A : Type} (x : A) (l : list (option A)) :
  In x (Pd.dropna l) <-> In (Some x) l.
Proof.
  induction l as [|[a|] l IH]; simpl; [tauto | | ].
  - rewrite IH. split; intros [H | H]; auto; left; congruence.
  - rewrite IH. split; [auto | intros [H | H]; [discriminate | assumption]].
Qed.

Lemma insert_sorted_perm (x : string) (l : list string) :
  Permutation (x :: l) (Pd.insert_sorted x l).
Proof.
  induction l as [|y l IH]; simpl; [reflexivity|].
  destruct (String.leb x y); [reflexivity|].
  rewrite perm_swap. now constructor.
Qed.

Lemma sort_perm (l : list string) : Permutation l (Pd.sort l).
Proof.
  induction l as [|x l IH]; simpl; [constructor|].
  rewrite <- insert_sorted_perm. now constructor.
Qed.

Lemma In_sort (x : string) (l : list string) : In x (Pd.sort l) <-> In x l.
Proof.
  split; intros H.
  - eapply Permutation_in; [symmetry; apply sort_perm | exact H].
  - eapply Permutation_in; [apply sort_perm | exact H].
Qed.

Lemma NoDup_sort (l : list string) : NoDup l -> NoDup (Pd.sort l).
Proof. intros H. eapply Permutation_NoDup; [apply sort_perm | exact H]. Qed.

Lemma In_groupby_keys (x : string) (l : list (option string)) :
  In x (Pd.groupby_keys l) <-> In (Some x) l.
Proof.
  unfold Pd.groupby_keys.
  now rewrite In_sort, (In_unique String.eqb string_eqb_spec), In_dropna.
Qed.

Section DictFacts.
Context {V : Type}.
Implicit Types (d : dict V) (k : string) (v : V).

Lemma dict_keys_set k v d : In k (dict_keys d) -> dict_keys (dict_set k v d) = dict_keys d.
Proof.
  induction d as [|[k' v'] d IH]; simpl; [tauto|].
  intros H. destruct (String.eqb k k') eqn:E; simpl; [reflexivity|].
  f_equal. apply IH. destruct H as [H | H]; [|assumption].
  apply String.eqb_neq in E. congruence.
Qed.

Lemma dict_get_In k v d : dict_get k d = Some v -> In (k, v) d.
Proof.
  induction d as [|[k' v'] d IH]; simpl; [discriminate|].
  destruct (String.eqb k k') eqn:E.
  - apply String.eqb_eq in E. intros [= ->]. left. congruence.
  - auto.
Qed.

Lemma dict_get_keys k d : In k (dict_keys d) -> exists v, dict_get k d = Some v.
Proof.
  induction d as [|[k' v'] d IH]; simpl; [tauto|].
  intros H. destruct (String.eqb k k') eqn:E; [eauto|].
  apply IH. destruct H as [H | H]; [|assumption].
  apply String.eqb_neq in E. congruence.
Qed.

Lemma In_dict_set k v d (kv : string * V) :
  In kv (dict_set k v d) -> kv = (k, v) \/ In kv d.
Proof.
  induction d as [|[k' v'] d IH]; simpl.
  - intros [H | []]. now left.
  - destruct (String.eqb k k') eqn:E; simpl.
    + apply String.eqb_eq in E. subst k'. intros [H | H]; auto.
    + intros [H | H]; auto. apply IH in H. tauto.
Qed.

Lemma dict_set_not_nil k v d : dict_set k v d <> [].
Proof. destruct d as [|[k' v'] d]; simpl; [|destruct (String.eqb k k')]; discriminate. Qed.

(** Assigning to a key of a dictionary built over distinct keys. *)
Lemma dict_set_map (f : string -> V) k v (keys : list string) :
  NoDup keys -> In k keys ->
  dict_set k v (map (fun l => (l, f l)) keys)
  = map (fun l => (l, if String.eqb l k then v else f l)) keys.
Proof.
  induction keys as [|a keys IH]; simpl; [tauto|].
  intros Hnd Hin. inversion Hnd as [|? ? Hna Hnd']; subst.
  destruct (String.eqb k a) eqn:E.
  - apply String.eqb_eq in E. subst a. rewrite String.eqb_refl. f_equal.
    apply map_ext_in. intros l Hl.
    destruct (String.eqb l k) eqn:E'; [|reflexivity].
    apply String.eqb_eq in E'. subst l. contradiction.
  - rewrite String.eqb_sym, E. f_equal. apply IH; [assumption|].
    destruct Hin as [H | H]; [|assumption].
    apply String.eqb_neq in E. congruence.
Qed.
End DictFacts.

Lemma filter_none {A : Type} (f : A -> bool) (l : list A) :
  (forall x, In x l -> f x = false) -> filter f l = [].
Proof.
  induction l as [|a l IH]; simpl; intros H; [reflexivity|].
  rewrite (H a) by now left. apply IH. intros x Hx. apply H. now right.
Qed.

Lemma forallb_filter_id {A : Type} (f : A -> bool) (l : list A) :
  filter f l = l <-> forallb f l = true.
Proof.
  induction l as [|a l IH]; simpl; [tauto|].
  destruct (f a) eqn:E; simpl.
  - rewrite <- IH. split; [intros [= H]; exact H | intros ->; reflexivity].
  - split; [|discriminate]. intros H.
    assert (Hin : In a (filter f l)) by (rewrite H; now left).
    apply filter_In in Hin. destruct Hin as [_ Hin]. congruence.
Qed.

Lemma fold_dict_set_map {V : Type} (g : string -> V) (ks keys : list string) :
  NoDup keys -> incl ks keys ->
  forall h : string -> V,
    fold_left (fun d k => dict_set k (g k) d) ks (map (fun l => (l, h l)) keys)
    = map (fun l => (l, if Pd.mem String.eqb l ks then g l else h l)) keys.
Proof.
  intros Hnd. induction ks as [|k ks IH]; intros Hincl h; simpl; [reflexivity|].
  rewrite dict_set_map by (auto; apply Hincl; now left).
  rewrite IH by (intros x Hx; apply Hincl; now right).
  apply map_ext. intros l.
  destruct (String.eqb l k) eqn:E; simpl; [|reflexivity].
  apply String.eqb_eq in E. subst l.
  now destruct (Pd.mem String.eqb k ks).
Qed.

(** ** quality_metrics *)

Lemma In_inner_join (reference noisy : list Association) (p : Association * Association) :
  In p (df_inner_join reference noisy)
  <-> In (fst p) reference /\ In (snd p) noisy /\ record (snd p) = record (fst p).
Proof.
  unfold df_inner_join. rewrite in_flat_map. split.
  - intros (a & Ha & Hp). apply in_map_iff in Hp. destruct Hp as (b & <- & Hb).
    apply filter_In in Hb. destruct Hb as [Hb E]. apply String.eqb_eq in E.
    simpl. auto.
  - destruct p as [a b]. simpl. intros (Ha & Hb & E).
    exists a. split; [assumption|]. apply in_map. apply filter_In.
    split; [assumption | now apply String.eqb_eq].
Qed.

Lemma group_quality_absent (join : list (Association * Association)) (l : string) :
  ~ In (Some l) (map label_noisy join) -> group_quality join l = mkQuality 0 0.
Proof.
  intros H. unfold group_quality.
  assert (E : filter (fun p => label_eqb (label_noisy p) (Some l)) join = []).
  { apply filter_none. intros p Hp.
    destruct (label_eqb (label_noisy p) (Some l)) eqn:E; [|reflexivity].
    apply label_eqb_spec in E. exfalso. apply H. rewrite <- E. now apply in_map. }
  rewrite E. reflexivity.
Qed.

(** The dictionary written into a non-empty vector: one entry per distinct
    non-null label of the vector, holding the counts of its group in the
    join. *)
Lemma vector_quality_eq (reference noisy : list Association) :
  vector_quality reference noisy
  = map (fun l => (l, group_quality (df_inner_join reference noisy) l))
        (Pd.unique String.eqb (Pd.dropna (map label noisy))).
Proof.
  unfold vector_quality.
  rewrite (fold_dict_set_map (group_quality (df_inner_join reference noisy))).
  - apply map_ext. intros l.
    destruct (Pd.mem String.eqb l _) eqn:E; [reflexivity|].
    f_equal. symmetry. apply group_quality_absent. intros H.
    apply In_groupby_keys in H.
    apply (mem_In String.eqb string_eqb_spec) in H. congruence.
  - apply NoDup_unique. exact string_eqb_spec.
  - intros l Hl. apply In_groupby_keys in Hl.
    apply (In_unique String.eqb string_eqb_spec). apply In_dropna.
    apply in_map_iff in Hl. destruct Hl as (p & Hp & Hin).
    apply In_inner_join in Hin. destruct Hin as (_ & Hin & _).
    unfold label_noisy in Hp. rewrite <- Hp. now apply in_map.
Qed.

Lemma update_quality_identifier (reference v : SourceVector) :
  identifier (update_quality reference v) = identifier v.
Proof. unfold update_quality. now destruct (is_empty v). Qed.

Lemma update_quality_associations (reference v : SourceVector) :
  associations (update_quality reference v) = associations v.
Proof. unfold update_quality. now destruct (is_empty v). Qed.

Lemma update_quality_quantity (reference v : SourceVector) :
  quantity (update_quality reference v) = quantity v.
Proof. unfold update_quality. now destruct (is_empty v). Qed.

Lemma update_quality_idem (reference v : SourceVector) :
  update_quality reference (update_quality reference v) = update_quality reference v.
Proof.
  unfold update_quality, is_empty.
  destruct (rows (associations v)) eqn:E; simpl; rewrite E; reflexivity.
Qed.

Lemma quality_metrics_idem (m m1 : CNLM) (t1 : list QualityRow) :
  quality_metrics m = (m1, Return t1) -> quality_metrics m1 = (m1, Return t1).
Proof.
  unfold quality_metrics. destruct (vector_reference m) as [reference|] eqn:E; [|discriminate].
  intros [= <- <-]. simpl. rewrite E.
  unfold set_vectors_noisy. simpl. rewrite map_map.
  rewrite (map_ext _ _ (update_quality_idem reference)). reflexivity.
Qed.

Lemma quality_metrics_table (m m' : CNLM) (table : list QualityRow) :
  quality_metrics m = (m', Return table) ->
  exists reference,
    vector_reference m = Some reference
    /\ m' = set_vectors_noisy m (map (update_quality reference) (vectors_noisy m))
    /\ table = quality_statistics (map (update_quality reference) (vectors_noisy m)).
Proof.
  unfold quality_metrics. destruct (vector_reference m) as [reference|]; [|discriminate].
  intros [= <- <-]. now exists reference.
Qed.

(** C9. Without a reference vector [quality_metrics] raises the exception
    of the missing reference and leaves the matrix as it was; with a
    reference vector it does not raise it. *)
Theorem quality_metrics_requires_reference (m : CNLM) :
  match vector_reference m with
  | None => quality_metrics m = (m, Raise MissingReferenceError)
  | Some _ => exists table, snd (quality_metrics m) = Return table
  end.
Proof.
  unfold quality_metrics. destruct (vector_reference m); [|reflexivity].
  simpl. eauto.
Qed.

(** C8. Every row of the table returned by [quality_metrics] has precision
    [true_positives / (true_positives + false_positives)], and [0] when
    that sum is [0]; a label that a noisy vector emits on no record of the
    reference has the row with both counts [0] and precision [0]. *)
Theorem quality_metrics_precision (m m' : CNLM) (table : list QualityRow)
        (Hrun : quality_metrics m = (m', Return table)) :
  (forall row, In row table ->
     let tp := q_true_positives row in
     let fp := q_false_positives row in
     ((tp + fp = 0)%Z -> q_precision row = 0%Q)
     /\ ((tp + fp <> 0)%Z -> q_precision row = (inject_Z tp / inject_Z (tp + fp))%Q))
  /\ (forall reference v l,
        vector_reference m = Some reference ->
        In v (vectors_noisy m) ->
        In (Some l) (map label (rows (associations v))) ->
        (forall a b, In a (rows (associations reference)) ->
                     In b (rows (associations v)) ->
                     label b = Some l -> record b <> record a) ->
        In (mkQualityRow (identifier v) l 0 0 0) table).
Proof.
  apply quality_metrics_table in Hrun. destruct Hrun as (reference & Href & _ & ->).
  split.
  - intros row Hrow. unfold quality_statistics in Hrow.
    apply in_flat_map in Hrow. destruct Hrow as (v & _ & Hrow).
    apply in_map_iff in Hrow. destruct Hrow as ([l q] & <- & _). simpl.
    unfold calc_precision.
    destruct (true_positives q + false_positives q =? 0)%Z eqn:E.
    + apply Z.eqb_eq in E. split; [reflexivity | intros H; contradiction].
    + apply Z.eqb_neq in E. split; [intros H; contradiction | reflexivity].
  - intros reference' v l Href' Hv Hl Hdisjoint.
    rewrite Href in Href'. injection Href' as <-.
    unfold quality_statistics. apply in_flat_map.
    exists (update_quality reference v). split; [now apply in_map|].
    rewrite update_quality_identifier.
    unfold update_quality, is_empty.
    destruct (rows (associations v)) as [|a0 rest] eqn:Erows; [destruct Hl|].
    simpl quality. rewrite vector_quality_eq, map_map. rewrite <- Erows in *.
    apply in_map_iff. exists l. split.
    + rewrite group_quality_absent; [reflexivity|].
      intros Hin. apply in_map_iff in Hin. destruct Hin as (p & Hp & Hin).
      apply In_inner_join in Hin. destruct Hin as (Ha & Hb & E).
      exact (Hdisjoint (fst p) (snd p) Ha Hb Hp E).
    + apply (In_unique String.eqb string_eqb_spec). now apply In_dropna.
Qed.

(** ** quantity_metrics: the loop over the sources *)

Lemma write_quantity_frame (src : string) (q : dict Quantity) (vs : list SourceVector) :
  map identifier (write_quantity src q vs) = map identifier vs
  /\ map associations (write_quantity src q vs) = map associations vs
  /\ map quality (write_quantity src q vs) = map quality vs.
Proof.
  unfold write_quantity. rewrite !map_map.
  repeat split; apply map_ext; intros v; now destruct (String.eqb (identifier v) src).
Qed.

Lemma quantity_written_identifier df srcs v :
  identifier (quantity_written df srcs v) = identifier v.
Proof.
  unfold quantity_written. destruct (Pd.mem _ _ _); [|reflexivity].
  now destruct (source_quantity df (identifier v)).
Qed.

Lemma quantity_written_associations df srcs v :
  associations (quantity_written df srcs v) = associations v.
Proof.
  unfold quantity_written. destruct (Pd.mem _ _ _); [|reflexivity].
  now destruct (source_quantity df (identifier v)).
Qed.

Lemma quantity_written_idem df srcs v :
  quantity_written df srcs (quantity_written df srcs v) = quantity_written df srcs v.
Proof.
  unfold quantity_written at 1. rewrite quantity_written_identifier.
  unfold quantity_written.
  destruct (Pd.mem _ _ _); [|reflexivity].
  now destruct (source_quantity df (identifier v)).
Qed.

Lemma quantity_written_step df src q rest v :
  source_quantity df src = Return q ->
  quantity_written df rest (if String.eqb (identifier v) src then set_quantity v q else v)
  = quantity_written df (src :: rest) v.
Proof.
  intros Hq. unfold quantity_written, Pd.mem. simpl existsb.
  destruct (String.eqb (identifier v) src) eqn:E; simpl.
  - apply String.eqb_eq in E. rewrite E, Hq.
    now destruct (existsb (String.eqb src) rest).
  - reflexivity.
Qed.

(** The loop returns exactly when every source's dictionary can be
    computed, and then every vector holds the dictionary of its source. *)
Lemma quantity_loop_Return df srcs : forall vs vs' u,
  quantity_loop df vs srcs = (vs', Return u) ->
  (forall s, In s srcs -> exists q, source_quantity df s = Return q)
  /\ vs' = map (quantity_written df srcs) vs.
Proof.
  induction srcs as [|src rest IH]; simpl; intros vs vs' u H.
  - injection H as <- _. split; [intros s []|].
    rewrite <- (map_id vs) at 1. apply map_ext. reflexivity.
  - destruct (source_quantity df src) as [q|e] eqn:Eq; [|discriminate].
    apply IH in H. destruct H as [Hall ->]. split.
    + intros s [<- | Hs]; eauto.
    + unfold write_quantity. rewrite map_map. apply map_ext.
      intros v. now apply quantity_written_step.
Qed.

Lemma quantity_loop_intro df srcs : forall vs,
  (forall s, In s srcs -> exists q, source_quantity df s = Return q) ->
  quantity_loop df vs srcs = (map (quantity_written df srcs) vs, Return tt).
Proof.
  induction srcs as [|src rest IH]; simpl; intros vs H.
  - f_equal. rewrite <- (map_id vs) at 1. apply map_ext. reflexivity.
  - destruct (H src (or_introl eq_refl)) as [q Hq]. rewrite Hq.
    rewrite IH by auto. f_equal.
    unfold write_quantity. rewrite map_map. apply map_ext.
    intros v. now apply quantity_written_step.
Qed.

Lemma quantity_loop_Raise df srcs : forall vs vs' e,
  quantity_loop df vs srcs = (vs', Raise e) ->
  exists s, In s srcs /\ source_quantity df s = Raise e.
Proof.
  induction srcs as [|src rest IH]; simpl; intros vs vs' e H; [discriminate|].
  destruct (source_quantity df src) as [q|e'] eqn:Eq.
  - apply IH in H. destruct H as (s & Hs & Hr). eauto.
  - injection H as _ <-. eauto.
Qed.

Lemma concat_sources_ext (vs vs' : list SourceVector) :
  map identifier vs' = map identifier vs ->
  map associations vs' = map associations vs ->
  concat_sources vs' = concat_sources vs.
Proof.
  revert vs'. induction vs as [|v vs IH]; intros [|v' vs']; simpl; try discriminate; auto.
  intros [= Hi His] [= Ha Has]. unfold concat_sources in *. simpl.
  rewrite Hi, Ha. f_equal. now apply IH.
Qed.

Lemma quantity_metrics_idem (m m1 : CNLM) (t1 : list QuantityRow) :
  quantity_metrics m = (m1, Return t1) -> quantity_metrics m1 = (m1, Return t1).
Proof.
  unfold quantity_metrics.
  destruct (vectors_noisy m) as [|v0 vs0] eqn:Evs; [discriminate|].
  rewrite <- Evs.
  set (df := concat_sources (vectors_noisy m)).
  set (srcs := Pd.sort (Pd.unique String.eqb (map source df))).
  destruct (quantity_loop df (vectors_noisy m) srcs) as [vs [u|e]] eqn:Eloop; [|discriminate].
  intros [= <- <-].
  apply quantity_loop_Return in Eloop. destruct Eloop as [Hall ->].
  simpl vectors_noisy.
  assert (Edf : concat_sources (map (quantity_written df srcs) (vectors_noisy m)) = df).
  { apply concat_sources_ext; rewrite map_map; apply map_ext; intros v.
    - apply quantity_written_identifier.
    - apply quantity_written_associations. }
  rewrite Edf. fold srcs.
  rewrite quantity_loop_intro by assumption.
  rewrite map_map, (map_ext _ _ (quantity_written_idem df srcs)).
  rewrite Evs. simpl. reflexivity.
Qed.

(** C7. Running [quality_metrics] again on the matrix a first run has
    left returns the same table and leaves the matrix unchanged, and so
    does [quantity_metrics]: the slots are overwritten, never merged. *)
Theorem metrics_idempotent :
  (forall (m m1 : CNLM) (t1 : list QualityRow),
      quality_metrics m = (m1, Return t1) -> quality_metrics m1 = (m1, Return t1))
  /\ (forall (m m1 : CNLM) (t1 : list QuantityRow),
         quantity_metrics m = (m1, Return t1) -> quantity_metrics m1 = (m1, Return t1)).
Proof.
  split; [exact quality_metrics_idem | exact quantity_metrics_idem].
Qed.

(** ** quantity_metrics: one source *)

Lemma find_Some_filter {A : Type} (f : A -> bool) (l : list A) (x : A) :
  find f l = Some x <-> exists rest, filter f l = x :: rest.
Proof.
  induction l as [|a l IH]; simpl.
  - split; [discriminate | intros [rest H]; discriminate].
  - destruct (f a).
    + split; [intros [= ->]; eauto | intros [rest [= -> _]]; reflexivity].
    + exact IH.
Qed.

Lemma find_map {A B : Type} (g : A -> B) (f : B -> bool) (l : list A) :
  find f (map g l) = option_map g (find (fun x => f (g x)) l).
Proof.
  induction l as [|a l IH]; simpl; [reflexivity|].
  now destruct (f (g a)).
Qed.

Lemma foldM_Return_inv {A S : Type} (f : S -> A -> result S) (x : A) (xs : list A) (s s' : S) :
  foldM f s (x :: xs) = Return s' ->
  exists s1, f s x = Return s1 /\ foldM f s1 xs = Return s'.
Proof. simpl. destruct (f s x) as [s1|e]; simpl; [eauto | discriminate]. Qed.

(** A loop whose body, on states satisfying [P], raises [KeyError] on the
    elements of [bad] and returns a state satisfying [P] on the others. *)
Lemma foldM_cases {A S : Type} (f : S -> A -> result S) (P : S -> Prop) (bad : A -> Prop)
      (xs : list A) :
  (forall s x, In x xs -> P s -> bad x -> f s x = Raise KeyError) ->
  (forall s x, In x xs -> P s -> ~ bad x -> exists s', f s x = Return s' /\ P s') ->
  (forall x, In x xs -> bad x \/ ~ bad x) ->
  forall s, P s ->
    ((exists x, In x xs /\ bad x) /\ foldM f s xs = Raise KeyError)
    \/ ((forall x, In x xs -> ~ bad x) /\ exists s', foldM f s xs = Return s' /\ P s').
Proof.
  induction xs as [|x xs IH]; intros Hbad Hgood Hdec s Hs.
  - right. split; [intros x [] | exists s; now split].
  - destruct (Hdec x (or_introl eq_refl)) as [Hx | Hx].
    + left. split; [exists x; split; [now left | assumption]|].
      simpl. now rewrite (Hbad s x (or_introl eq_refl) Hs Hx).
    + destruct (Hgood s x (or_introl eq_refl) Hs Hx) as (s1 & Hs1 & HP1).
      simpl. rewrite Hs1. simpl.
      destruct (IH (fun s x H => Hbad s x (or_intror H))
                   (fun s x H => Hgood s x (or_intror H))
                   (fun x H => Hdec x (or_intror H)) s1 HP1)
        as [[(y & Hy & Hby) Hr] | [Hall Hr]].
      * left. split; [exists y; split; [now right | assumption] | assumption].
      * right. split; [|assumption].
        intros y [<- | Hy]; auto.
Qed.

Section RecordStep.
Variables df_source df_others : list SourceRow.

Lemma labels_unique_not_nil (r : RecordId) :
  In r (map row_record df_others) ->
  Pd.unique label_eqb
    (map row_label (filter (fun row => String.eqb (row_record row) r) df_others)) <> [].
Proof.
  intros Hr Hnil. apply unique_nil_inv in Hnil. apply map_eq_nil in Hnil.
  apply in_map_iff in Hr. destruct Hr as (row & Hrow & Hin).
  assert (H : In row (filter (fun row => String.eqb (row_record row) r) df_others)).
  { apply filter_In. split; [assumption | now apply String.eqb_eq]. }
  rewrite Hnil in H. destruct H.
Qed.

Lemma record_step_null (q : dict Quantity) (r : RecordId) (row : SourceRow) :
  In r (map row_record df_others) ->
  first_row df_source r = Some row -> row_label row = None ->
  record_step df_source df_others q r = Raise KeyError.
Proof.
  intros Hr Hfirst Hnull. pose proof (labels_unique_not_nil r Hr) as Hne.
  apply find_Some_filter in Hfirst. destruct Hfirst as [rest Hf].
  unfold record_step. rewrite Hf, Hnull.
  destruct (Pd.unique label_eqb _) as [|label0 others] eqn:Eu; [congruence|].
  destruct (Pd.mem label_eqb None (label0 :: others)) eqn:Emem; [reflexivity|].
  cbn [bind].
  destruct (1 <? length (label0 :: others))%nat; [reflexivity|].
  destruct label0 as [l0|]; [reflexivity|].
  unfold Pd.mem in Emem. simpl in Emem. discriminate.
Qed.

Lemma incr_overlaps_keys (l : string) (q : dict Quantity) :
  In l (dict_keys q) ->
  exists q', incr_overlaps (Some l) q = Return q' /\ dict_keys q' = dict_keys q.
Proof.
  intros Hl. unfold incr_overlaps, quantity_lookup.
  destruct (dict_get_keys l q Hl) as [v Hv]. rewrite Hv. simpl.
  eexists. split; [reflexivity|]. now apply dict_keys_set.
Qed.

Lemma incr_conflicts_keys (l : string) (q : dict Quantity) :
  In l (dict_keys q) ->
  exists q', incr_conflicts (Some l) q = Return q' /\ dict_keys q' = dict_keys q.
Proof.
  intros Hl. unfold incr_conflicts, quantity_lookup.
  destruct (dict_get_keys l q Hl) as [v Hv]. rewrite Hv. simpl.
  eexists. split; [reflexivity|]. now apply dict_keys_set.
Qed.

Lemma record_step_nonnull (q : dict Quantity) (r : RecordId) (row : SourceRow) (l : string) :
  In r (map row_record df_others) ->
  first_row df_source r = Some row -> row_label row = Some l ->
  In l (dict_keys q) ->
  exists q', record_step df_source df_others q r = Return q' /\ dict_keys q' = dict_keys q.
Proof.
  intros Hr Hfirst Hlabel Hl. pose proof (labels_unique_not_nil r Hr) as Hne.
  apply find_Some_filter in Hfirst. destruct Hfirst as [rest Hf].
  unfold record_step. rewrite Hf, Hlabel.
  destruct (Pd.unique label_eqb _) as [|label0 others] eqn:Eu; [congruence|].
  assert (H1 : exists q1,
             (if Pd.mem label_eqb (Some l) (label0 :: others)
              then incr_overlaps (Some l) q else Return q) = Return q1
             /\ dict_keys q1 = dict_keys q).
  { destruct (Pd.mem _ _ _); [now apply incr_overlaps_keys | eauto]. }
  destruct H1 as (q1 & -> & Hk1). cbn [bind].
  assert (H2 : exists c,
             (if (1 <? length (label0 :: others))%nat then Return true
              else Return (negb (label_eqb label0 (Some l)))) = Return c).
  { destruct (1 <? _)%nat; eauto. }
  destruct H2 as (c & ->). cbn [bind].
  destruct c; [|eauto].
  rewrite <- Hk1 in Hl. destruct (incr_conflicts_keys l q1 Hl) as (q' & -> & Hk').
  exists q'. split; [reflexivity | congruence].
Qed.
End RecordStep.

Lemma dict_keys_initial_quantity (df_source : list SourceRow) :
  dict_keys (initial_quantity df_source)
  = Pd.unique String.eqb (Pd.dropna (map row_label df_source)).
Proof.
  unfold initial_quantity, dict_keys. rewrite map_map. simpl.
  now rewrite map_id.
Qed.

Lemma In_df_others_source (df : list SourceRow) (s : string) (r : RecordId) :
  In r (map row_record (df_others_of df (df_source_of df s) s)) ->
  In r (map row_record (df_source_of df s)).
Proof.
  intros H. apply in_map_iff in H. destruct H as (row & <- & Hrow).
  unfold df_others_of in Hrow. apply filter_In in Hrow. destruct Hrow as [_ Hc].
  apply andb_true_iff in Hc. destruct Hc as [_ Hc].
  apply (mem_In String.eqb string_eqb_spec) in Hc.
  exact (proj1 (In_unique String.eqb string_eqb_spec _ _) Hc).
Qed.

Lemma first_row_covered (df_source : list SourceRow) (r : RecordId) :
  In r (map row_record df_source) ->
  exists row, first_row df_source r = Some row /\ In row df_source /\ row_record row = r.
Proof.
  intros H. unfold first_row.
  destruct (find _ df_source) as [row|] eqn:E.
  - apply find_some in E. destruct E as [Hin E]. apply String.eqb_eq in E. eauto.
  - apply in_map_iff in H. destruct H as (row & Hr & Hin).
    pose proof (find_none _ _ E row Hin) as Hf. simpl in Hf.
    rewrite Hr, String.eqb_refl in Hf. discriminate.
Qed.

(** A source's dictionary cannot be computed exactly when, on a record that
    another source covers too, its first row has a null label; the
    exception is then [KeyError]. *)
Lemma source_quantity_cases (df : list SourceRow) (s : string) :
  let df_source := df_source_of df s in
  let df_others := df_others_of df df_source s in
  ((exists r row, In r (map row_record df_others)
                  /\ first_row df_source r = Some row /\ row_label row = None)
   /\ source_quantity df s = Raise KeyError)
  \/ ((forall r row, In r (map row_record df_others) ->
                     first_row df_source r = Some row -> row_label row <> None)
      /\ exists q, source_quantity df s = Return q
                   /\ dict_keys q = dict_keys (initial_quantity df_source)).
Proof.
  intros df_source df_others. unfold source_quantity. fold df_source. fold df_others.
  set (xs := Pd.sort (Pd.unique String.eqb (map row_record df_others))).
  assert (Hxs : forall x, In x xs <-> In x (map row_record df_others)).
  { intros x. unfold xs. now rewrite In_sort, (In_unique String.eqb string_eqb_spec). }
  destruct (foldM_cases (record_step df_source df_others)
              (fun q => dict_keys q = dict_keys (initial_quantity df_source))
              (fun r => exists row, first_row df_source r = Some row /\ row_label row = None)
              xs) with (s := initial_quantity df_source)
    as [[(r & Hr & row & Hrow & Hnull) Hres] | [Hall (q & Hres & Hq)]].
  - intros q x Hx _ (row & Hrow & Hnull).
    apply Hxs in Hx. eapply record_step_null; eauto.
  - intros q x Hx Hq Hgood. apply Hxs in Hx.
    destruct (first_row_covered df_source x (In_df_others_source df s x Hx))
      as (row & Hrow & Hin & _).
    destruct (row_label row) as [l|] eqn:El; [|exfalso; apply Hgood; eauto].
    destruct (record_step_nonnull df_source df_others q x Hx Hrow El) as (q' & Hq' & Hk).
    + rewrite Hq, dict_keys_initial_quantity.
      apply (In_unique String.eqb string_eqb_spec). apply In_dropna.
      rewrite <- El. now apply in_map.
    + exists q'. split; [assumption | congruence].
  - intros x _. destruct (first_row df_source x) as [row|]; [|right; intros (? & ? & _); discriminate].
    destruct (row_label row) eqn:El.
    + right. intros (row' & [= <-] & H). congruence.
    + left. eauto.
  - reflexivity.
  - left. split; [|assumption]. exists r, row. apply Hxs in Hr. auto.
  - right. split; [|eauto].
    intros r row Hr Hrow Hnull. apply Hxs in Hr. apply (Hall r Hr). eauto.
Qed.

Lemma source_quantity_error (df : list SourceRow) (s : string) (e : exn) :
  source_quantity df s = Raise e -> e = KeyError.
Proof.
  intros H. destruct (source_quantity_cases df s) as [[_ Hr] | [_ (q & Hr & _)]]; congruence.
Qed.

(** ** quantity_metrics: sources, records and first associations *)

Lemma In_concat_sources (row : SourceRow) (vs : list SourceVector) :
  In row (concat_sources vs)
  <-> exists v, In v vs /\ source row = identifier v /\ In (snd row) (rows (associations v)).
Proof.
  unfold concat_sources. rewrite in_flat_map. split.
  - intros (v & Hv & Hrow). apply in_map_iff in Hrow. destruct Hrow as (a & <- & Ha).
    exists v. simpl. auto.
  - intros (v & Hv & Hs & Ha). exists v. split; [assumption|].
    apply in_map_iff. exists (snd row). split; [|assumption].
    destruct row as [s a]. simpl in *. unfold source in Hs. simpl in Hs. congruence.
Qed.

Lemma df_source_rows (vs : list SourceVector) (s : string) :
  map snd (df_source_of (concat_sources vs) s) = source_rows vs s.
Proof.
  unfold df_source_of, concat_sources, source_rows.
  induction vs as [|v vs IH]; [reflexivity|].
  cbn [flat_map filter]. rewrite filter_app, map_app.
  destruct (String.eqb (identifier v) s) eqn:E; cbn [flat_map].
  - f_equal; [|exact IH]. rewrite (proj2 (forallb_filter_id _ _)).
    + rewrite map_map. simpl. now rewrite map_id.
    + apply forallb_forall. intros row Hrow.
      apply in_map_iff in Hrow. destruct Hrow as (a & <- & _). exact E.
  - rewrite filter_none; [exact IH|].
    intros row Hrow. apply in_map_iff in Hrow. destruct Hrow as (a & <- & _).
    exact E.
Qed.

Lemma covers_df_source (vs : list SourceVector) (s : string) (r : RecordId) :
  covers vs s r <-> In r (map row_record (df_source_of (concat_sources vs) s)).
Proof.
  unfold covers. rewrite <- df_source_rows, map_map. reflexivity.
Qed.

Lemma first_association_first_row (vs : list SourceVector) (s : string) (r : RecordId) :
  first_association vs s r
  = option_map snd (first_row (df_source_of (concat_sources vs) s) r).
Proof.
  unfold first_association, first_row. rewrite <- df_source_rows.
  apply find_map.
Qed.

Lemma In_df_others (vs : list SourceVector) (s : string) (r : RecordId) :
  let df := concat_sources vs in
  In r (map row_record (df_others_of df (df_source_of df s) s))
  <-> covers vs s r /\ exists s', s' <> s /\ covers vs s' r.
Proof.
  intros df. split.
  - intros H. split; [apply covers_df_source; now apply In_df_others_source|].
    apply in_map_iff in H. destruct H as (row & <- & Hrow).
    apply filter_In in Hrow. destruct Hrow as [Hin Hc].
    apply andb_true_iff in Hc. destruct Hc as [Hne _].
    apply negb_true_iff, String.eqb_neq in Hne.
    exists (source row). split; [assumption|].
    apply covers_df_source. apply in_map. apply filter_In.
    split; [assumption | apply String.eqb_refl].
  - intros (Hs & s' & Hne & Hs').
    apply covers_df_source in Hs'. apply in_map_iff in Hs'.
    destruct Hs' as (row & Hr & Hrow). apply filter_In in Hrow.
    destruct Hrow as [Hin Es]. apply String.eqb_eq in Es.
    apply in_map_iff. exists row. split; [assumption|].
    apply filter_In. split; [assumption|]. apply andb_true_iff. split.
    + apply negb_true_iff, String.eqb_neq. congruence.
    + apply (mem_In String.eqb string_eqb_spec).
      apply (In_unique String.eqb string_eqb_spec).
      rewrite Hr. now apply covers_df_source.
Qed.

Lemma covers_source (vs : list SourceVector) (s : string) (r : RecordId) :
  covers vs s r ->
  In s (Pd.sort (Pd.unique String.eqb (map source (concat_sources vs)))).
Proof.
  intros H. apply covers_df_source in H. apply in_map_iff in H.
  destruct H as (row & _ & Hrow). apply filter_In in Hrow. destruct Hrow as [Hin E].
  apply String.eqb_eq in E.
  apply In_sort, (In_unique String.eqb string_eqb_spec).
  rewrite <- E. now apply in_map.
Qed.

Lemma quantity_metrics_result (m : CNLM) :
  vectors_noisy m <> [] ->
  let df := concat_sources (vectors_noisy m) in
  let srcs := Pd.sort (Pd.unique String.eqb (map source df)) in
  snd (quantity_metrics m)
  = match snd (quantity_loop df (vectors_noisy m) srcs) with
    | Return _ =>
        Return (quantity_statistics (fst (quantity_loop df (vectors_noisy m) srcs)))
    | Raise e => Raise e
    end.
Proof.
  intros Hne df srcs. unfold quantity_metrics.
  destruct (vectors_noisy m) as [|v0 vs0] eqn:Evs; [congruence|].
  fold df. fold srcs.
  now destruct (quantity_loop df (v0 :: vs0) srcs) as [vs [u|e]].
Qed.

(** C10. If a source covers a record that another source covers too and
    its first association for that record has a null label,
    [quantity_metrics] raises [KeyError]; if every such first association
    has a non-null label, no lookup fails, and [quantity_metrics] returns
    its table whenever there is a noisy vector at all. *)
Theorem quantity_metrics_null_label (m : CNLM) :
  let vs := vectors_noisy m in
  ((exists s s' r a,
       s' <> s /\ covers vs s r /\ covers vs s' r
       /\ first_association vs s r = Some a /\ label a = None)
   -> snd (quantity_metrics m) = Raise KeyError)
  /\ ((forall s s' r a,
          s' <> s -> covers vs s r -> covers vs s' r ->
          first_association vs s r = Some a -> label a <> None)
      -> snd (quantity_metrics m) <> Raise KeyError
         /\ snd (quantity_metrics m) <> Raise IndexError
         /\ (vs <> [] -> exists table, snd (quantity_metrics m) = Return table)).
Proof.
  intros vs. subst vs. split.
  - intros (s & s' & r & a & Hne & Hs & Hs' & Hfirst & Hnull).
    assert (Hvs : vectors_noisy m <> []).
    { intros E. unfold covers in Hs. rewrite E in Hs. destruct Hs. }
    rewrite (quantity_metrics_result m Hvs).
    set (df := concat_sources (vectors_noisy m)). set (srcs := Pd.sort _).
    assert (Hbad : source_quantity df s = Raise KeyError).
    { destruct (source_quantity_cases df s) as [[_ Hr] | [Hall _]]; [assumption|].
      exfalso. rewrite first_association_first_row in Hfirst. fold df in Hfirst.
      destruct (first_row (df_source_of df s) r) as [row|] eqn:Erow; [|discriminate].
      injection Hfirst as <-.
      apply (Hall r row); [|assumption|exact Hnull].
      apply In_df_others. split; [assumption | eauto]. }
    destruct (quantity_loop df (vectors_noisy m) srcs) as [vs' [u|e]] eqn:Eloop; simpl.
    + apply quantity_loop_Return in Eloop. destruct Eloop as [Hall _].
      destruct (Hall s (covers_source (vectors_noisy m) s r Hs)) as [q Hq]. congruence.
    + apply quantity_loop_Raise in Eloop. destruct Eloop as (s0 & _ & Hr).
      now rewrite (source_quantity_error df s0 Hr).
  - intros Hgood.
    destruct (vectors_noisy m) as [|v0 vs0] eqn:Evs.
    + unfold quantity_metrics. rewrite Evs. simpl.
      repeat split; try discriminate. intros H. now contradiction H.
    + assert (Hvs : vectors_noisy m <> []) by congruence.
      rewrite <- Evs in Hgood.
      rewrite (quantity_metrics_result m Hvs).
      set (df := concat_sources (vectors_noisy m)). set (srcs := Pd.sort _).
      rewrite (quantity_loop_intro df srcs (vectors_noisy m)).
      * simpl. repeat split; try discriminate. eauto.
      * intros s _.
        destruct (source_quantity_cases df s)
          as [[(r & row & Hr & Hrow & Hnull) _] | [_ (q & Hq & _)]]; [|eauto].
        exfalso. apply In_df_others in Hr. destruct Hr as (Hs & s' & Hne & Hs').
        apply (Hgood s s' r (snd row) Hne Hs Hs'); [|exact Hnull].
        rewrite first_association_first_row. fold df. now rewrite Hrow.
Qed.

(** ** quantity_metrics: the counters never exceed the coverage *)

Lemma NoDup_map_in {A B : Type} (f : A -> B) (l : list A) :
  (forall x y, In x l -> In y l -> f x = f y -> x = y) ->
  NoDup l -> NoDup (map f l).
Proof.
  intros Hinj Hnd. induction Hnd as [|a l Ha Hnd IH]; simpl; constructor.
  - intros Hin. apply in_map_iff in Hin. destruct Hin as (y & E & Hy).
    apply Ha. rewrite (Hinj a y); auto; [now left | now right].
  - apply IH. intros x y Hx Hy. apply Hinj; now right.
Qed.

Lemma foldM_invariant {A S : Type} (f : S -> A -> result S) (I : list A -> S -> Prop) :
  (forall done s x s', I done s -> f s x = Return s' -> I (x :: done) s') ->
  forall xs done s s', I done s -> foldM f s xs = Return s' -> I (rev xs ++ done) s'.
Proof.
  intros Hstep. induction xs as [|x xs IH]; intros done s s' HI H.
  - simpl in *. now injection H as <-.
  - apply foldM_Return_inv in H. destruct H as (s1 & H1 & H).
    simpl. rewrite <- app_assoc. simpl.
    eapply IH; [|exact H]. eapply Hstep; eauto.
Qed.

Section Counters.
Variable df_source : list SourceRow.

Lemma visited_with_cons (l : string) (r : RecordId) (done : list RecordId) :
  visited_with df_source l (r :: done)
  = (visited_with df_source l done + (if first_is df_source l r then 1 else 0))%Z.
Proof.
  unfold visited_with. simpl. destruct (first_is df_source l r); simpl length; lia.
Qed.

Lemma visited_with_le_coverage (l : string) (done : list RecordId) :
  NoDup done -> (visited_with df_source l done <= coverage_of df_source l)%Z.
Proof.
  intros Hnd. unfold visited_with, coverage_of. apply inj_le.
  set (F := filter (first_is df_source l) done).
  set (C := filter (fun r => series_eq (row_label r) (Some l)) df_source).
  assert (HF : forall r, In r F ->
              exists row, first_row df_source r = Some row
                          /\ In row C /\ row_record row = r).
  { intros r Hr. apply filter_In in Hr. destruct Hr as [_ Hr].
    unfold first_is in Hr.
    destruct (first_row df_source r) as [row|] eqn:E; [|discriminate].
    exists row. split; [reflexivity|].
    apply find_some in E. destruct E as [Hin E]. apply String.eqb_eq in E.
    split; [|assumption]. apply filter_In. split; [assumption|].
    now rewrite series_eq_Some. }
  rewrite <- (length_map (first_row df_source) F), <- (length_map Some C).
  apply NoDup_incl_length.
  - apply NoDup_map_in; [|now apply NoDup_filter].
    intros x y Hx Hy E.
    destruct (HF x Hx) as (rx & Ex & _ & <-).
    destruct (HF y Hy) as (ry & Ey & _ & <-). congruence.
  - intros o Ho. apply in_map_iff in Ho. destruct Ho as (r & <- & Hr).
    destruct (HF r Hr) as (row & -> & Hin & _). now apply in_map.
Qed.

Lemma incr_overlaps_In (label : Label) (q q1 : dict Quantity) :
  incr_overlaps label q = Return q1 ->
  forall l qq, In (l, qq) q1 ->
    In (l, qq) q
    \/ (label = Some l
        /\ exists old, In (l, old) q
             /\ qq = mkQuantity (record_coverage old) (source_overlaps old + 1)
                                (source_conflicts old)).
Proof.
  unfold incr_overlaps, quantity_lookup. destruct label as [k|]; [|discriminate].
  destruct (dict_get k q) as [old|] eqn:E; [|discriminate]. simpl.
  intros [= <-] l qq Hin. apply In_dict_set in Hin. destruct Hin as [[= -> ->] | Hin].
  - right. split; [reflexivity|]. exists old. split; [now apply dict_get_In | reflexivity].
  - now left.
Qed.

Lemma incr_conflicts_In (label : Label) (q q1 : dict Quantity) :
  incr_conflicts label q = Return q1 ->
  forall l qq, In (l, qq) q1 ->
    In (l, qq) q
    \/ (label = Some l
        /\ exists old, In (l, old) q
             /\ qq = mkQuantity (record_coverage old) (source_overlaps old)
                                (source_conflicts old + 1)).
Proof.
  unfold incr_conflicts, quantity_lookup. destruct label as [k|]; [|discriminate].
  destruct (dict_get k q) as [old|] eqn:E; [|discriminate]. simpl.
  intros [= <-] l qq Hin. apply In_dict_set in Hin. destruct Hin as [[= -> ->] | Hin].
  - right. split; [reflexivity|]. exists old. split; [now apply dict_get_In | reflexivity].
  - now left.
Qed.

Lemma first_is_label (r : RecordId) (row : SourceRow) (l : string) :
  first_row df_source r = Some row -> row_label row = Some l ->
  first_is df_source l r = true.
Proof.
  intros Hrow Hl. unfold first_is. rewrite Hrow, Hl. simpl. apply String.eqb_refl.
Qed.

(** One pass of the loop body keeps the invariant. *)
Lemma record_step_bounded (df_others : list SourceRow) (done : list RecordId)
      (q q' : dict Quantity) (r : RecordId) :
  quantity_bounded df_source done done q ->
  record_step df_source df_others q r = Return q' ->
  quantity_bounded df_source (r :: done) (r :: done) q'.
Proof.
  intros Hq. unfold record_step.
  destruct (filter _ df_source) as [|row rest] eqn:Ef; [discriminate|].
  assert (Hrow : first_row df_source r = Some row).
  { apply find_Some_filter. eauto. }
  set (labels_unique := Pd.unique label_eqb _).
  destruct (if Pd.mem label_eqb (row_label row) labels_unique
            then incr_overlaps (row_label row) q else Return q) as [q1|e] eqn:E1;
    [|discriminate].
  cbn [bind].
  assert (H1 : quantity_bounded df_source (r :: done) done q1).
  { intros l qq Hin.
    assert (Hcase : In (l, qq) q
                    \/ (row_label row = Some l
                        /\ exists old, In (l, old) q
                             /\ qq = mkQuantity (record_coverage old)
                                                (source_overlaps old + 1)
                                                (source_conflicts old))).
    { destruct (Pd.mem _ _ _).
      - eapply incr_overlaps_In; eauto.
      - injection E1 as <-. now left. }
    rewrite visited_with_cons.
    destruct Hcase as [Hold | (Hl & old & Hold & ->)].
    - destruct (Hq l qq Hold) as (Hc & Ho & Hf).
      repeat split; try assumption; destruct (first_is df_source l r); lia.
    - destruct (Hq l old Hold) as (Hc & Ho & Hf).
      rewrite (@first_is_label r row l Hrow Hl). repeat split; simpl; try assumption; lia. }
  destruct (if (1 <? length labels_unique)%nat then Return true
            else match labels_unique with
                 | [] => Raise IndexError
                 | label0 :: _ => Return (negb (label_eqb label0 (row_label row)))
                 end) as [conflict|e] eqn:E2; [|discriminate].
  cbn [bind]. intros Hq' l qq Hin.
  assert (Hcase : In (l, qq) q1
                  \/ (row_label row = Some l
                      /\ exists old, In (l, old) q1
                           /\ qq = mkQuantity (record_coverage old)
                                              (source_overlaps old)
                                              (source_conflicts old + 1))).
  { destruct conflict.
    - eapply incr_conflicts_In; eauto.
    - injection Hq' as <-. now left. }
  rewrite (visited_with_cons l r done) at 2.
  destruct Hcase as [Hold | (Hl & old & Hold & ->)].
  - destruct (H1 l qq Hold) as (Hc & Ho & Hf).
    repeat split; try assumption; destruct (first_is df_source l r); lia.
  - destruct (H1 l old Hold) as (Hc & Ho & Hf).
    rewrite (@first_is_label r row l Hrow Hl). repeat split; simpl; try assumption; lia.
Qed.

Lemma initial_quantity_bounded : quantity_bounded df_source [] [] (initial_quantity df_source).
Proof.
  intros l qq Hin. unfold initial_quantity in Hin.
  apply in_map_iff in Hin. destruct Hin as (l' & [= -> <-] & _). simpl.
  unfold visited_with. simpl. repeat split; lia.
Qed.
End Counters.

Lemma source_quantity_bounded (df : list SourceRow) (s : string) (q : dict Quantity) :
  source_quantity df s = Return q ->
  forall l qq, In (l, qq) q ->
    (source_overlaps qq <= record_coverage qq)%Z
    /\ (source_conflicts qq <= record_coverage qq)%Z.
Proof.
  unfold source_quantity.
  set (df_source := df_source_of df s).
  set (df_others := df_others_of df df_source s).
  set (xs := Pd.sort _).
  intros Hq l qq Hin.
  assert (Hinv : quantity_bounded df_source (rev xs ++ []) (rev xs ++ []) q).
  { apply (foldM_invariant (record_step df_source df_others)
             (fun done q => quantity_bounded df_source done done q))
      with (s := initial_quantity df_source).
    - intros done q0 x q1 H0 H1. eapply record_step_bounded; eauto.
    - apply initial_quantity_bounded.
    - exact Hq. }
  rewrite app_nil_r in Hinv.
  destruct (Hinv l qq Hin) as (Hc & Ho & Hf).
  assert (Hle : (visited_with df_source l (rev xs) <= coverage_of df_source l)%Z).
  { apply visited_with_le_coverage. apply NoDup_rev. unfold xs.
    apply NoDup_sort, NoDup_unique. exact string_eqb_spec. }
  lia.
Qed.

Lemma nonempty_vector_source (vs : list SourceVector) (v : SourceVector) :
  In v vs -> is_empty v = false ->
  In (identifier v) (Pd.sort (Pd.unique String.eqb (map source (concat_sources vs)))).
Proof.
  intros Hv Hne. unfold is_empty in Hne.
  destruct (rows (associations v)) as [|a rest] eqn:E; [discriminate|].
  apply In_sort, (In_unique String.eqb string_eqb_spec).
  apply in_map_iff. exists (identifier v, a). split; [reflexivity|].
  apply In_concat_sources. exists v. simpl. rewrite E. repeat split; auto. now left.
Qed.

(** C6. Once [quantity_metrics] has returned, in the quantity map of every
    non-empty noisy vector neither [source_overlaps] nor
    [source_conflicts] exceeds [record_coverage]. *)
Theorem quantity_metrics_bounds (m m' : CNLM) (table : list QuantityRow)
        (Hrun : quantity_metrics m = (m', Return table)) :
  forall v, In v (vectors_noisy m') -> is_empty v = false ->
    forall l q, In (l, q) (quantity v) ->
      (source_overlaps q <= record_coverage q)%Z
      /\ (source_conflicts q <= record_coverage q)%Z.
Proof.
  unfold quantity_metrics in Hrun.
  destruct (vectors_noisy m) as [|v0 vs0] eqn:Evs; [discriminate|].
  rewrite <- Evs in Hrun.
  set (df := concat_sources (vectors_noisy m)) in *.
  set (srcs := Pd.sort (Pd.unique String.eqb (map source df))) in *.
  destruct (quantity_loop df (vectors_noisy m) srcs) as [vs [u|e]] eqn:Eloop; [|discriminate].
  injection Hrun as <- _.
  apply quantity_loop_Return in Eloop. destruct Eloop as [Hall ->].
  simpl vectors_noisy. intros v' Hv' Hne l q Hin.
  apply in_map_iff in Hv'. destruct Hv' as (v & <- & Hv).
  assert (Hsrc : In (identifier v) srcs).
  { apply nonempty_vector_source; [assumption|].
    unfold is_empty in *. now rewrite quantity_written_associations in Hne. }
  destruct (Hall _ Hsrc) as [qv Hqv].
  unfold quantity_written in Hin.
  rewrite (proj2 (mem_In String.eqb string_eqb_spec _ _) Hsrc), Hqv in Hin.
  simpl in Hin. eapply source_quantity_bounded; eauto.
Qed.

(** ** weakly_supervise: the sigmoid *)

Lemma exact_arithmetic_laws : Float64Laws exact_arithmetic.
Proof.
  constructor; cbn [rnd np_exp exact_arithmetic]; try reflexivity; try (intros; lra).
  - intros x y [H | ->]; [left; now apply exp_increasing | right; reflexivity].
  - intros x. left. apply exp_pos.
  - apply exp_0.
  - apply exp_le_3.
Qed.

Section Sigmoid.
Variable F : Float64.
Hypothesis laws : Float64Laws F.

Lemma rnd_0 : rnd F 0 = 0%R.
Proof. pose proof (rnd_opp laws 0) as H. rewrite Ropp_0 in H. lra. Qed.

Lemma rnd_le (x b : R) : rnd F b = b -> (x <= b)%R -> (rnd F x <= b)%R.
Proof. intros Hb Hx. rewrite <- Hb. now apply (rnd_monotone laws). Qed.

Lemma rnd_ge (x b : R) : rnd F b = b -> (b <= x)%R -> (b <= rnd F x)%R.
Proof. intros Hb Hx. rewrite <- Hb. now apply (rnd_monotone laws). Qed.

(** The denominator [1 + np.exp(...)] is at least 1. *)
Lemma sigmoid_denominator (z : R) : (1 <= rnd F (1 + np_exp F z))%R.
Proof.
  apply rnd_ge; [apply (rnd_1 laws)|].
  pose proof (np_exp_nonneg laws z). lra.
Qed.

Lemma sigmoid_range (x c k : R) : (0 <= sigmoid F x c k <= 1)%R.
Proof.
  unfold sigmoid. set (z := rnd F (rnd F (- c * x) + k)).
  pose proof (sigmoid_denominator z) as Hd.
  set (d := rnd F (1 + np_exp F z)) in *.
  assert (Hinv : (0 < / d <= 1)%R).
  { split; [apply Rinv_0_lt_compat; lra|].
    rewrite <- Rinv_1. apply Rinv_le_contravar; lra. }
  unfold Rdiv. rewrite Rmult_1_l. split.
  - apply rnd_ge; [apply rnd_0 | lra].
  - apply rnd_le; [apply (rnd_1 laws) | lra].
Qed.

(** Where [c * x] is the float [k], the value is exactly [1/2]. *)
Lemma sigmoid_midpoint (x c k : R) :
  (c * x)%R = k -> rnd F k = k -> sigmoid F x c k = (1 / 2)%R.
Proof.
  intros Hx Hk. unfold sigmoid.
  replace (- c * x)%R with (- k)%R by lra.
  rewrite (rnd_opp laws), Hk.
  replace (- k + k)%R with 0%R by lra.
  rewrite rnd_0, (np_exp_0 laws).
  replace (1 + 1)%R with 2%R by lra.
  rewrite (rnd_2 laws). apply (rnd_half laws).
Qed.

Lemma sigmoid_monotone (x y c k : R) :
  (0 <= c)%R -> (x <= y)%R -> (sigmoid F x c k <= sigmoid F y c k)%R.
Proof.
  intros Hc Hxy. unfold sigmoid.
  set (zx := rnd F (rnd F (- c * x) + k)).
  set (zy := rnd F (rnd F (- c * y) + k)).
  assert (Hz : (zy <= zx)%R).
  { unfold zx, zy. apply (rnd_monotone laws). apply Rplus_le_compat_r.
    apply (rnd_monotone laws). nra. }
  assert (Hd : (rnd F (1 + np_exp F zy) <= rnd F (1 + np_exp F zx))%R).
  { apply (rnd_monotone laws). apply Rplus_le_compat_l.
    now apply (np_exp_monotone laws). }
  pose proof (sigmoid_denominator zy) as Hy.
  apply (rnd_monotone laws). unfold Rdiv. rewrite !Rmult_1_l.
  apply Rinv_le_contravar; lra.
Qed.

Lemma sigmoid_one : sigmoid F 1 1 1 = (1 / 2)%R.
Proof. apply sigmoid_midpoint; [lra | apply (rnd_1 laws)]. Qed.

(** With the defaults [c = 1] and [k = 1], the value at a non-negative
    argument is at least [1/4]. *)
Lemma sigmoid_floor (x : R) : (0 <= x)%R -> (1 / 4 <= sigmoid F x 1 1)%R.
Proof.
  intros Hx. unfold sigmoid.
  set (z := rnd F (rnd F (- (1) * x) + 1)).
  assert (Hz : (z <= 1)%R).
  { unfold z. apply rnd_le; [apply (rnd_1 laws)|].
    assert (H : (rnd F (- (1) * x) <= 0)%R) by (apply rnd_le; [apply rnd_0 | lra]).
    lra. }
  pose proof (sigmoid_denominator z) as Hd1.
  assert (Hd4 : (rnd F (1 + np_exp F z) <= 4)%R).
  { apply rnd_le; [apply (rnd_4 laws)|].
    pose proof (@np_exp_monotone F laws z 1 Hz) as H.
    pose proof (np_exp_1 laws). lra. }
  apply rnd_ge; [apply (rnd_quarter laws)|].
  set (d := rnd F (1 + np_exp F z)) in *.
  assert (H : (/ 4 <= / d)%R) by (apply Rinv_le_contravar; lra).
  lra.
Qed.

End Sigmoid.

Lemma inv_one_plus_lt (a b : R) :
  (0 < a)%R -> (a < b)%R -> (1 / (1 + b) < 1 / (1 + a))%R.
Proof.
  intros Ha Hab. unfold Rdiv. rewrite !Rmult_1_l.
  apply Rinv_lt_contravar; [|lra].
  apply Rmult_lt_0_compat; lra.
Qed.

Lemma logistic_one : (1 / 2 < 1 / (1 + exp (- 1)))%R.
Proof.
  replace (1 / 2)%R with (1 / (1 + 1))%R by lra.
  apply inv_one_plus_lt; [apply exp_pos|].
  pose proof (exp_increasing (- 1) 0) as Hinc. rewrite exp_0 in Hinc.
  apply Hinc. lra.
Qed.

(** ** weakly_supervise: the decision for one row *)

Lemma fgt_zero (q : Q) : fgt (Fin q) (Fin 0) = true <-> (0 < q)%Q.
Proof.
  unfold fgt. rewrite negb_true_iff. split.
  - intros H. apply Qnot_le_lt. intros Hle. apply Qle_bool_iff in Hle. congruence.
  - intros H. destruct (Qle_bool q 0) eqn:E; [|reflexivity].
    apply Qle_bool_iff in E. exfalso. exact (Qlt_not_le _ _ H E).
Qed.

Lemma ensemble_emit (F : Float64) (row : list (option Prediction)) (l : string) (q : Q) :
  margin row = Return (l, Fin q) -> (0 < q)%Q ->
  ensemble F row = Return (Some (l, sigmoid F (Q2R q) 1 1)).
Proof.
  intros Hm Hq. unfold ensemble. rewrite Hm. cbn [bind snd fst].
  now rewrite (proj2 (fgt_zero q) Hq).
Qed.

Lemma ensemble_abstain (F : Float64) (row : list (option Prediction)) (l : string) (w : pyfloat) :
  margin row = Return (l, w) -> fgt w (Fin 0) = false ->
  ensemble F row = Return None.
Proof.
  intros Hm Hw. unfold ensemble. rewrite Hm. cbn [bind snd fst].
  now rewrite Hw.
Qed.

Lemma ensemble_Some_inv (F : Float64) (row : list (option Prediction)) (l : string) (c : R) :
  ensemble F row = Return (Some (l, c)) ->
  exists q, margin row = Return (l, Fin q) /\ (0 < q)%Q /\ c = sigmoid F (Q2R q) 1 1.
Proof.
  unfold ensemble. destruct (margin row) as [[l' w]|e]; [|discriminate].
  cbn [bind snd fst]. destruct (fgt w (Fin 0)) eqn:E; [|discriminate].
  destruct w as [q|]; [|discriminate].
  intros [= -> <-]. exists q. repeat split. now apply fgt_zero.
Qed.

Lemma mapM_Forall2 {A B : Type} (f : A -> result B) (xs : list A) (ys : list B) :
  mapM f xs = Return ys <-> Forall2 (fun x y => f x = Return y) xs ys.
Proof.
  revert ys. induction xs as [|x xs IH]; intros ys; simpl.
  - split; [intros [= <-]; constructor | intros H; inversion H; reflexivity].
  - split.
    + destruct (f x) as [y|e] eqn:Ex; [|discriminate]. cbn [bind].
      destruct (mapM f xs) as [ys'|e] eqn:Exs; [|discriminate]. cbn [bind].
      intros [= <-]. constructor; [assumption | now apply IH].
    + intros H. inversion H as [|? y ? ys' Hx Hrest]; subst.
      rewrite Hx. cbn [bind]. apply IH in Hrest. rewrite Hrest. reflexivity.
Qed.

Lemma mapM_length {A B : Type} (f : A -> result B) (xs : list A) (ys : list B) :
  mapM f xs = Return ys -> length ys = length xs.
Proof.
  intros H. apply mapM_Forall2 in H. symmetry. eapply Forall2_length; eauto.
Qed.

Lemma Forall2_map_fst {K A B : Type} (P : K * A -> K * B -> Prop)
      (xs : list (K * A)) (ys : list (K * B)) :
  Forall2 (fun x y => fst y = fst x /\ P x y) xs ys -> map fst ys = map fst xs.
Proof.
  induction 1 as [|x y xs ys [Hfst _] _ IH]; simpl; [reflexivity|].
  now rewrite Hfst, IH.
Qed.

Lemma weakly_supervise_fst (F : Float64) (m : CNLM) :
  fst (weakly_supervise F m) = fst (weakly_supervise_votes m).
Proof. unfold weakly_supervise. now destruct (weakly_supervise_votes m). Qed.

Lemma weakly_supervise_snd (F : Float64) (m : CNLM) :
  snd (weakly_supervise F m)
  = (votes <- snd (weakly_supervise_votes m) ;; apply_ensemble F votes)%py.
Proof. unfold weakly_supervise. now destruct (weakly_supervise_votes m). Qed.

(** C1 (as amended). Where [weakly_supervise] emits a label, the row's
    margin [q] is positive and the confidence is [sigmoid(q)] with the
    defaults [c = 1] and [k = 1], [1 / (1 + np.exp(-q + 1))]: the logistic
    function with slope 1 and midpoint 1.  It is exactly [1/2] at the
    margin 1, at least [1/2] from the margin 1 on and at most [1/2] up to
    it, and it lies between [1/4] and [1], both included. *)
Theorem weakly_supervise_confidence (F : Float64) (m : CNLM)
        (out : list (RecordId * option (string * R)))
        (Hlaws : Float64Laws F)
        (Hrun : snd (weakly_supervise F m) = Return out) :
  exists votes,
    snd (weakly_supervise_votes m) = Return votes
    /\ Forall2 (fun row o =>
                  fst o = fst row
                  /\ forall l c, snd o = Some (l, c) ->
                       exists q, margin (snd row) = Return (l, Fin q)
                                 /\ (0 < q)%Q
                                 /\ c = sigmoid F (Q2R q) 1 1
                                 /\ (1 / 4 <= c <= 1)%R
                                 /\ ((q == 1)%Q -> c = (1 / 2)%R)
                                 /\ ((1 <= q)%Q -> (1 / 2 <= c)%R)
                                 /\ ((q <= 1)%Q -> (c <= 1 / 2)%R))
               votes out.
Proof.
  rewrite weakly_supervise_snd in Hrun.
  destruct (snd (weakly_supervise_votes m)) as [votes|e]; [|discriminate].
  cbn [bind] in Hrun. exists votes. split; [reflexivity|].
  apply mapM_Forall2 in Hrun.
  eapply Forall2_impl; [|exact Hrun]. clear Hrun.
  intros row o Ho. cbn beta in Ho.
  destruct (ensemble F (snd row)) as [v|e] eqn:Ev; [|discriminate].
  cbn [bind] in Ho. injection Ho as <-. split; [reflexivity|].
  cbn [snd]. intros l c ->.
  apply ensemble_Some_inv in Ev. destruct Ev as (q & Hm & Hq & ->).
  exists q. split; [assumption|]. split; [assumption|]. split; [reflexivity|].
  assert (H1 : Q2R 1 = 1%R) by (unfold Q2R; simpl; lra).
  assert (HqR : (0 < Q2R q)%R).
  { replace 0%R with (Q2R 0) by (unfold Q2R; simpl; lra). now apply Qlt_Rlt. }
  pose proof (sigmoid_one Hlaws) as Hone.
  split; [split; [apply (sigmoid_floor Hlaws); lra | apply (sigmoid_range Hlaws)]|].
  split; [|split].
  - intros E. apply Qeq_eqR in E. rewrite E, H1. exact Hone.
  - intros Hle. apply Qle_Rle in Hle. rewrite H1 in Hle. rewrite <- Hone.
    apply (sigmoid_monotone Hlaws); lra.
  - intros Hle. apply Qle_Rle in Hle. rewrite H1 in Hle. rewrite <- Hone.
    apply (sigmoid_monotone Hlaws); lra.
Qed.

Lemma m_margin_one_votes :
  snd (weakly_supervise_votes Examples.m_margin_one)
  = Return [("r1"%string, [Some ("a"%string, Fin 1)])].
Proof. vm_compute. reflexivity. Qed.

Lemma m_margin_one_margin :
  margin [Some ("a"%string, Fin 1)] = Return ("a"%string, Fin 1).
Proof. vm_compute. reflexivity. Qed.

Lemma m_margin_one_run (F : Float64) :
  snd (weakly_supervise F Examples.m_margin_one)
  = Return [("r1"%string, Some ("a"%string, sigmoid F (Q2R 1) 1 1))].
Proof.
  rewrite weakly_supervise_snd, m_margin_one_votes. cbn [bind]. unfold apply_ensemble.
  cbn [mapM snd fst]. rewrite (ensemble_emit F _ m_margin_one_margin) by reflexivity.
  reflexivity.
Qed.

(** C1 (counterexample). On [m_margin_one] the record [r1] has margin 1
    and is emitted with confidence exactly [1/2], whatever the rounding
    is: not above [1/2], and not the value [1 / (1 + e^(-1))] of the
    logistic function at the margin. *)
Lemma weakly_supervise_confidence_half :
  exists c : R,
    snd (weakly_supervise_votes Examples.m_margin_one)
    = Return [("r1"%string, [Some ("a"%string, Fin 1)])]
    /\ margin [Some ("a"%string, Fin 1)] = Return ("a"%string, Fin 1)
    /\ (forall F, Float64Laws F ->
          snd (weakly_supervise F Examples.m_margin_one)
          = Return [("r1"%string, Some ("a"%string, c))])
    /\ snd (weakly_supervise exact_arithmetic Examples.m_margin_one)
       = Return [("r1"%string, Some ("a"%string, c))]
    /\ c = (1 / 2)%R
    /\ c <> (1 / (1 + exp (- 1)))%R
    /\ ~ (1 / 2 < c)%R.
Proof.
  assert (E : forall F, Float64Laws F -> sigmoid F (Q2R 1) 1 1 = (1 / 2)%R).
  { intros F HF. replace (Q2R 1) with 1%R by (unfold Q2R; simpl; lra).
    now apply sigmoid_one. }
  exists (1 / 2)%R.
  split; [exact m_margin_one_votes|].
  split; [exact m_margin_one_margin|].
  split; [intros F HF; rewrite m_margin_one_run; now rewrite (E F HF)|].
  split; [rewrite m_margin_one_run; now rewrite (E _ exact_arithmetic_laws)|].
  pose proof logistic_one. repeat split; lra.
Qed.

(** ** weakly_supervise: every voted row is decided *)

Lemma add_vote_not_nil (voters : dict pyfloat) (cell : option Prediction) :
  voters <> [] -> add_vote voters cell <> [].
Proof.
  intros H. destruct cell as [[l w]|]; simpl; [apply dict_set_not_nil | assumption].
Qed.

Lemma fold_add_vote_not_nil (row : list (option Prediction)) : forall voters,
  voters <> [] \/ existsb notnull row = true ->
  fold_left add_vote row voters <> [].
Proof.
  induction row as [|cell row IH]; intros voters H; simpl.
  - destruct H as [H | H]; [assumption | discriminate].
  - apply IH. destruct H as [H | H].
    + left. now apply add_vote_not_nil.
    + destruct cell as [[l w]|]; simpl in *.
      * left. apply dict_set_not_nil.
      * now right.
Qed.

Lemma py_max_In (rest : dict pyfloat) : forall best, In (py_max best rest) (best :: rest).
Proof.
  induction rest as [|kv rest IH]; intros best; simpl; [now left|].
  destruct (IH (if fgt (snd kv) (snd best) then kv else best)) as [H | H].
  - rewrite <- H. destruct (fgt (snd kv) (snd best)); auto.
  - auto.
Qed.

Lemma margin_total (row : list (option Prediction)) :
  existsb notnull row = true -> exists l w, margin row = Return (l, w).
Proof.
  intros H. unfold margin.
  pose proof (fold_add_vote_not_nil row (voters := []) (or_intror H)) as Hne.
  fold (voters_of row) in Hne.
  destruct (voters_of row) as [|first rest] eqn:E; [congruence|].
  destruct (dict_get_keys (fst (py_max first rest)) (first :: rest)) as [v Hv].
  - apply in_map. apply py_max_In.
  - rewrite Hv. eauto.
Qed.

Lemma ensemble_total (F : Float64) (row : list (option Prediction)) :
  existsb notnull row = true -> exists o, ensemble F row = Return o.
Proof.
  intros H. destruct (margin_total row H) as (l & w & Hm).
  unfold ensemble. rewrite Hm. cbn [bind snd fst].
  destruct (fgt w (Fin 0)); [destruct w|]; eauto.
Qed.

Lemma weakly_supervise_votes_voted (m : CNLM)
      (votes : list (RecordId * list (option Prediction))) :
  snd (weakly_supervise_votes m) = Return votes ->
  Forall (fun row => existsb notnull (snd row) = true) votes.
Proof.
  unfold weakly_supervise_votes.
  destruct (quality_metrics m) as [m1 [stats_df|e]]; [|discriminate].
  destruct (length stats_df =? 0)%nat; [discriminate|].
  destruct (stats_lkp_of stats_df) as [stats_lkp|e]; [|discriminate].
  destruct (vote_loop _ _ _) as [vs [df|e]]; [|discriminate].
  cbn [snd bind]. intros [= <-]. unfold voted_rows.
  apply Forall_forall. intros row Hrow. apply filter_In in Hrow. tauto.
Qed.

Lemma apply_ensemble_total (F : Float64) (votes : list (RecordId * list (option Prediction))) :
  Forall (fun row => existsb notnull (snd row) = true) votes ->
  exists out, apply_ensemble F votes = Return out.
Proof.
  unfold apply_ensemble. induction 1 as [|row votes Hrow _ IH]; simpl; [eauto|].
  destruct (ensemble_total F _ Hrow) as [o ->]. cbn [bind].
  destruct IH as [out ->]. cbn [bind]. eauto.
Qed.

(** C2 (as amended). Every row of the vote table holds at least one
    vote, and once the table is built [weakly_supervise] returns a series
    with one entry per row, in the same order and under the same record;
    the entry of a row whose margin is not positive (or is [nan]) is the
    null value [None]: no label, no confidence, the record still being in
    the index. *)
Theorem weakly_supervise_abstains (F : Float64) (m : CNLM)
        (votes : list (RecordId * list (option Prediction)))
        (Hvotes : snd (weakly_supervise_votes m) = Return votes) :
  Forall (fun row => existsb notnull (snd row) = true) votes
  /\ exists out,
    snd (weakly_supervise F m) = Return out
    /\ map fst out = map fst votes
    /\ Forall2 (fun row o =>
                  fst o = fst row
                  /\ (forall l q, margin (snd row) = Return (l, Fin q) ->
                                  (q <= 0)%Q -> snd o = None)
                  /\ (forall l, margin (snd row) = Return (l, NaN) -> snd o = None))
               votes out.
Proof.
  split; [exact (weakly_supervise_votes_voted m Hvotes)|].
  rewrite weakly_supervise_snd, Hvotes. cbn [bind].
  destruct (apply_ensemble_total F (weakly_supervise_votes_voted m Hvotes)) as [out Hout].
  exists out. split; [assumption|].
  unfold apply_ensemble in Hout. apply mapM_Forall2 in Hout.
  assert (H : Forall2 (fun row o =>
                  fst o = fst row
                  /\ (forall l q, margin (snd row) = Return (l, Fin q) ->
                                  (q <= 0)%Q -> snd o = None)
                  /\ (forall l, margin (snd row) = Return (l, NaN) -> snd o = None))
               votes out).
  { eapply Forall2_impl; [|exact Hout]. clear Hout.
    intros row o Ho. cbn beta in Ho.
    destruct (ensemble F (snd row)) as [v|e] eqn:Ev; [|discriminate].
    cbn [bind] in Ho. injection Ho as <-. cbn [fst snd].
    split; [reflexivity|]. split.
    - intros l q Hm Hq.
      rewrite (ensemble_abstain F _ Hm) in Ev; [congruence|].
      destruct (fgt (Fin q) (Fin 0)) eqn:E; [|reflexivity].
      apply fgt_zero in E. exfalso. exact (Qlt_not_le _ _ E Hq).
    - intros l Hm. rewrite (ensemble_abstain F _ Hm) in Ev; [congruence | reflexivity]. }
  split; [|exact H].
  eapply Forall2_map_fst. exact H.
Qed.

(** C2 (counterexample). On [m_tie] each record gets the votes
    [a: 1/2, b: 1/2]; the margin is 0, and both records are in the
    returned series, with the value [None]. *)
Lemma weakly_supervise_tie_present :
  snd (weakly_supervise_votes Examples.m_tie)
  = Return [("r1"%string, [Some ("a"%string, Fin (1 # 2)); Some ("b"%string, Fin (1 # 2))]);
            ("r2"%string, [Some ("a"%string, Fin (1 # 2)); Some ("b"%string, Fin (1 # 2))])]
  /\ (exists q, margin [Some ("a"%string, Fin (1 # 2)); Some ("b"%string, Fin (1 # 2))]
                = Return ("a"%string, Fin q) /\ (q == 0)%Q)
  /\ snd (weakly_supervise exact_arithmetic Examples.m_tie)
     = Return [("r1"%string, None); ("r2"%string, None)]
  /\ In "r1"%string (map fst [("r1"%string, @None (string * R)); ("r2"%string, None)]).
Proof.
  assert (Hv : snd (weakly_supervise_votes Examples.m_tie)
               = Return [("r1"%string, [Some ("a"%string, Fin (1 # 2)); Some ("b"%string, Fin (1 # 2))]);
                         ("r2"%string, [Some ("a"%string, Fin (1 # 2)); Some ("b"%string, Fin (1 # 2))])])
    by (vm_compute; reflexivity).
  assert (Hm : margin [Some ("a"%string, Fin (1 # 2)); Some ("b"%string, Fin (1 # 2))]
               = Return ("a"%string, Fin (0 # 16)))
    by (vm_compute; reflexivity).
  split; [exact Hv|]. split; [exists (0 # 16); split; [exact Hm | reflexivity]|].
  split; [|now left].
  rewrite weakly_supervise_snd, Hv. cbn [bind]. unfold apply_ensemble.
  cbn [mapM snd fst]. rewrite (ensemble_abstain exact_arithmetic _ Hm) by reflexivity. reflexivity.
Qed.

(** ** weakly_supervise: the loop over the noisy vectors *)

Lemma map_fst_combine {A B : Type} (l : list A) (l' : list B) :
  length l' = length l -> map fst (combine l l') = l.
Proof.
  revert l'. induction l as [|a l IH]; intros [|b l']; simpl; try discriminate; auto.
  intros [= H]. now rewrite IH.
Qed.

Lemma ensure_valid_index_nonempty (df : Frame) (value_index : list RecordId) :
  index df <> [] -> ensure_valid_index df value_index = df.
Proof.
  unfold ensure_valid_index. destruct (index df); [congruence | reflexivity].
Qed.

Lemma set_column_index (df df' : Frame) (ident : string) (value : list (RecordId * Prediction)) :
  index df <> [] -> set_column df ident value = Return df' -> index df' = index df.
Proof.
  intros Hne. unfold set_column. rewrite ensure_valid_index_nonempty by assumption.
  destruct (reindex_for_setitem value (index df)); [|discriminate].
  cbn [bind]. now intros [= <-].
Qed.

(** ** What the three methods write *)

Lemma vote_loop_frame (stats_lkp : list QualityRow) : forall vs cnlm_df,
  let vs' := fst (vote_loop stats_lkp vs cnlm_df) in
  map identifier vs' = map identifier vs
  /\ map (fun v => rows (associations v)) vs' = map (fun v => rows (associations v)) vs
  /\ map quality vs' = map quality vs
  /\ map quantity vs' = map quantity vs.
Proof.
  induction vs as [|w vs IH]; intros cnlm_df; [simpl; auto|].
  cbn [vote_loop].
  destruct (0 <? length (rows (associations w)))%nat.
  - destruct (mapM _ _) as [predictions|e]; [|simpl; auto].
    destruct (set_column _ _ _) as [cnlm_df'|e]; [|simpl; auto].
    specialize (IH cnlm_df'). destruct (vote_loop stats_lkp vs cnlm_df') as [rest' r].
    simpl in *. destruct IH as (-> & -> & -> & ->). auto.
  - specialize (IH cnlm_df). destruct (vote_loop stats_lkp vs cnlm_df) as [rest' r].
    simpl in *. destruct IH as (-> & -> & -> & ->). auto.
Qed.

Lemma quantity_loop_frame (df : list SourceRow) (srcs : list string) : forall vs,
  let vs' := fst (quantity_loop df vs srcs) in
  map identifier vs' = map identifier vs
  /\ map associations vs' = map associations vs
  /\ map quality vs' = map quality vs.
Proof.
  induction srcs as [|src rest IH]; intros vs; [simpl; auto|].
  cbn [quantity_loop]. destruct (source_quantity df src) as [q|e]; [|simpl; auto].
  specialize (IH (write_quantity src q vs)). cbv zeta in IH.
  destruct (write_quantity_frame src q vs) as (Hi & Ha & Hq).
  rewrite Hi, Ha, Hq in IH. exact IH.
Qed.

Lemma quality_metrics_frame (m : CNLM) :
  let m' := fst (quality_metrics m) in
  records m' = records m
  /\ vector_reference m' = vector_reference m
  /\ map identifier (vectors_noisy m') = map identifier (vectors_noisy m)
  /\ map associations (vectors_noisy m') = map associations (vectors_noisy m)
  /\ map quantity (vectors_noisy m') = map quantity (vectors_noisy m).
Proof.
  unfold quality_metrics. destruct (vector_reference m) as [reference|] eqn:E;
    cbn [fst]; [|auto 6].
  cbn [set_vectors_noisy records vector_reference vectors_noisy]. rewrite !map_map.
  repeat split; try assumption; apply map_ext; intros v.
  - apply update_quality_identifier.
  - apply update_quality_associations.
  - apply update_quality_quantity.
Qed.

(** C5 (as amended). [quality_metrics] writes nothing but the [quality]
    slots.  [quantity_metrics] leaves the identifiers, the rows (record,
    label, confidence) of every associations table and the [quality]
    slots as they were.  [weakly_supervise] leaves the identifiers, the
    rows of every associations table and the [quantity] slots as they
    were; besides the [quality] slots it writes the column [prediction]
    of the tables. *)
Theorem metrics_frame (F : Float64) (m : CNLM) :
  (let m' := fst (quality_metrics m) in
   records m' = records m
   /\ vector_reference m' = vector_reference m
   /\ map identifier (vectors_noisy m') = map identifier (vectors_noisy m)
   /\ map associations (vectors_noisy m') = map associations (vectors_noisy m)
   /\ map quantity (vectors_noisy m') = map quantity (vectors_noisy m))
  /\ (let m' := fst (quantity_metrics m) in
      records m' = records m
      /\ vector_reference m' = vector_reference m
      /\ map identifier (vectors_noisy m') = map identifier (vectors_noisy m)
      /\ map (fun v => rows (associations v)) (vectors_noisy m')
         = map (fun v => rows (associations v)) (vectors_noisy m)
      /\ map quality (vectors_noisy m') = map quality (vectors_noisy m))
  /\ (let m' := fst (weakly_supervise F m) in
      records m' = records m
      /\ vector_reference m' = vector_reference m
      /\ map identifier (vectors_noisy m') = map identifier (vectors_noisy m)
      /\ map (fun v => rows (associations v)) (vectors_noisy m')
         = map (fun v => rows (associations v)) (vectors_noisy m)
      /\ map quantity (vectors_noisy m') = map quantity (vectors_noisy m)).
Proof.
  split; [apply quality_metrics_frame|]. split.
  - unfold quantity_metrics. destruct (vectors_noisy m) as [|v0 vs0] eqn:Evs.
    + cbn [fst]. rewrite Evs. auto 6.
    + rewrite <- Evs.
      pose proof (quantity_loop_frame (concat_sources (vectors_noisy m))
                    (Pd.sort (Pd.unique String.eqb
                                (map source (concat_sources (vectors_noisy m)))))
                    (vectors_noisy m)) as H.
      cbv zeta in H. destruct H as (Hi & Ha & Hq).
      assert (Hrows : map (fun v => rows (associations v))
                          (fst (quantity_loop (concat_sources (vectors_noisy m))
                                  (vectors_noisy m)
                                  (Pd.sort (Pd.unique String.eqb
                                     (map source (concat_sources (vectors_noisy m)))))))
                      = map (fun v => rows (associations v)) (vectors_noisy m)).
      { rewrite <- (map_map associations rows), Ha, map_map. reflexivity. }
      destruct (quantity_loop _ _ _) as [vs [u|e]]; cbn [fst] in *; simpl; tauto.
  - rewrite weakly_supervise_fst.
    destruct (quality_metrics_frame m) as (Hr & Href & Hi & Ha & Hq).
    cbv zeta in *.
    assert (Hrows : map (fun v => rows (associations v)) (vectors_noisy (fst (quality_metrics m)))
                    = map (fun v => rows (associations v)) (vectors_noisy m)).
    { rewrite <- (map_map associations rows), Ha, map_map. reflexivity. }
    unfold weakly_supervise_votes.
    destruct (quality_metrics m) as [m1 [stats_df|e]]; cbn [fst] in *; [|auto 6].
    destruct (length stats_df =? 0)%nat; cbn [fst]; [auto 6|].
    destruct (stats_lkp_of stats_df) as [stats_lkp|e]; cbn [fst]; [|auto 6].
    pose proof (vote_loop_frame stats_lkp (vectors_noisy m1) (mkFrame (records m1) [])) as H.
    cbv zeta in H.
    destruct (vote_loop stats_lkp _ _) as [vs r]. cbn [fst] in *.
    destruct H as (Hi' & Ha' & _ & Hq'). simpl.
    repeat split; congruence.
Qed.

(** C5 (counterexample). [weakly_supervise] returns on [m_margin_one], and
    the associations table of the noisy vector [s1], which had no column
    [prediction] before the call, has one after it. *)
Lemma weakly_supervise_writes_prediction :
  (exists out, snd (weakly_supervise exact_arithmetic Examples.m_margin_one) = Return out)
  /\ map (fun v => prediction (associations v)) (vectors_noisy Examples.m_margin_one)
     = [None]
  /\ map (fun v => prediction (associations v))
         (vectors_noisy (fst (weakly_supervise exact_arithmetic Examples.m_margin_one)))
     = [Some [("a"%string, Fin 1)]]
  /\ map associations (vectors_noisy (fst (weakly_supervise exact_arithmetic Examples.m_margin_one)))
     <> map associations (vectors_noisy Examples.m_margin_one).
Proof.
  split; [eexists; exact (m_margin_one_run exact_arithmetic)|].
  split; [reflexivity|].
  rewrite weakly_supervise_fst.
  split; [vm_compute; reflexivity|].
  vm_compute. discriminate.
Qed.

(** ** The theorems at work on the example matrices *)

Lemma weakly_supervise_confidence_witness :
  Float64Laws exact_arithmetic
  /\ snd (weakly_supervise exact_arithmetic Examples.m_margin_one)
  = Return [("r1"%string, Some ("a"%string, sigmoid exact_arithmetic (Q2R 1) 1 1))]
  /\ exists votes,
      snd (weakly_supervise_votes Examples.m_margin_one) = Return votes
      /\ Forall2 (fun row o =>
                    fst o = fst row
                    /\ forall l c, snd o = Some (l, c) ->
                         exists q, margin (snd row) = Return (l, Fin q)
                                   /\ (0 < q)%Q
                                   /\ c = sigmoid exact_arithmetic (Q2R q) 1 1
                                   /\ (1 / 4 <= c <= 1)%R
                                   /\ ((q == 1)%Q -> c = (1 / 2)%R)
                                   /\ ((1 <= q)%Q -> (1 / 2 <= c)%R)
                                   /\ ((q <= 1)%Q -> (c <= 1 / 2)%R))
                 votes [("r1"%string, Some ("a"%string, sigmoid exact_arithmetic (Q2R 1) 1 1))].
Proof.
  split; [exact exact_arithmetic_laws|].
  split; [exact (m_margin_one_run exact_arithmetic)|].
  exact (@weakly_supervise_confidence exact_arithmetic Examples.m_margin_one _
           exact_arithmetic_laws (m_margin_one_run exact_arithmetic)).
Defined.

Lemma weakly_supervise_abstains_witness :
  snd (weakly_supervise_votes Examples.m_tie)
  = Return [("r1"%string, [Some ("a"%string, Fin (1 # 2)); Some ("b"%string, Fin (1 # 2))]);
            ("r2"%string, [Some ("a"%string, Fin (1 # 2)); Some ("b"%string, Fin (1 # 2))])]
  /\ exists out,
      snd (weakly_supervise exact_arithmetic Examples.m_tie) = Return out
      /\ map fst out = ["r1"%string; "r2"%string].
Proof.
  assert (Hv : snd (weakly_supervise_votes Examples.m_tie)
               = Return [("r1"%string, [Some ("a"%string, Fin (1 # 2)); Some ("b"%string, Fin (1 # 2))]);
                         ("r2"%string, [Some ("a"%string, Fin (1 # 2)); Some ("b"%string, Fin (1 # 2))])]).
  { vm_compute. reflexivity. }
  split; [exact Hv|].
  destruct (weakly_supervise_abstains exact_arithmetic Examples.m_tie Hv) as (_ & out & Hout & Hfst & _).
  exists out. split; [exact Hout | exact Hfst].
Defined.

Lemma quantity_metrics_bounds_witness :
  exists table,
    quantity_metrics Examples.m_two_sources
    = (fst (quantity_metrics Examples.m_two_sources), Return table)
    /\ forall v, In v (vectors_noisy (fst (quantity_metrics Examples.m_two_sources))) ->
         is_empty v = false ->
         forall l q, In (l, q) (quantity v) ->
           (source_overlaps q <= record_coverage q)%Z
           /\ (source_conflicts q <= record_coverage q)%Z.
Proof.
  eexists. split.
  - vm_compute. reflexivity.
  - eapply (@quantity_metrics_bounds Examples.m_two_sources). vm_compute. reflexivity.
Defined.

Lemma metrics_idempotent_witness :
  (exists t1,
      quality_metrics Examples.m_two_sources
      = (fst (quality_metrics Examples.m_two_sources), Return t1)
      /\ quality_metrics (fst (quality_metrics Examples.m_two_sources))
         = (fst (quality_metrics Examples.m_two_sources), Return t1))
  /\ (exists t1,
         quantity_metrics Examples.m_two_sources
         = (fst (quantity_metrics Examples.m_two_sources), Return t1)
         /\ quantity_metrics (fst (quantity_metrics Examples.m_two_sources))
            = (fst (quantity_metrics Examples.m_two_sources), Return t1)).
Proof.
  destruct metrics_idempotent as [Hquality Hquantity]. split.
  - eexists. split; [vm_compute; reflexivity|].
    apply (Hquality Examples.m_two_sources). vm_compute. reflexivity.
  - eexists. split; [vm_compute; reflexivity|].
    apply (Hquantity Examples.m_two_sources). vm_compute. reflexivity.
Defined.

Lemma quality_metrics_precision_witness :
  exists table,
    quality_metrics Examples.m_two_sources
    = (fst (quality_metrics Examples.m_two_sources), Return table)
    /\ forall row, In row table ->
         ((q_true_positives row + q_false_positives row = 0)%Z -> q_precision row = 0%Q)
         /\ ((q_true_positives row + q_false_positives row <> 0)%Z ->
             q_precision row
             = (inject_Z (q_true_positives row)
                / inject_Z (q_true_positives row + q_false_positives row))%Q).
Proof.
  eexists. split.
  - vm_compute. reflexivity.
  - eapply (@quality_metrics_precision Examples.m_two_sources). vm_compute. reflexivity.
Defined.

Lemma quantity_metrics_null_label_witness :
  snd (quantity_metrics Examples.m_null_label) = Raise KeyError
  /\ exists table, snd (quantity_metrics Examples.m_two_sources) = Return table.
Proof.
  split.
  - apply (proj1 (quantity_metrics_null_label Examples.m_null_label)).
    exists "s1"%string, "s2"%string, "r2"%string,
           (mkAssociation "r2"%string None (Some (Fin 1))).
    split; [discriminate|].
    split; [unfold covers; simpl; tauto|].
    split; [unfold covers; simpl; tauto|].
    split; reflexivity.
  - apply (proj2 (quantity_metrics_null_label Examples.m_two_sources)); [|discriminate].
    intros s s' r a _ _ _ Hfirst.
    unfold first_association in Hfirst. apply find_some in Hfirst.
    destruct Hfirst as [Hin _]. unfold source_rows in Hin.
    apply in_flat_map in Hin. destruct Hin as (v & Hv & Ha).
    apply filter_In in Hv. destruct Hv as [Hv _]. simpl in Hv.
    destruct Hv as [<- | [<- | []]]; simpl in Ha;
      destruct Ha as [<- | [<- | []]]; discriminate.
Defined.

(** * Further properties *)

(** ** The sigmoid *)

(** X1. In a float arithmetic with the laws of [Float64Laws], [sigmoid]
    lies between 0 and 1, both included; it takes the value [1/2] where
    [c * x] is the float [k]; and it does not decrease in [x] for a slope
    [c >= 0]. *)
Theorem sigmoid_shape (F : Float64) (x c k : R) (Hlaws : Float64Laws F) :
  (0 <= sigmoid F x c k <= 1)%R
  /\ ((c * x)%R = k -> rnd F k = k -> sigmoid F x c k = (1 / 2)%R)
  /\ ((0 <= c)%R -> forall y, (x <= y)%R -> (sigmoid F x c k <= sigmoid F y c k)%R).
Proof.
  split; [apply (sigmoid_range Hlaws)|]. split.
  - apply (sigmoid_midpoint Hlaws).
  - intros Hc y Hxy. now apply (sigmoid_monotone Hlaws).
Qed.

(** ** Python dictionaries: reading after writing *)

Lemma dict_get_set {V : Type} (k l : string) (v : V) (d : dict V) :
  dict_get l (dict_set k v d) = if String.eqb l k then Some v else dict_get l d.
Proof.
  induction d as [|[k' v'] d IH]; simpl.
  - destruct (String.eqb l k); reflexivity.
  - destruct (String.eqb k k') eqn:Ek; simpl.
    + apply String.eqb_eq in Ek. subst k'. destruct (String.eqb l k); reflexivity.
    + destruct (String.eqb l k') eqn:El.
      * apply String.eqb_eq in El. subst k'.
        rewrite String.eqb_sym, Ek. reflexivity.
      * exact IH.
Qed.

Lemma dict_keys_set_cases {V : Type} (k : string) (v : V) (d : dict V) :
  dict_keys (dict_set k v d)
  = dict_keys d ++ (if Pd.mem String.eqb k (dict_keys d) then [] else [k]).
Proof.
  unfold Pd.mem. induction d as [|[k' v'] d IH]; simpl; [reflexivity|].
  destruct (String.eqb k k') eqn:E; simpl.
  - now rewrite app_nil_r.
  - now rewrite IH.
Qed.

Lemma dict_get_NoDup {V : Type} (k : string) (v : V) (d : dict V) :
  NoDup (dict_keys d) -> In (k, v) d -> dict_get k d = Some v.
Proof.
  induction d as [|[k' v'] d IH]; simpl; [tauto|].
  intros Hnd [H | H].
  - injection H as -> ->. now rewrite String.eqb_refl.
  - inversion Hnd as [|? ? Hnotin Hnd']; subst.
    destruct (String.eqb k k') eqn:E; [|now apply IH].
    apply String.eqb_eq in E. subst k'. exfalso. apply Hnotin.
    change k with (fst (k, v)). now apply in_map.
Qed.

Lemma dict_ext {V : Type} (f : string -> V) (keys : list string) (d : dict V) :
  NoDup keys -> dict_keys d = keys ->
  (forall l, In l keys -> dict_get l d = Some (f l)) ->
  d = map (fun l => (l, f l)) keys.
Proof.
  revert keys. induction d as [|[k v] d IH]; intros keys Hnd Hk Hget.
  - simpl in Hk. now subst keys.
  - simpl in Hk. subst keys. inversion Hnd as [|? ? Hnotin Hnd']; subst.
    simpl. f_equal.
    + specialize (Hget k (or_introl eq_refl)). simpl in Hget.
      rewrite String.eqb_refl in Hget. congruence.
    + apply IH; [assumption | reflexivity|].
      intros l Hl. specialize (Hget l (or_intror Hl)). simpl in Hget.
      destruct (String.eqb l k) eqn:E; [|assumption].
      apply String.eqb_eq in E. subst l. contradiction.
Qed.

(** ** ensemble: the tally of a row *)

Lemma unique_snoc (l : list string) (x : string) :
  Pd.unique String.eqb (l ++ [x])
  = Pd.unique String.eqb l ++ (if Pd.mem String.eqb x l then [] else [x]).
Proof.
  unfold Pd.mem. induction l as [|a l IH]; simpl; [reflexivity|].
  rewrite IH, filter_app. f_equal. f_equal.
  destruct (existsb (String.eqb x) l); simpl.
  - now rewrite orb_true_r.
  - rewrite orb_false_r, (String.eqb_sym x a).
    now destruct (String.eqb a x).
Qed.

Lemma unique_idem (l : list string) :
  NoDup l -> Pd.unique String.eqb l = l.
Proof.
  induction 1 as [|a l Ha Hnd IH]; simpl; [reflexivity|].
  rewrite IH. f_equal. apply (proj2 (forallb_filter_id _ _)).
  apply forallb_forall. intros y Hy.
  destruct (String.eqb a y) eqn:E; [|reflexivity].
  apply String.eqb_eq in E. subst y. contradiction.
Qed.

Lemma mem_unique (x : string) (l : list string) :
  Pd.mem String.eqb x (Pd.unique String.eqb l) = Pd.mem String.eqb x l.
Proof.
  destruct (Pd.mem String.eqb x l) eqn:E.
  - apply (mem_In String.eqb string_eqb_spec).
    apply (In_unique String.eqb string_eqb_spec).
    now apply (mem_In String.eqb string_eqb_spec).
  - destruct (Pd.mem String.eqb x (Pd.unique String.eqb l)) eqn:E'; [|reflexivity].
    apply (mem_In String.eqb string_eqb_spec) in E'.
    apply (proj1 (In_unique String.eqb string_eqb_spec _ _)) in E'.
    apply (mem_In String.eqb string_eqb_spec) in E'. congruence.
Qed.

Lemma unique_app_unique (l l' : list string) :
  Pd.unique String.eqb (Pd.unique String.eqb l ++ l') = Pd.unique String.eqb (l ++ l').
Proof.
  revert l. induction l' as [|x l' IH] using rev_ind; intros l.
  - rewrite !app_nil_r. apply unique_idem. apply NoDup_unique. exact string_eqb_spec.
  - rewrite !app_assoc, !unique_snoc, IH. f_equal.
    unfold Pd.mem. rewrite !existsb_app. fold (Pd.mem String.eqb x (Pd.unique String.eqb l)).
    fold (Pd.mem String.eqb x l). now rewrite mem_unique.
Qed.

Lemma voters_keys_acc (row : list (option Prediction)) : forall voters : dict pyfloat,
  NoDup (dict_keys voters) ->
  dict_keys (fold_left add_vote row voters)
  = Pd.unique String.eqb (dict_keys voters ++ row_labels row).
Proof.
  unfold row_labels.
  induction row as [|[[k w]|] row IH]; intros voters Hnd; simpl.
  - rewrite app_nil_r. symmetry. now apply unique_idem.
  - rewrite IH.
    + rewrite dict_keys_set_cases.
      change (dict_keys voters ++ k :: map fst (Pd.dropna row))
        with (dict_keys voters ++ [k] ++ map fst (Pd.dropna row)).
      rewrite (app_assoc (dict_keys voters) [k]).
      rewrite <- (unique_app_unique (dict_keys voters ++ [k])).
      rewrite unique_snoc, (unique_idem Hnd). reflexivity.
    + rewrite dict_keys_set_cases.
      destruct (Pd.mem String.eqb k (dict_keys voters)) eqn:E.
      * now rewrite app_nil_r.
      * apply NoDup_app; [assumption | repeat constructor; intros [] |].
        intros a Ha [<- | []].
        apply (mem_In String.eqb string_eqb_spec) in Ha. congruence.
  - now apply IH.
Qed.

Lemma voters_get_acc (l : string) (row : list (option Prediction)) :
  forall voters : dict pyfloat,
    dict_get l (fold_left add_vote row voters)
    = match votes_for l row with
      | [] => dict_get l voters
      | ws => Some (fold_left fadd ws
                      (match dict_get l voters with Some v => v | None => Fin 0 end))
      end.
Proof.
  unfold votes_for.
  induction row as [|[[k w]|] row IH]; intros voters; simpl; [reflexivity | |apply IH].
  rewrite IH, dict_get_set, (String.eqb_sym l k).
  destruct (String.eqb k l) eqn:E; [|reflexivity].
  apply String.eqb_eq in E. subst k. simpl.
  now destruct (map snd _).
Qed.

Lemma voters_keys (row : list (option Prediction)) :
  dict_keys (voters_of row) = Pd.unique String.eqb (map fst (Pd.dropna row)).
Proof. unfold voters_of. rewrite voters_keys_acc by constructor. reflexivity. Qed.

Lemma voters_get (l : string) (row : list (option Prediction)) :
  dict_get l (voters_of row)
  = match votes_for l row with
    | [] => None
    | ws => Some (fold_left fadd ws (Fin 0))
    end.
Proof. unfold voters_of. now rewrite voters_get_acc. Qed.

(** X2. [ensemble] tallies a row label by label: the labels of [voters]
    are the distinct labels of the row's cells in column order, and each
    holds the sum, from [0.0] on and in column order, of the weighted votes
    cast for it. *)
Theorem voters_tally (row : list (option Prediction)) :
  dict_keys (voters_of row) = Pd.unique String.eqb (map fst (Pd.dropna row))
  /\ forall l, dict_get l (voters_of row)
               = match votes_for l row with
                 | [] => None
                 | ws => Some (fold_left fadd ws (Fin 0))
                 end.
Proof.
  split.
  - unfold voters_of. rewrite voters_keys_acc by constructor. reflexivity.
  - intros l. unfold voters_of. now rewrite voters_get_acc.
Qed.

(** ** ensemble: the winner of a row *)

Lemma fadd_finite (a b : pyfloat) :
  finite a = true -> finite b = true -> finite (fadd a b) = true.
Proof. destruct a, b; simpl; congruence. Qed.

Lemma fold_fadd_finite (ws : list pyfloat) : forall init,
  finite init = true -> Forall (fun w => finite w = true) ws ->
  exists total, fold_left fadd ws init = Fin total.
Proof.
  induction ws as [|w ws IH]; intros init Hi Hws; simpl.
  - destruct init; [eauto | discriminate].
  - inversion Hws; subst. apply IH; [now apply fadd_finite | assumption].
Qed.

Lemma fold_fadd_NaN (ws : list pyfloat) : fold_left fadd ws NaN = NaN.
Proof. induction ws as [|w ws IH]; simpl; [reflexivity | exact IH]. Qed.

Lemma fold_fadd_In_NaN (ws : list pyfloat) : forall init,
  In NaN ws -> fold_left fadd ws init = NaN.
Proof.
  induction ws as [|w ws IH]; intros init Hin; simpl; [destruct Hin|].
  destruct Hin as [-> | Hin]; [|now apply IH].
  replace (fadd init NaN) with NaN by now destruct init.
  apply fold_fadd_NaN.
Qed.

Lemma voters_finite_acc (row : list (option Prediction)) : forall voters : dict pyfloat,
  forallb (fun p => finite (snd p)) (Pd.dropna row) = true ->
  Forall (fun kv => finite (snd kv) = true) voters ->
  Forall (fun kv => finite (snd kv) = true) (fold_left add_vote row voters).
Proof.
  induction row as [|[[k w]|] row IH]; intros voters Hrow Hv; simpl in *; auto.
  apply andb_true_iff in Hrow. destruct Hrow as [Hw Hrow].
  apply IH; [assumption|].
  apply Forall_forall. intros kv Hin. apply In_dict_set in Hin.
  destruct Hin as [-> | Hin]; [|exact (proj1 (Forall_forall _ _) Hv kv Hin)].
  simpl. apply fadd_finite; [|assumption].
  destruct (dict_get k voters) as [v|] eqn:E; [|reflexivity].
  apply dict_get_In in E. exact (proj1 (Forall_forall _ _) Hv _ E).
Qed.

Lemma fgt_fval (a b : pyfloat) :
  finite a = true -> finite b = true ->
  (fgt a b = true -> (fval b < fval a)%Q) /\ (fgt a b = false -> (fval a <= fval b)%Q).
Proof.
  destruct a as [x|], b as [y|]; simpl; try discriminate. intros _ _. split.
  - intros H. apply negb_true_iff in H. apply Qnot_le_lt. intros Hle.
    apply Qle_bool_iff in Hle. congruence.
  - intros H. apply negb_false_iff in H. now apply Qle_bool_iff.
Qed.

(** [max] with a key, over finite values: everything before the result is
    strictly smaller, everything after it is no larger. *)
Lemma py_max_spec (rest : dict pyfloat) : forall (before : dict pyfloat) best after,
  Forall (fun kv => finite (snd kv) = true) (before ++ best :: after ++ rest) ->
  Forall (fun kv => (fval (snd kv) < fval (snd best))%Q) before ->
  Forall (fun kv => (fval (snd kv) <= fval (snd best))%Q) after ->
  exists pre post,
    before ++ best :: after ++ rest = pre ++ py_max best rest :: post
    /\ Forall (fun kv => (fval (snd kv) < fval (snd (py_max best rest)))%Q) pre
    /\ Forall (fun kv => (fval (snd kv) <= fval (snd (py_max best rest)))%Q) post.
Proof.
  induction rest as [|kv rest IH]; intros before best after Hfin Hb Ha.
  - exists before, after. rewrite app_nil_r. simpl. auto.
  - simpl py_max.
    assert (Hbest : finite (snd best) = true).
    { apply (proj1 (Forall_forall _ _) Hfin). apply in_or_app. right. now left. }
    assert (Hkv : finite (snd kv) = true).
    { apply (proj1 (Forall_forall _ _) Hfin). apply in_or_app. right. right.
      apply in_or_app. right. now left. }
    destruct (fgt_fval _ _ Hkv Hbest) as [Hgt Hle].
    destruct (fgt (snd kv) (snd best)) eqn:E.
    + specialize (Hgt eq_refl).
      destruct (IH (before ++ best :: after) kv (@nil (string * pyfloat))) as (pre & post & Heq & Hpre & Hpost).
      * rewrite <- app_assoc. exact Hfin.
      * apply Forall_app. split; [|constructor].
        -- eapply Forall_impl; [|exact Hb]. intros x Hx. simpl in Hx.
           eapply Qlt_trans; eauto.
        -- assumption.
        -- eapply Forall_impl; [|exact Ha]. intros x Hx. simpl in Hx.
           eapply Qle_lt_trans; eauto.
      * constructor.
      * exists pre, post. rewrite <- Heq. rewrite <- app_assoc. auto.
    + specialize (Hle eq_refl).
      destruct (IH before best (after ++ [kv])) as (pre & post & Heq & Hpre & Hpost).
      * rewrite <- app_assoc. exact Hfin.
      * assumption.
      * apply Forall_app. split; [assumption | repeat constructor; assumption].
      * exists pre, post. rewrite <- Heq. rewrite <- app_assoc. auto.
Qed.

Lemma voters_keys_NoDup (row : list (option Prediction)) :
  NoDup (dict_keys (voters_of row)).
Proof.
  unfold voters_of. rewrite voters_keys_acc by constructor.
  apply NoDup_unique. exact string_eqb_spec.
Qed.

(** X3. In a row whose votes are all finite, the label [ensemble] picks is
    the first one, in the order of the tally, whose total is the largest:
    every label before it has a strictly smaller total, every label after
    it a total that is no larger. *)
Theorem margin_winner (row : list (option Prediction)) (l : string) (m : pyfloat)
        (Hfinite : forallb (fun p => finite (snd p)) (Pd.dropna row) = true)
        (Hmargin : margin row = Return (l, m)) :
  exists pre v post,
    voters_of row = pre ++ (l, Fin v) :: post
    /\ Forall (fun kv => (fval (snd kv) < v)%Q) pre
    /\ Forall (fun kv => (fval (snd kv) <= v)%Q) post.
Proof.
  pose proof (@voters_finite_acc row [] Hfinite (Forall_nil _)) as Hfin.
  fold (voters_of row) in Hfin.
  pose proof (voters_keys_NoDup row) as Hnd.
  unfold margin in Hmargin.
  destruct (voters_of row) as [|first rest] eqn:Ev; [discriminate|].
  destruct (@py_max_spec rest [] first []) as (pre & post & Heq & Hpre & Hpost);
    [exact Hfin | constructor | constructor |].
  simpl app in Heq.
  destruct (py_max first rest) as [k w] eqn:Emax. simpl fst in Hmargin. simpl snd in *.
  assert (Hin : In (k, w) (first :: rest)).
  { rewrite Heq. apply in_or_app. right. now left. }
  rewrite (dict_get_NoDup _ _ _ Hnd Hin) in Hmargin.
  injection Hmargin as -> _.
  assert (Hw : finite w = true) by exact (proj1 (Forall_forall _ _) Hfin _ Hin).
  destruct w as [v|]; [|discriminate]. simpl in Hpre, Hpost.
  exists pre, v, post. repeat split; assumption.
Qed.

Lemma In_dropna_notnull (row : list (option Prediction)) :
  existsb notnull row = true -> exists p, In p (Pd.dropna row).
Proof.
  induction row as [|[p|] row IH]; simpl; [discriminate | eauto using in_eq | assumption].
Qed.

Lemma unique_constant (l : string) (ls : list string) :
  ls <> [] -> (forall x, In x ls -> x = l) -> Pd.unique String.eqb ls = [l].
Proof.
  induction ls as [|x ls IH]; intros Hne Hall; [congruence|].
  simpl. rewrite (Hall x (or_introl eq_refl)). f_equal.
  apply filter_none. intros y Hy.
  apply (proj1 (In_unique String.eqb string_eqb_spec _ _)) in Hy.
  rewrite (Hall y (or_intror Hy)), String.eqb_refl. reflexivity.
Qed.

(** X4. When every source that votes on a record votes for the same label
    and the votes sum to a finite total [t], the margin of the row is [t]:
    the label is emitted when [t > 0], and the record gets [None] when
    [t <= 0]. *)
Theorem ensemble_unanimous (F : Float64) (row : list (option Prediction)) (l : string) (t : Q)
        (Hvoted : existsb notnull row = true)
        (Hlabel : forall p, In p (Pd.dropna row) -> fst p = l)
        (Htotal : total_for l row = Fin t) :
  exists q,
    (q == t)%Q
    /\ margin row = Return (l, Fin q)
    /\ ((0 < t)%Q -> ensemble F row = Return (Some (l, sigmoid F (Q2R q) 1 1)))
    /\ ((t <= 0)%Q -> ensemble F row = Return None).
Proof.
  pose proof (voters_keys row) as Hkeys. pose proof (fun l => voters_get l row) as Hget.
  assert (Hk : dict_keys (voters_of row) = [l]).
  { rewrite Hkeys. apply unique_constant.
    - destruct (In_dropna_notnull row Hvoted) as [p Hp].
      intros E. apply (in_map fst) in Hp. rewrite E in Hp. destruct Hp.
    - intros x Hx. apply in_map_iff in Hx. destruct Hx as (p & <- & Hp). auto. }
  destruct (voters_of row) as [|[k w] [|kv rest]] eqn:Ev; try discriminate.
  simpl in Hk. injection Hk as ->.
  specialize (Hget l). cbn [dict_get] in Hget. rewrite String.eqb_refl in Hget.
  unfold total_for in Htotal.
  destruct (votes_for l row) as [|w0 ws] eqn:Evotes; [discriminate|].
  rewrite Htotal in Hget. injection Hget as ->.
  assert (Hm : margin row = Return (l, Fin (t - (0 + t - t)))).
  { unfold margin. rewrite Ev. simpl. now rewrite String.eqb_refl. }
  assert (Hq : (t - (0 + t - t) == t)%Q) by ring.
  exists (t - (0 + t - t))%Q. split; [exact Hq|]. split; [exact Hm|]. split.
  - intros Ht. apply (ensemble_emit F _ Hm). now rewrite Hq.
  - intros Ht. apply (ensemble_abstain F _ Hm).
    destruct (fgt (Fin (t - (0 + t - t))) (Fin 0)) eqn:E; [|reflexivity].
    apply fgt_zero in E. rewrite Hq in E. exfalso. exact (Qlt_not_le _ _ E Ht).
Qed.

(** X5. A single [nan] vote in a row leaves the record without a label,
    whatever the other votes are: the sum of the votes is [nan], and so is
    the margin. *)
Theorem ensemble_nan_vote (F : Float64) (row : list (option Prediction)) (k : string)
        (Hnan : In (Some (k, NaN)) row) :
  ensemble F row = Return None.
Proof.
  assert (Hdrop : In (k, NaN) (Pd.dropna row)) by now apply In_dropna.
  assert (Hvotes : In NaN (votes_for k row)).
  { unfold votes_for. change NaN with (snd (k, NaN)). apply in_map.
    apply filter_In. split; [assumption | apply String.eqb_refl]. }
  pose proof (voters_get k row) as Hget.
  destruct (votes_for k row) as [|w ws] eqn:Ev; [destruct Hvotes|].
  rewrite (fold_fadd_In_NaN _ _ Hvotes) in Hget.
  apply dict_get_In in Hget.
  assert (Hsum : fold_left fadd (map snd (voters_of row)) (Fin 0) = NaN).
  { apply fold_fadd_In_NaN. change NaN with (snd (k, NaN)). now apply in_map. }
  unfold ensemble, margin.
  destruct (voters_of row) as [|first rest] eqn:Evoters; [destruct Hget|].
  destruct (dict_get_keys (fst (py_max first rest)) (first :: rest)) as [v Hv].
  { apply in_map. apply py_max_In. }
  rewrite Hv, Hsum. cbn [bind snd fst].
  replace (fsub v (fsub NaN v)) with NaN by now destruct v.
  reflexivity.
Qed.

(** ** weakly_supervise: the weighted vote of one association *)

Lemma key_eqb_spec (a b : string * string) : key_eqb a b = true <-> a = b.
Proof.
  destruct a as [a1 a2], b as [b1 b2]. unfold key_eqb. simpl.
  rewrite andb_true_iff, !String.eqb_eq. split; [intros [-> ->]; reflexivity|].
  intros [= -> ->]. auto.
Qed.

Lemma NoDup_map_eq {A B : Type} (f : A -> B) (l : list A) (a b : A) :
  NoDup (map f l) -> In a l -> In b l -> f a = f b -> a = b.
Proof.
  induction l as [|x l IH]; simpl; [tauto|].
  intros Hnd Ha Hb E. inversion Hnd as [|? ? Hx Hnd']; subst.
  destruct Ha as [-> | Ha], Hb as [-> | Hb]; [reflexivity | | | now apply IH].
  - exfalso. apply Hx. rewrite E. now apply in_map.
  - exfalso. apply Hx. rewrite <- E. now apply in_map.
Qed.

(** The entry of [stats_lkp] under a key it holds. *)
Lemma lkp_precision_found (stats_lkp : list QualityRow) (ident l : string)
      (row : QualityRow) :
  NoDup (map stats_key stats_lkp) ->
  In row stats_lkp -> stats_key row = (ident, l) ->
  lkp_precision stats_lkp ident (Some l) = Return (l, q_precision row).
Proof.
  intros Hnd Hrow Hkey. unfold lkp_precision.
  destruct (find _ stats_lkp) as [row'|] eqn:E.
  - apply find_some in E. destruct E as [Hrow' E]. apply key_eqb_spec in E.
    rewrite (@NoDup_map_eq _ _ stats_key stats_lkp row' row Hnd Hrow' Hrow); [reflexivity|].
    congruence.
  - pose proof (find_none _ _ E row Hrow) as H. cbn beta in H.
    rewrite Hkey in H. rewrite (proj2 (key_eqb_spec _ _) eq_refl) in H. discriminate.
Qed.

Lemma lkp_precision_missing (stats_lkp : list QualityRow) (ident l : string) :
  (forall row, In row stats_lkp -> stats_key row <> (ident, l)) ->
  lkp_precision stats_lkp ident (Some l) = Raise KeyError.
Proof.
  intros Hnone. unfold lkp_precision.
  destruct (find _ stats_lkp) as [row|] eqn:E; [|reflexivity].
  apply find_some in E. destruct E as [Hrow E]. apply key_eqb_spec in E.
  now destruct (Hnone row Hrow).
Qed.

(** A [nan] vote makes the margin of its row [nan]. *)
Lemma margin_nan (row : list (option Prediction)) (k : string) :
  In (Some (k, NaN)) row -> exists l, margin row = Return (l, NaN).
Proof.
  intros Hnan.
  assert (Hdrop : In (k, NaN) (Pd.dropna row)) by now apply In_dropna.
  assert (Hvotes : In NaN (votes_for k row)).
  { unfold votes_for. change NaN with (snd (k, NaN)). apply in_map.
    apply filter_In. split; [assumption | apply String.eqb_refl]. }
  pose proof (voters_get k row) as Hget.
  destruct (votes_for k row) as [|w ws] eqn:Ev; [destruct Hvotes|].
  rewrite (fold_fadd_In_NaN _ _ Hvotes) in Hget.
  apply dict_get_In in Hget.
  assert (Hsum : fold_left fadd (map snd (voters_of row)) (Fin 0) = NaN).
  { apply fold_fadd_In_NaN. change NaN with (snd (k, NaN)). now apply in_map. }
  unfold margin.
  destruct (voters_of row) as [|first rest] eqn:Evoters; [destruct Hget|].
  destruct (dict_get_keys (fst (py_max first rest)) (first :: rest)) as [v Hv].
  { apply in_map. apply py_max_In. }
  rewrite Hv, Hsum. exists (fst (py_max first rest)).
  replace (fsub v (fsub NaN v)) with NaN by now destruct v.
  reflexivity.
Qed.

(** C3 (as amended). A null confidence is not read as weight 1.  The
    precision lookup raises [KeyError] for a null label and for a label
    the lookup has no entry for, whatever the confidence.  Where the lookup
    has the entry, the vote is the entry's precision times the confidence
    for a numeric confidence only: with the float [nan] the vote is [nan],
    whatever the precision, and the row that holds it gets no label; with
    [None] the multiplication raises [TypeError]. *)
Theorem predict_null_confidence (stats_lkp : list QualityRow) (ident : string)
        (x : Association) :
  (label x = None -> predict stats_lkp ident x = Raise KeyError)
  /\ (forall l, label x = Some l ->
        (forall row, In row stats_lkp -> stats_key row <> (ident, l)) ->
        predict stats_lkp ident x = Raise KeyError)
  /\ (forall l row, label x = Some l ->
        NoDup (map stats_key stats_lkp) ->
        In row stats_lkp -> stats_key row = (ident, l) ->
        match confidence x with
        | None => predict stats_lkp ident x = Raise TypeError
        | Some NaN => predict stats_lkp ident x = Return (l, NaN)
        | Some (Fin c) =>
            predict stats_lkp ident x = Return (l, Fin (q_precision row * c))
        end)
  /\ (forall F p cells,
        confidence x = Some NaN ->
        predict stats_lkp ident x = Return p ->
        In (Some p) cells ->
        ensemble F cells = Return None).
Proof.
  split; [|split; [|split]].
  - intros Hl. unfold predict. rewrite Hl. reflexivity.
  - intros l Hl Hnone. unfold predict.
    rewrite Hl, (lkp_precision_missing _ Hnone). reflexivity.
  - intros l row Hl Hnd Hrow Hkey. unfold predict.
    rewrite Hl, (lkp_precision_found _ Hnd Hrow Hkey). cbn [bind fst snd].
    destruct (confidence x) as [[c|]|]; reflexivity.
  - intros F p cells Hc Hp Hin. unfold predict in Hp.
    destruct (lkp_precision stats_lkp ident (label x)) as [[l q]|e]; [|discriminate].
    cbn [bind fst snd] in Hp. rewrite Hc in Hp. injection Hp as <-.
    destruct (margin_nan _ _ Hin) as [l' Hm].
    now apply (ensemble_abstain F _ Hm).
Qed.

(** C3 (counterexample). On [m_nan] the source [s1] has precision 1 for the
    label [a]; its association with a [nan] confidence votes [nan], not
    1, and the record gets no label.  On [m_none], where the confidence is
    [None], [weakly_supervise] raises [TypeError]. *)
Lemma null_confidence_is_not_weight_one :
  snd (quality_metrics Examples.m_nan) = Return [mkQualityRow "s1"%string "a"%string 1 0 1]
  /\ predict [mkQualityRow "s1"%string "a"%string 1 0 1] "s1"%string
             (mkAssociation "r1"%string (Some "a"%string) (Some NaN))
     = Return ("a"%string, NaN)
  /\ snd (weakly_supervise_votes Examples.m_nan)
     = Return [("r1"%string, [Some ("a"%string, NaN)])]
  /\ snd (weakly_supervise exact_arithmetic Examples.m_nan) = Return [("r1"%string, None)]
  /\ predict [mkQualityRow "s1"%string "a"%string 1 0 1] "s1"%string
             (mkAssociation "r1"%string (Some "a"%string) None)
     = Raise TypeError
  /\ snd (weakly_supervise exact_arithmetic Examples.m_none) = Raise TypeError.
Proof.
  assert (Hv : snd (weakly_supervise_votes Examples.m_nan)
               = Return [("r1"%string, [Some ("a"%string, NaN)])])
    by (vm_compute; reflexivity).
  assert (Hm : margin [Some ("a"%string, NaN)] = Return ("a"%string, NaN))
    by (vm_compute; reflexivity).
  assert (Hn : snd (weakly_supervise_votes Examples.m_none) = Raise TypeError)
    by (vm_compute; reflexivity).
  split; [vm_compute; reflexivity|].
  split; [vm_compute; reflexivity|].
  split; [exact Hv|].
  split.
  - rewrite weakly_supervise_snd, Hv. cbn [bind]. unfold apply_ensemble.
    cbn [mapM snd fst]. rewrite (ensemble_abstain exact_arithmetic _ Hm) by reflexivity. reflexivity.
  - split; [vm_compute; reflexivity|].
    rewrite weakly_supervise_snd, Hn. reflexivity.
Qed.

(** ** weakly_supervise: the exceptions it raises *)

Lemma mapM_Raise {A B : Type} (f : A -> result B) (xs : list A) (e : exn) :
  mapM f xs = Raise e -> exists x, In x xs /\ f x = Raise e.
Proof.
  induction xs as [|x xs IH]; simpl; [discriminate|].
  destruct (f x) as [y|e'] eqn:Ex; cbn [bind].
  - destruct (mapM f xs) as [ys|e']; cbn [bind]; [discriminate|].
    intros [= <-]. destruct (IH eq_refl) as (x' & Hin & Hx'). eauto.
  - intros [= <-]. eauto.
Qed.

Lemma mapM_Raise_In {A B : Type} (f : A -> result B) (xs : list A) (x : A) :
  In x xs -> (exists e, f x = Raise e) -> exists e, mapM f xs = Raise e.
Proof.
  intros Hin [e He]. induction xs as [|x0 xs IH]; [destruct Hin|]. simpl.
  destruct (f x0) as [y|e0] eqn:E0; cbn [bind]; [|eauto].
  destruct Hin as [-> | Hin]; [congruence|].
  destruct (IH Hin) as [e' ->]. cbn [bind]. eauto.
Qed.

Lemma predict_error (stats_lkp : list QualityRow) (ident : string) (x : Association) (e : exn) :
  predict stats_lkp ident x = Raise e -> e = KeyError \/ e = TypeError.
Proof.
  unfold predict, lkp_precision.
  destruct (label x) as [l|]; [|intros [= <-]; now left].
  destruct (find _ stats_lkp); cbn [bind]; [|intros [= <-]; now left].
  destruct (confidence x); [discriminate | intros [= <-]; now right].
Qed.

Lemma set_column_error (df : Frame) (ident : string) (value : list (RecordId * Prediction))
      (e : exn) :
  set_column df ident value = Raise e -> e = ValueError.
Proof.
  unfold set_column, reindex_for_setitem.
  destruct (_ || _); cbn [bind]; [discriminate|].
  destruct (has_duplicates _ _); cbn [bind]; [|discriminate].
  now intros [= <-].
Qed.

Lemma vote_loop_error (stats_lkp : list QualityRow) : forall vs cnlm_df e,
  snd (vote_loop stats_lkp vs cnlm_df) = Raise e ->
  e = KeyError \/ e = TypeError \/ e = ValueError.
Proof.
  induction vs as [|w vs IH]; intros cnlm_df e; cbn [vote_loop]; [discriminate|].
  destruct (0 <? length (rows (associations w)))%nat.
  - destruct (mapM _ _) as [predictions|e'] eqn:Epred.
    + destruct (set_column _ _ _) as [cnlm_df'|e'] eqn:Eset.
      * specialize (IH cnlm_df' e).
        destruct (vote_loop stats_lkp vs cnlm_df') as [rest' r]. exact IH.
      * cbn [snd]. intros [= <-]. apply set_column_error in Eset. auto.
    + cbn [snd]. intros [= <-]. apply mapM_Raise in Epred.
      destruct Epred as (x & _ & Hx). apply predict_error in Hx. tauto.
  - specialize (IH cnlm_df e).
    destruct (vote_loop stats_lkp vs cnlm_df) as [rest' r]. exact IH.
Qed.

Lemma apply_ensemble_error (F : Float64) (votes : list (RecordId * list (option Prediction))) (e : exn) :
  apply_ensemble F votes = Raise e -> e = KeyError \/ e = ValueError.
Proof.
  unfold apply_ensemble. intros H. apply mapM_Raise in H.
  destruct H as (row & _ & Hrow).
  unfold ensemble, margin in Hrow.
  destruct (voters_of (snd row)) as [|first rest]; cbn [bind] in Hrow.
  - injection Hrow as <-. now right.
  - destruct (dict_get _ _); cbn [bind snd fst] in Hrow.
    + destruct (fgt _ _); [destruct (fsub _ _)|]; discriminate.
    + injection Hrow as <-. now left.
Qed.

(** X6. The exceptions of [weakly_supervise].  It raises the exception of
    the missing reference exactly when there is no reference vector, and
    then leaves the matrix as it was; it raises the exception of the empty
    statistics exactly when [quality_metrics] returns a table without
    rows, and then leaves the matrix as [quality_metrics] left it; any
    other exception is a [KeyError], a [TypeError] or a [ValueError]. *)
Theorem weakly_supervise_exceptions (F : Float64) (m : CNLM) :
  (vector_reference m = None -> weakly_supervise F m = (m, Raise MissingReferenceError))
  /\ (snd (weakly_supervise F m) = Raise MissingReferenceError <-> vector_reference m = None)
  /\ (snd (weakly_supervise F m) = Raise EmptyStatisticsError
      <-> snd (quality_metrics m) = Return [])
  /\ (snd (quality_metrics m) = Return [] ->
      fst (weakly_supervise F m) = fst (quality_metrics m))
  /\ (forall e, snd (weakly_supervise F m) = Raise e ->
        e = MissingReferenceError \/ e = EmptyStatisticsError
        \/ e = KeyError \/ e = TypeError \/ e = ValueError).
Proof.
  assert (Hlow : forall e, e = KeyError \/ e = TypeError \/ e = ValueError ->
                   e <> MissingReferenceError /\ e <> EmptyStatisticsError).
  { intros e [-> | [-> | ->]]; split; discriminate. }
  assert (Hlate : forall m1 stats_lkp e,
             (let (vs, rf) := vote_loop stats_lkp (vectors_noisy m1) (mkFrame (records m1) []) in
              (votes <- (df <- rf ;; Return (voted_rows df)) ;; apply_ensemble F votes)%py)
             = Raise e ->
             e = KeyError \/ e = TypeError \/ e = ValueError).
  { intros m1 stats_lkp e.
    pose proof (@vote_loop_error stats_lkp (vectors_noisy m1) (mkFrame (records m1) []) e) as H.
    destruct (vote_loop _ _ _) as [vs [df|e']]; cbn [bind snd] in *.
    - intros H'. apply apply_ensemble_error in H'. tauto.
    - intros [= <-]. auto. }
  rewrite weakly_supervise_fst, weakly_supervise_snd.
  unfold weakly_supervise, weakly_supervise_votes, quality_metrics.
  destruct (vector_reference m) as [reference|] eqn:Eref.
  - set (m1 := set_vectors_noisy m (map (update_quality reference) (vectors_noisy m))).
    destruct (quality_statistics (vectors_noisy m1)) as [|row table] eqn:Estats;
      unfold m1 in Estats; cbn [vectors_noisy set_vectors_noisy] in Estats; rewrite Estats.
    + cbn. repeat split; try discriminate; auto. intros e [= <-]. tauto.
    + cbn [length Nat.eqb fst snd].
      destruct (stats_lkp_of (row :: table)) as [stats_lkp|e0] eqn:Elkp.
      * fold m1.
        pose proof (Hlate m1 stats_lkp) as H.
        destruct (vote_loop stats_lkp (vectors_noisy m1) (mkFrame (records m1) []))
          as [vs rf]. cbn [fst snd].
        split; [discriminate|]. split; [split; [|discriminate]|].
        { intros H'. destruct (Hlow _ (H _ H')) as [Hne _]. congruence. }
        split; [split; [|discriminate]|].
        { intros H'. destruct (Hlow _ (H _ H')) as [_ Hne]. congruence. }
        split; [discriminate|]. intros e He. specialize (H e He). tauto.
      * unfold stats_lkp_of in Elkp. destruct (has_duplicates _ _); [|discriminate].
        injection Elkp as <-. cbn [fst snd bind].
        repeat split; try discriminate. intros e [= <-]. tauto.
  - cbn. repeat split; auto; try discriminate. intros e [= <-]. auto.
Qed.

Lemma vote_loop_bad_row (stats_lkp : list QualityRow) (v : SourceVector) (a : Association) :
  In a (rows (associations v)) ->
  (exists e, predict stats_lkp (identifier v) a = Raise e) ->
  forall vs cnlm_df, In v vs -> exists e, snd (vote_loop stats_lkp vs cnlm_df) = Raise e.
Proof.
  intros Ha Hbad. induction vs as [|w vs IH]; intros cnlm_df Hin; [destruct Hin|].
  cbn [vote_loop].
  destruct (0 <? length (rows (associations w)))%nat eqn:Elen.
  - destruct (mapM (predict stats_lkp (identifier w)) (rows (associations w)))
      as [predictions|e] eqn:Epred; [|simpl; eauto].
    destruct (set_column cnlm_df (identifier w) _) as [cnlm_df'|e]; [|simpl; eauto].
    destruct Hin as [-> | Hin].
    + destruct (mapM_Raise_In _ _ _ Ha Hbad) as [e He]. congruence.
    + destruct (IH cnlm_df' Hin) as [e He].
      destruct (vote_loop stats_lkp vs cnlm_df') as [rest' r]. simpl in *. eauto.
  - destruct Hin as [-> | Hin].
    + destruct (rows (associations v)); [destruct Ha | discriminate Elen].
    + destruct (IH cnlm_df Hin) as [e He].
      destruct (vote_loop stats_lkp vs cnlm_df) as [rest' r]. simpl in *. eauto.
Qed.

(** X7. An association of a noisy vector with a null label, or with the
    confidence [None], makes [weakly_supervise] raise: the label has no
    entry in the precision lookup, and a float cannot be multiplied by
    [None]. *)
Theorem weakly_supervise_null_association (F : Float64) (m : CNLM) (v : SourceVector) (a : Association)
        (Hv : In v (vectors_noisy m))
        (Ha : In a (rows (associations v)))
        (Hnull : label a = None \/ confidence a = None) :
  exists e, snd (weakly_supervise F m) = Raise e.
Proof.
  assert (Hbad : forall stats_lkp ident, exists e, predict stats_lkp ident a = Raise e).
  { intros stats_lkp ident. unfold predict, lkp_precision.
    destruct Hnull as [-> | Hc]; [simpl; eauto|].
    destruct (label a); [|simpl; eauto].
    destruct (find _ stats_lkp); cbn [bind]; [|eauto].
    rewrite Hc. eauto. }
  assert (H : exists e, snd (weakly_supervise_votes m) = Raise e).
  { unfold weakly_supervise_votes.
    destruct (quality_metrics m) as [m1 [stats_df|e]] eqn:Eq; [|simpl; eauto].
    apply quality_metrics_table in Eq. destruct Eq as (reference & _ & -> & _).
    destruct (length stats_df =? 0)%nat; [simpl; eauto|].
    destruct (stats_lkp_of stats_df) as [stats_lkp|e]; [|simpl; eauto].
    cbn [vectors_noisy records set_vectors_noisy].
    destruct (vote_loop_bad_row stats_lkp (update_quality reference v) a)
      with (vs := map (update_quality reference) (vectors_noisy m))
           (cnlm_df := mkFrame (records m) []) as [e He].
    - now rewrite update_quality_associations.
    - apply Hbad.
    - now apply in_map.
    - destruct (vote_loop stats_lkp _ _) as [vs r]. simpl in *. subst r. simpl. eauto. }
  destruct H as [e He]. exists e. rewrite weakly_supervise_snd, He. reflexivity.
Qed.

(** ** weakly_supervise: running it again *)

Lemma vote_loop_idem (stats_lkp : list QualityRow) : forall vs cnlm_df vs' df,
  vote_loop stats_lkp vs cnlm_df = (vs', Return df) ->
  vote_loop stats_lkp vs' cnlm_df = (vs', Return df).
Proof.
  induction vs as [|w vs IH]; intros cnlm_df vs' df; cbn [vote_loop].
  - intros [= <- <-]. reflexivity.
  - destruct (0 <? length (rows (associations w)))%nat eqn:Elen.
    + destruct (mapM _ _) as [predictions|e] eqn:Epred; [|discriminate].
      destruct (set_column _ _ _) as [cnlm_df'|e] eqn:Eset; [|discriminate].
      destruct (vote_loop stats_lkp vs cnlm_df') as [rest' r] eqn:Erest.
      intros [= <- ->]. apply IH in Erest.
      cbn [vote_loop set_prediction rows associations identifier].
      rewrite Elen, Epred. cbn [rows associations identifier]. rewrite Eset, Erest.
      reflexivity.
    + destruct (vote_loop stats_lkp vs cnlm_df) as [rest' r] eqn:Erest.
      intros [= <- ->]. apply IH in Erest.
      cbn [vote_loop]. rewrite Elen, Erest. reflexivity.
Qed.

Lemma vote_loop_Forall (P : SourceVector -> Prop) (stats_lkp : list QualityRow) :
  (forall v p, P v -> P (set_prediction v p)) ->
  forall vs cnlm_df, Forall P vs -> Forall P (fst (vote_loop stats_lkp vs cnlm_df)).
Proof.
  intros Hset. induction vs as [|w vs IH]; intros cnlm_df Hvs; cbn [vote_loop]; [constructor|].
  inversion Hvs as [|? ? Hw Hrest]; subst.
  destruct (0 <? length (rows (associations w)))%nat.
  - destruct (mapM _ _) as [predictions|e]; [|assumption].
    destruct (set_column _ _ _) as [cnlm_df'|e]; [|constructor; auto].
    specialize (IH cnlm_df' Hrest).
    destruct (vote_loop stats_lkp vs cnlm_df') as [rest' r]. constructor; auto.
  - specialize (IH cnlm_df Hrest).
    destruct (vote_loop stats_lkp vs cnlm_df) as [rest' r]. constructor; auto.
Qed.

Lemma quality_statistics_ext : forall vs vs' : list SourceVector,
  map identifier vs' = map identifier vs ->
  map quality vs' = map quality vs ->
  quality_statistics vs' = quality_statistics vs.
Proof.
  unfold quality_statistics.
  induction vs as [|v vs IH]; intros [|v' vs']; simpl; try discriminate; auto.
  intros [= Hi His] [= Hq Hqs]. rewrite Hi, Hq. f_equal. now apply IH.
Qed.

Lemma update_quality_fixed_set_prediction (reference v : SourceVector) (p : list Prediction) :
  update_quality reference v = v ->
  update_quality reference (set_prediction v p) = set_prediction v p.
Proof.
  unfold update_quality, is_empty. cbn [set_prediction associations rows].
  destruct (rows (associations v)); [reflexivity|].
  intros H. apply (f_equal quality) in H. cbn [quality set_quality] in H.
  unfold set_quality, set_prediction. cbn. now rewrite H.
Qed.

Lemma weakly_supervise_votes_idem (m m1 : CNLM)
      (votes : list (RecordId * list (option Prediction))) :
  weakly_supervise_votes m = (m1, Return votes) ->
  weakly_supervise_votes m1 = (m1, Return votes).
Proof.
  unfold weakly_supervise_votes at 1.
  destruct (quality_metrics m) as [mq [table|e]] eqn:Eq; [|discriminate].
  apply quality_metrics_table in Eq. destruct Eq as (reference & Href & -> & Htable).
  destruct (length table =? 0)%nat eqn:Elen; [discriminate|].
  destruct (stats_lkp_of table) as [stats_lkp|e] eqn:Elkp; [|discriminate].
  cbn [vectors_noisy records set_vectors_noisy].
  set (vs1 := map (update_quality reference) (vectors_noisy m)) in *.
  destruct (vote_loop stats_lkp vs1 (mkFrame (records m) [])) as [vs2 rf] eqn:Eloop.
  destruct rf as [df|e]; cbn [bind]; [|discriminate].
  intros [= <- <-].
  pose proof (vote_loop_frame stats_lkp vs1 (mkFrame (records m) [])) as Hframe.
  cbv zeta in Hframe. rewrite Eloop in Hframe. cbn [fst] in Hframe.
  destruct Hframe as (Hi & _ & Hq & _).
  assert (Hfixed : map (update_quality reference) vs2 = vs2).
  { assert (HF : Forall (fun v => update_quality reference v = v) vs2).
    { pose proof (@vote_loop_Forall (fun v => update_quality reference v = v) stats_lkp
                    (update_quality_fixed_set_prediction reference)
                    vs1 (mkFrame (records m) [])) as H.
      rewrite Eloop in H. apply H. unfold vs1. apply Forall_forall.
      intros v Hv. apply in_map_iff in Hv. destruct Hv as (v0 & <- & _).
      apply update_quality_idem. }
    clear -HF. induction HF as [|v vs Hv _ IH]; simpl; [reflexivity|]. now rewrite Hv, IH. }
  assert (Hq1 : quality_metrics (mkCNLM vs2 (vector_reference m) (records m))
                = (mkCNLM vs2 (vector_reference m) (records m), Return table)).
  { unfold quality_metrics. cbn [vector_reference vectors_noisy]. rewrite Href.
    rewrite Hfixed. unfold set_vectors_noisy. cbn [vector_reference records].
    do 2 f_equal. rewrite Htable. now apply quality_statistics_ext. }
  unfold weakly_supervise_votes, set_vectors_noisy.
  cbn [vector_reference records]. rewrite Hq1, Elen, Elkp.
  cbn [vectors_noisy records]. rewrite (vote_loop_idem _ _ _ Eloop).
  reflexivity.
Qed.

(** X8. [weakly_supervise] can be run again: on the matrix a returning
    call has left (quality slots and [prediction] columns written), a
    second call returns the same series and leaves the matrix as it is. *)
Theorem weakly_supervise_idempotent (F : Float64) (m m1 : CNLM)
        (out : list (RecordId * option (string * R)))
        (Hrun : weakly_supervise F m = (m1, Return out)) :
  weakly_supervise F m1 = (m1, Return out).
Proof.
  unfold weakly_supervise in Hrun.
  destruct (weakly_supervise_votes m) as [m2 [votes|e]] eqn:Ev; cbn [bind] in Hrun;
    [|discriminate].
  injection Hrun as -> Hout.
  unfold weakly_supervise. rewrite (weakly_supervise_votes_idem _ Ev).
  cbn [bind]. now rewrite Hout.
Qed.

(** ** weakly_supervise: the records of the returned series *)

Lemma In_dict_set_other {V : Type} (k k' : string) (v c : V) (d : dict V) :
  In (k', c) d -> k' <> k -> In (k', c) (dict_set k v d).
Proof.
  induction d as [|[k0 v0] d IH]; simpl; [tauto|].
  intros [H | H] Hne.
  - injection H as -> ->. destruct (String.eqb k k') eqn:E.
    + apply String.eqb_eq in E. congruence.
    + now left.
  - destruct (String.eqb k k0); right; auto.
Qed.

Lemma In_dict_set_new {V : Type} (k : string) (v : V) (d : dict V) :
  In (k, v) (dict_set k v d).
Proof.
  induction d as [|[k0 v0] d IH]; simpl; [now left|].
  destruct (String.eqb k k0) eqn:E.
  - apply String.eqb_eq in E. subst k0. now left.
  - now right.
Qed.

Lemma Forall2_map_same {A B : Type} (P : A -> B -> Prop) (f : A -> B) (l : list A) :
  (forall x, P x (f x)) -> Forall2 P l (map f l).
Proof. intros H. induction l; simpl; constructor; auto. Qed.

Lemma series_get_notnull (r : RecordId) (value : list (RecordId * Prediction)) :
  series_get r value <> None <-> In r (map fst value).
Proof.
  unfold series_get. destruct (find _ _) as [p|] eqn:E.
  - apply find_some in E. destruct E as [Hin E]. apply String.eqb_eq in E.
    split; [|discriminate]. intros _. rewrite <- E. now apply in_map.
  - split; [congruence|]. intros Hin. apply in_map_iff in Hin.
    destruct Hin as (p & <- & Hp).
    pose proof (find_none _ _ E p Hp) as H. simpl in H.
    rewrite String.eqb_refl in H. discriminate.
Qed.

Lemma reindex_for_setitem_cells (value : list (RecordId * Prediction))
      (idx : list RecordId) (cells : list (option Prediction)) :
  idx <> [] ->
  reindex_for_setitem value idx = Return cells ->
  Forall2 (fun r cell => cell <> None <-> In r (map fst value)) idx cells.
Proof.
  intros Hne. unfold reindex_for_setitem.
  destruct (list_eq_dec string_dec (map fst value) idx) as [E|E].
  - cbn [orb]. intros [= <-]. subst idx. clear Hne.
    assert (H : forall sub, incl sub value ->
                Forall2 (fun r cell => cell <> None <-> In r (map fst value))
                        (map fst sub) (map (fun p => Some (snd p)) sub)).
    { induction sub as [|p sub IH]; intros Hincl; simpl; constructor.
      - split; [|discriminate]. intros _. apply in_map. apply Hincl. now left.
      - apply IH. intros x Hx. apply Hincl. now right. }
    apply H. apply incl_refl.
  - destruct idx; [congruence|]. cbn [orb is_nil].
    destruct (has_duplicates _ _); [discriminate|]. intros [= <-].
    apply (@Forall2_map_same _ _
             (fun r0 cell => cell <> None <-> In r0 (map fst value))
             (fun r0 => series_get r0 value) (r :: idx)).
    intros r0. apply series_get_notnull.
Qed.

Lemma set_column_spec (df df1 : Frame) (ident : string) (w : SourceVector)
      (predictions : list Prediction) :
  index df <> [] ->
  length predictions = length (rows (associations w)) ->
  set_column df ident (combine (map record (rows (associations w))) predictions)
  = Return df1 ->
  index df1 = index df
  /\ exists cells, columns df1 = dict_set ident cells (columns df)
                   /\ column_of w (index df) cells.
Proof.
  intros Hne Hlen. unfold set_column.
  rewrite ensure_valid_index_nonempty by assumption.
  destruct (reindex_for_setitem _ _) as [cells|e] eqn:E; [|discriminate].
  cbn [bind]. intros [= <-]. split; [reflexivity|].
  exists cells. split; [reflexivity|].
  apply reindex_for_setitem_cells in E; [|assumption].
  rewrite map_fst_combine in E by now rewrite length_map. exact E.
Qed.

Lemma vote_loop_Return_inv (stats_lkp : list QualityRow) (w : SourceVector)
      (vs : list SourceVector) (df df' : Frame) :
  snd (vote_loop stats_lkp (w :: vs) df) = Return df' ->
  (rows (associations w) = [] /\ snd (vote_loop stats_lkp vs df) = Return df')
  \/ (rows (associations w) <> []
      /\ exists predictions df1,
          length predictions = length (rows (associations w))
          /\ set_column df (identifier w)
               (combine (map record (rows (associations w))) predictions) = Return df1
          /\ snd (vote_loop stats_lkp vs df1) = Return df').
Proof.
  cbn [vote_loop].
  destruct (rows (associations w)) as [|a rest] eqn:Erows.
  - cbn. destruct (vote_loop stats_lkp vs df) as [rest' r]. cbn. auto.
  - rewrite <- Erows.
    assert (Hlen : (0 <? length (rows (associations w)))%nat = true)
      by (rewrite Erows; reflexivity).
    rewrite Hlen.
    destruct (mapM _ _) as [predictions|e] eqn:Epred; [|discriminate].
    destruct (set_column _ _ _) as [df1|e] eqn:Eset; [|discriminate].
    destruct (vote_loop stats_lkp vs df1) as [rest' r] eqn:Erest. cbn [snd].
    intros ->. right. split; [rewrite Erows; discriminate|].
    exists predictions, df1. split; [eapply mapM_length; eauto|].
    split; [assumption|]. now rewrite Erest.
Qed.

(** The columns of the frame after the loop: the index is unchanged,
    columns of other identifiers persist, every new column comes from a
    vector, and every non-empty vector has its column when the identifiers
    are distinct. *)
Lemma vote_loop_columns (stats_lkp : list QualityRow) : forall vs df df',
  index df <> [] ->
  snd (vote_loop stats_lkp vs df) = Return df' ->
  index df' = index df
  /\ (forall col, In col (columns df) -> ~ In (fst col) (map identifier vs) ->
                  In col (columns df'))
  /\ (forall col, In col (columns df') ->
        In col (columns df)
        \/ exists w, In w vs /\ column_of w (index df) (snd col))
  /\ (NoDup (map identifier vs) ->
      forall w, In w vs -> rows (associations w) <> [] ->
        exists cells, In (identifier w, cells) (columns df')
                      /\ column_of w (index df) cells).
Proof.
  induction vs as [|w vs IH]; intros df df' Hne Hrun.
  - cbn in Hrun. injection Hrun as <-. repeat split; auto.
    intros _ w [].
  - apply vote_loop_Return_inv in Hrun.
    destruct Hrun as [[Hempty Hrun] | (Hrows & predictions & df1 & Hlen & Hset & Hrun)].
    + destruct (IH df df' Hne Hrun) as (Hidx & Hkeep & Hsound & Hcomplete).
      repeat split; [assumption | | |].
      * intros col Hcol Hnotin. apply Hkeep; [assumption|].
        intros H. apply Hnotin. now right.
      * intros col Hcol. destruct (Hsound col Hcol) as [H | (w' & Hw' & H)]; [now left|].
        right. exists w'. split; [now right | assumption].
      * intros Hnd w' [<- | Hw'] Hrows'; [congruence|].
        inversion Hnd; subst. now apply Hcomplete.
    + destruct (@set_column_spec df df1 (identifier w) w predictions Hne Hlen Hset)
        as (Hidx1 & cells & Hcols & Hcells).
      assert (Hne1 : index df1 <> []) by now rewrite Hidx1.
      destruct (IH df1 df' Hne1 Hrun) as (Hidx & Hkeep & Hsound & Hcomplete).
      rewrite Hidx1 in *.
      repeat split; [assumption | | |].
      * intros col Hcol Hnotin. apply Hkeep.
        -- rewrite Hcols. destruct col as [k c]. apply In_dict_set_other; [assumption|].
           intros E. apply Hnotin. left. now rewrite E.
        -- intros H. apply Hnotin. now right.
      * intros col Hcol. destruct (Hsound col Hcol) as [H | (w' & Hw' & H)].
        -- rewrite Hcols in H. apply In_dict_set in H. destruct H as [-> | H]; [|now left].
           right. exists w. split; [now left | assumption].
        -- right. exists w'. split; [now right | assumption].
      * intros Hnd w' [<- | Hw'] Hrows'.
        -- inversion Hnd as [|? ? Hnotin Hnd']; subst.
           exists cells. split; [|assumption].
           apply (Hkeep (identifier w, cells)); [|assumption].
           rewrite Hcols. apply In_dict_set_new.
        -- inversion Hnd; subst. now apply Hcomplete.
Qed.

Lemma frame_rows_fst (idx : list RecordId) : forall cols,
  map fst (frame_rows idx cols) = idx.
Proof.
  induction idx as [|r idx IH]; intros cols; simpl; [reflexivity|]. now rewrite IH.
Qed.

Lemma frame_rows_sound (Q : RecordId -> option Prediction -> Prop) (idx : list RecordId) :
  forall cols,
    Forall (fun col => Forall2 Q idx col) cols ->
    Forall (fun row => Forall (Q (fst row)) (snd row)) (frame_rows idx cols).
Proof.
  induction idx as [|r idx IH]; intros cols Hcols; simpl; constructor.
  - simpl. apply Forall_forall. intros c Hc. apply in_map_iff in Hc.
    destruct Hc as (col & <- & Hcol).
    pose proof (proj1 (Forall_forall _ _) Hcols col Hcol) as H.
    inversion H; subst. assumption.
  - apply IH. apply Forall_forall. intros col' Hcol'. apply in_map_iff in Hcol'.
    destruct Hcol' as (col & <- & Hcol).
    pose proof (proj1 (Forall_forall _ _) Hcols col Hcol) as H.
    inversion H; subst. assumption.
Qed.

Lemma frame_rows_complete (Q : RecordId -> option Prediction -> Prop) (idx : list RecordId) :
  forall cols col,
    In col cols -> Forall2 Q idx col ->
    Forall (fun row => exists c, In c (snd row) /\ Q (fst row) c) (frame_rows idx cols).
Proof.
  induction idx as [|r idx IH]; intros cols col Hin Hcol; simpl; constructor.
  - inversion Hcol as [|? c ? col' Hq Hrest]; subst. exists c. split; [|assumption].
    simpl. change c with (hd None (c :: col')). now apply in_map.
  - inversion Hcol as [|? c ? col' Hq Hrest]; subst.
    apply (IH _ col'); [|assumption].
    change col' with (tl (c :: col')). now apply in_map.
Qed.

Lemma weakly_supervise_votes_frame (m : CNLM)
      (votes : list (RecordId * list (option Prediction))) :
  snd (weakly_supervise_votes m) = Return votes ->
  exists reference stats_lkp df',
    snd (vote_loop stats_lkp (map (update_quality reference) (vectors_noisy m))
                   (mkFrame (records m) [])) = Return df'
    /\ votes = voted_rows df'.
Proof.
  unfold weakly_supervise_votes.
  destruct (quality_metrics m) as [m1 [stats_df|e]] eqn:Eq; [|discriminate].
  apply quality_metrics_table in Eq. destruct Eq as (reference & _ & -> & _).
  destruct (length stats_df =? 0)%nat; [discriminate|].
  destruct (stats_lkp_of stats_df) as [stats_lkp|e]; [|discriminate].
  cbn [vectors_noisy records set_vectors_noisy].
  destruct (vote_loop stats_lkp _ _) as [vs [df'|e]] eqn:Eloop; cbn [snd bind];
    [|discriminate].
  intros [= <-]. exists reference, stats_lkp, df'. rewrite Eloop. auto.
Qed.

Lemma voted_on_update_quality (reference : SourceVector) (vs : list SourceVector)
      (r : RecordId) :
  voted_on (map (update_quality reference) vs) r <-> voted_on vs r.
Proof.
  unfold voted_on. split.
  - intros (w & Hw & Hr). apply in_map_iff in Hw. destruct Hw as (v & <- & Hv).
    rewrite update_quality_associations in Hr. eauto.
  - intros (v & Hv & Hr). exists (update_quality reference v).
    split; [now apply in_map | now rewrite update_quality_associations].
Qed.

(** X9. When [weakly_supervise] returns, on a matrix with a non-empty
    record list and noisy vectors of distinct identifiers, the records of
    the returned series are exactly the records of the matrix for which
    some noisy vector holds an association: a record without any vote is
    not in the series, and an association for a record outside the
    matrix's records is ignored. *)
Theorem weakly_supervise_records (F : Float64) (m : CNLM) (out : list (RecordId * option (string * R)))
        (Hrecords : records m <> [])
        (Hids : NoDup (map identifier (vectors_noisy m)))
        (Hrun : snd (weakly_supervise F m) = Return out) :
  forall r, In r (map fst out) <-> In r (records m) /\ voted_on (vectors_noisy m) r.
Proof.
  rewrite weakly_supervise_snd in Hrun.
  destruct (snd (weakly_supervise_votes m)) as [votes|e] eqn:Ev; [|discriminate].
  cbn [bind] in Hrun.
  assert (Hfst : map fst out = map fst votes).
  { unfold apply_ensemble in Hrun. apply mapM_Forall2 in Hrun.
    apply (@Forall2_map_fst _ _ _ (fun _ _ => True)).
    eapply Forall2_impl; [|exact Hrun]. intros row o Ho. cbn beta in Ho.
    destruct (ensemble F (snd row)); [|discriminate]. cbn [bind] in Ho.
    injection Ho as <-. auto. }
  apply weakly_supervise_votes_frame in Ev.
  destruct Ev as (reference & stats_lkp & df' & Hloop & ->).
  set (vs1 := map (update_quality reference) (vectors_noisy m)) in *.
  destruct (vote_loop_columns stats_lkp vs1 (mkFrame (records m) []) Hrecords Hloop)
    as (Hidx & _ & Hsound & Hcomplete).
  cbn [index columns] in *.
  intros r. rewrite Hfst. unfold voted_rows. rewrite Hidx. split.
  - intros Hr. apply in_map_iff in Hr. destruct Hr as ([r' cells] & <- & Hrow).
    apply filter_In in Hrow. destruct Hrow as [Hrow Hcells]. cbn [fst snd] in *.
    split.
    + rewrite <- (frame_rows_fst (records m) (map snd (columns df'))).
      change r' with (fst (r', cells)). now apply in_map.
    + apply (voted_on_update_quality reference). fold vs1.
      assert (HQ : Forall (fun row => Forall (fun c => c <> None -> voted_on vs1 (fst row))
                                             (snd row))
                          (frame_rows (records m) (map snd (columns df')))).
      { apply (@frame_rows_sound (fun r c => c <> None -> voted_on vs1 r)).
        apply Forall_forall. intros col Hcol. apply in_map_iff in Hcol.
        destruct Hcol as (kc & <- & Hkc).
        destruct (Hsound kc Hkc) as [[] | (w & Hw & Hcol)].
        eapply Forall2_impl; [|exact Hcol]. intros r0 c Hc Hnot.
        exists w. split; [assumption | now apply Hc]. }
      pose proof (proj1 (Forall_forall _ _) HQ _ Hrow) as Hcs. cbn [fst snd] in Hcs.
      apply existsb_exists in Hcells. destruct Hcells as (c & Hc & Hnn).
      apply (proj1 (Forall_forall _ _) Hcs c Hc). destruct c; [discriminate | discriminate Hnn].
  - intros [Hr Hvoted].
    apply (voted_on_update_quality reference) in Hvoted. fold vs1 in Hvoted.
    destruct Hvoted as (w & Hw & Hrw).
    assert (Hnd : NoDup (map identifier vs1)).
    { unfold vs1. rewrite map_map.
      rewrite (map_ext _ _ (update_quality_identifier reference)). exact Hids. }
    destruct (Hcomplete Hnd w Hw) as (cells & Hcells & Hcol).
    { intros E. rewrite E in Hrw. destruct Hrw. }
    pose proof (@frame_rows_complete
                  (fun r c => c <> None <-> In r (map record (rows (associations w))))
                  (records m) (map snd (columns df')) cells) as HQ.
    specialize (HQ (in_map snd _ _ Hcells) Hcol).
    rewrite <- (frame_rows_fst (records m) (map snd (columns df'))) in Hr.
    apply in_map_iff in Hr. destruct Hr as (row & <- & Hrow).
    apply in_map. apply filter_In. split; [assumption|].
    destruct (proj1 (Forall_forall _ _) HQ row Hrow) as (c & Hc & Hiff).
    apply existsb_exists. exists c. split; [assumption|].
    destruct c; [reflexivity|]. exfalso. now apply (proj2 Hiff Hrw).
Qed.

(** ** weakly_supervise: when it returns *)

Lemma has_duplicates_NoDup {A : Type} (eqb : A -> A -> bool) (l : list A) :
  (forall x y, eqb x y = true <-> x = y) ->
  NoDup l -> has_duplicates eqb l = false.
Proof.
  intros Hspec. induction 1 as [|x l Hx Hnd IH]; simpl; [reflexivity|].
  rewrite IH, orb_false_r.
  destruct (Pd.mem eqb x l) eqn:E; [|reflexivity].
  apply (mem_In eqb Hspec) in E. contradiction.
Qed.

Lemma stats_keys (vs : list SourceVector) :
  map stats_key (quality_statistics vs)
  = flat_map (fun v => map (fun l => (identifier v, l)) (dict_keys (quality v))) vs.
Proof.
  unfold quality_statistics. induction vs as [|v vs IH]; simpl; [reflexivity|].
  rewrite map_app, IH. f_equal. unfold dict_keys. rewrite !map_map.
  apply map_ext. intros [l q]. reflexivity.
Qed.

Lemma stats_keys_NoDup (vs : list SourceVector) :
  NoDup (map identifier vs) ->
  (forall v, In v vs -> NoDup (dict_keys (quality v))) ->
  NoDup (map stats_key (quality_statistics vs)).
Proof.
  rewrite stats_keys. induction vs as [|v vs IH]; simpl; intros Hids Hkeys; [constructor|].
  inversion Hids as [|? ? Hnotin Hids']; subst.
  apply NoDup_app.
  - apply NoDup_map_in; [|apply Hkeys; now left]. intros x y _ _ [= ->]. reflexivity.
  - apply IH; auto.
  - intros key Hkey Hin. apply in_map_iff in Hkey. destruct Hkey as (l & <- & _).
    apply in_flat_map in Hin. destruct Hin as (v' & Hv' & Hin).
    apply in_map_iff in Hin. destruct Hin as (l' & [= E _] & _).
    apply Hnotin. rewrite <- E. now apply in_map.
Qed.

Lemma update_quality_keys (reference v : SourceVector) :
  NoDup (dict_keys (quality v)) ->
  NoDup (dict_keys (quality (update_quality reference v))).
Proof.
  intros H. unfold update_quality. destruct (is_empty v); [assumption|].
  cbn [quality set_quality]. rewrite vector_quality_eq. unfold dict_keys.
  rewrite map_map. simpl. rewrite map_id. apply NoDup_unique. exact string_eqb_spec.
Qed.

Lemma update_quality_row (reference v : SourceVector) (a : Association) (l : string) :
  In a (rows (associations v)) -> label a = Some l ->
  exists row, In row (quality_statistics [update_quality reference v])
              /\ stats_key row = (identifier v, l).
Proof.
  intros Ha Hl. unfold quality_statistics. simpl. rewrite app_nil_r.
  rewrite update_quality_identifier.
  unfold update_quality, is_empty.
  destruct (rows (associations v)) as [|a0 rest] eqn:Erows; [destruct Ha|].
  cbn [quality set_quality]. rewrite vector_quality_eq, <- Erows. rewrite <- Erows in Ha.
  set (q := group_quality (df_inner_join (rows (associations reference))
                                         (rows (associations v))) l).
  exists (mkQualityRow (identifier v) l (true_positives q) (false_positives q)
            (calc_precision (true_positives q) (false_positives q))).
  split; [|reflexivity].
  apply in_map_iff. exists (l, q). split; [reflexivity|].
  apply in_map_iff. exists l. split; [reflexivity|].
  apply (In_unique String.eqb string_eqb_spec). apply In_dropna.
  rewrite <- Hl. now apply in_map.
Qed.

Lemma In_quality_statistics (row : QualityRow) (v : SourceVector) (vs : list SourceVector) :
  In v vs -> In row (quality_statistics [v]) -> In row (quality_statistics vs).
Proof.
  unfold quality_statistics. simpl. rewrite app_nil_r. intros Hv Hrow.
  apply in_flat_map. eauto.
Qed.

Lemma find_exists {A : Type} (f : A -> bool) (l : list A) (x : A) :
  In x l -> f x = true -> exists y, find f l = Some y.
Proof.
  intros Hin Hx. destruct (find f l) as [y|] eqn:E; [eauto|].
  pose proof (find_none _ _ E x Hin). congruence.
Qed.

Lemma mapM_total {A B : Type} (f : A -> result B) (xs : list A) :
  (forall x, In x xs -> exists y, f x = Return y) -> exists ys, mapM f xs = Return ys.
Proof.
  induction xs as [|x xs IH]; intros H; simpl; [eauto|].
  destruct (H x (or_introl eq_refl)) as [y ->]. cbn [bind].
  destruct IH as [ys ->]; [intros x' Hx'; apply H; now right|]. cbn [bind]. eauto.
Qed.

Lemma set_column_total (df : Frame) (ident : string) (value : list (RecordId * Prediction)) :
  NoDup (map fst value) -> exists df', set_column df ident value = Return df'.
Proof.
  intros Hnd. unfold set_column, reindex_for_setitem.
  destruct (_ || _); cbn [bind]; [eauto|].
  rewrite (@has_duplicates_NoDup _ String.eqb _ string_eqb_spec Hnd). cbn [bind]. eauto.
Qed.

Lemma vote_loop_total (stats_lkp : list QualityRow) : forall vs,
  (forall w a, In w vs -> In a (rows (associations w)) ->
               exists p, predict stats_lkp (identifier w) a = Return p) ->
  (forall w, In w vs -> NoDup (map record (rows (associations w)))) ->
  forall cnlm_df, exists df', snd (vote_loop stats_lkp vs cnlm_df) = Return df'.
Proof.
  induction vs as [|w vs IH]; intros Hpred Hone cnlm_df; cbn [vote_loop]; [cbn; eauto|].
  assert (IH' : forall df, exists df', snd (vote_loop stats_lkp vs df) = Return df').
  { apply IH; intros; [apply Hpred | apply Hone]; auto using in_cons. }
  destruct (0 <? length (rows (associations w)))%nat.
  - destruct (mapM_total (predict stats_lkp (identifier w)) (rows (associations w)))
      as [predictions Epred]; [intros a Ha; apply Hpred; auto using in_eq|].
    rewrite Epred.
    destruct (set_column_total cnlm_df (identifier w)
                (combine (map record (rows (associations w))) predictions))
      as [df1 Eset].
    { rewrite map_fst_combine; [apply Hone; now left|].
      rewrite length_map. eapply mapM_length; eauto. }
    rewrite Eset. destruct (IH' df1) as [df' Hdf'].
    destruct (vote_loop stats_lkp vs df1) as [rest' r]. cbn in *. eauto.
  - destruct (IH' cnlm_df) as [df' Hdf'].
    destruct (vote_loop stats_lkp vs cnlm_df) as [rest' r]. cbn in *. eauto.
Qed.

(** X10. [weakly_supervise] returns a series whenever the matrix has a
    reference vector, the noisy vectors have distinct identifiers and
    quality slots with distinct keys, at least one of them is not empty,
    and every noisy association has a non-null label, a confidence other
    than [None], and is the only one its vector holds for its record. *)
Theorem weakly_supervise_returns (F : Float64) (m : CNLM) (reference : SourceVector)
        (Href : vector_reference m = Some reference)
        (Hids : NoDup (map identifier (vectors_noisy m)))
        (Hslots : forall v, In v (vectors_noisy m) -> NoDup (dict_keys (quality v)))
        (Hvoter : exists v, In v (vectors_noisy m) /\ is_empty v = false)
        (Hassoc : forall v a, In v (vectors_noisy m) -> In a (rows (associations v)) ->
                              label a <> None /\ confidence a <> None)
        (Hone : forall v, In v (vectors_noisy m) ->
                          NoDup (map record (rows (associations v)))) :
  exists out, snd (weakly_supervise F m) = Return out.
Proof.
  set (vs1 := map (update_quality reference) (vectors_noisy m)).
  set (table := quality_statistics vs1).
  assert (Hrow : forall v a l, In v (vectors_noisy m) -> In a (rows (associations v)) ->
                   label a = Some l ->
                   exists row, In row table /\ stats_key row = (identifier v, l)).
  { intros v a l Hv Ha Hl.
    destruct (update_quality_row reference v a Ha Hl) as (row & Hin & Hkey).
    exists row. split; [|assumption].
    apply (In_quality_statistics _ (update_quality reference v)); [|assumption].
    now apply in_map. }
  assert (Hlen : (length table =? 0)%nat = false).
  { destruct Hvoter as (v & Hv & Hne). unfold is_empty in Hne.
    destruct (rows (associations v)) as [|a rest] eqn:Erows; [discriminate|].
    destruct (Hassoc v a Hv) as [Hl _]; [rewrite Erows; now left|].
    destruct (label a) as [l|] eqn:El; [|congruence].
    destruct (Hrow v a l Hv) as (row & Hin & _); [rewrite Erows; now left | assumption|].
    destruct table; [destruct Hin | reflexivity]. }
  assert (Hlkp : stats_lkp_of table = Return table).
  { unfold stats_lkp_of. rewrite (@has_duplicates_NoDup _ key_eqb _ key_eqb_spec); [reflexivity|].
    apply stats_keys_NoDup.
    - unfold vs1. rewrite map_map.
      now rewrite (map_ext _ _ (update_quality_identifier reference)).
    - intros w Hw. apply in_map_iff in Hw. destruct Hw as (v & <- & Hv).
      apply update_quality_keys. now apply Hslots. }
  destruct (vote_loop_total table vs1) with (cnlm_df := mkFrame (records m) [])
    as [df' Hloop].
  { intros w a Hw Ha. apply in_map_iff in Hw. destruct Hw as (v & <- & Hv).
    rewrite update_quality_associations in Ha. rewrite update_quality_identifier.
    destruct (Hassoc v a Hv Ha) as [Hl Hc].
    destruct (label a) as [l|] eqn:El; [|congruence].
    destruct (confidence a) as [c|] eqn:Ec; [|congruence].
    destruct (Hrow v a l Hv Ha El) as (row & Hin & Hkey).
    unfold predict, lkp_precision. rewrite El, Ec.
    destruct (find_exists (fun row => key_eqb (stats_key row) (identifier v, l)) table row Hin)
      as [row' ->]; [now apply key_eqb_spec|].
    cbn [bind]. eauto. }
  { intros w Hw. apply in_map_iff in Hw. destruct Hw as (v & <- & Hv).
    rewrite update_quality_associations. now apply Hone. }
  assert (Hvotes : snd (weakly_supervise_votes m) = Return (voted_rows df')).
  { unfold weakly_supervise_votes, quality_metrics. rewrite Href.
    fold vs1. fold table. rewrite Hlen, Hlkp.
    cbn [vectors_noisy records set_vectors_noisy].
    destruct (vote_loop table vs1 (mkFrame (records m) [])) as [vs rf].
    cbn [snd] in *. now rewrite Hloop. }
  destruct (apply_ensemble_total F (weakly_supervise_votes_voted m Hvotes)) as [out Hout].
  exists out. rewrite weakly_supervise_snd, Hvotes. exact Hout.
Qed.

(** ** quantity_metrics: what the counters count *)

Lemma bool_eq_iff (a b : bool) : (a = true <-> b = true) -> a = b.
Proof. destruct a, b; intros [H1 H2]; auto; (now rewrite H1) || (now rewrite H2). Qed.

Lemma count_records_cons (p : RecordId -> bool) (r : RecordId) (recs : list RecordId) :
  count_records p (r :: recs) = (count_records p recs + (if p r then 1 else 0))%Z.
Proof. unfold count_records. simpl. destruct (p r); simpl length; lia. Qed.

Lemma count_records_same (p p' : RecordId -> bool) (A B : list RecordId) :
  NoDup A -> NoDup B ->
  (forall x, p x = p' x) ->
  (forall x, p x = true -> In x A /\ In x B) ->
  count_records p A = count_records p' B.
Proof.
  intros HA HB Hp Hin. unfold count_records. f_equal.
  apply Permutation_length. apply NoDup_Permutation; try now apply NoDup_filter.
  intros x. rewrite !filter_In, <- Hp. split.
  - intros [_ Hx]. split; [now apply Hin | assumption].
  - intros [_ Hx]. split; [now apply Hin | assumption].
Qed.

Lemma incr_overlaps_Return (k : string) (q q1 : dict Quantity) :
  incr_overlaps (Some k) q = Return q1 ->
  exists old, dict_get k q = Some old
              /\ q1 = dict_set k (mkQuantity (record_coverage old) (source_overlaps old + 1)
                                             (source_conflicts old)) q.
Proof.
  unfold incr_overlaps, quantity_lookup.
  destruct (dict_get k q) as [old|]; [|discriminate]. cbn. intros [= <-]. eauto.
Qed.

Lemma incr_conflicts_Return (k : string) (q q1 : dict Quantity) :
  incr_conflicts (Some k) q = Return q1 ->
  exists old, dict_get k q = Some old
              /\ q1 = dict_set k (mkQuantity (record_coverage old) (source_overlaps old)
                                             (source_conflicts old + 1)) q.
Proof.
  unfold incr_conflicts, quantity_lookup.
  destruct (dict_get k q) as [old|]; [|discriminate]. cbn. intros [= <-]. eauto.
Qed.

Section Tests.
Variable df_others : list SourceRow.
Variable r : RecordId.

Lemma In_labels_on (x : Label) :
  In x (labels_on df_others r)
  <-> exists row, In row df_others /\ row_record row = r /\ row_label row = x.
Proof.
  unfold labels_on. rewrite (In_unique label_eqb label_eqb_spec), in_map_iff.
  split.
  - intros (row & Hx & Hrow). apply filter_In in Hrow. destruct Hrow as [Hin E].
    apply String.eqb_eq in E. eauto.
  - intros (row & Hin & Hr & Hx). exists row. split; [assumption|].
    apply filter_In. split; [assumption | now apply String.eqb_eq].
Qed.

Lemma mem_labels_on (k : string) :
  Pd.mem label_eqb (Some k) (labels_on df_others r) = agreed_at df_others k r.
Proof.
  apply bool_eq_iff. rewrite (mem_In label_eqb label_eqb_spec), In_labels_on.
  unfold agreed_at. rewrite existsb_exists. split.
  - intros (row & Hin & Hr & Hx). exists row. split; [assumption|].
    rewrite Hr, Hx, String.eqb_refl. simpl. apply String.eqb_refl.
  - intros (row & Hin & H). apply andb_true_iff in H. destruct H as [Hr Hx].
    apply String.eqb_eq in Hr. apply label_eqb_spec in Hx. eauto.
Qed.

Lemma differs_labels_on (k : string) :
  existsb (fun x => negb (label_eqb x (Some k))) (labels_on df_others r)
  = contested_at df_others k r.
Proof.
  apply bool_eq_iff. unfold contested_at. rewrite !existsb_exists. split.
  - intros (x & Hx & Hne). apply In_labels_on in Hx.
    destruct Hx as (row & Hin & Hr & <-). exists row. split; [assumption|].
    now rewrite Hr, String.eqb_refl.
  - intros (row & Hin & H). apply andb_true_iff in H. destruct H as [Hr Hne].
    apply String.eqb_eq in Hr. exists (row_label row). split; [|assumption].
    apply In_labels_on. eauto.
Qed.

Lemma conflict_test (k : string) (label0 : Label) (rest : list Label) :
  (labels_on df_others r) = label0 :: rest ->
  (if (1 <? length (label0 :: rest))%nat then true
   else negb (label_eqb label0 (Some k)))
  = contested_at df_others k r.
Proof.
  intros E. rewrite <- differs_labels_on, E.
  assert (Hnd : NoDup (label0 :: rest)).
  { rewrite <- E. apply NoDup_unique. exact label_eqb_spec. }
  destruct rest as [|label1 rest]; simpl.
  - now rewrite orb_false_r.
  - destruct (label_eqb label0 (Some k)) eqn:E0; [|reflexivity].
    destruct (label_eqb label1 (Some k)) eqn:E1; [|reflexivity].
    apply label_eqb_spec in E0, E1. subst. inversion Hnd as [|? ? Hnotin _]; subst.
    exfalso. apply Hnotin. now left.
Qed.
End Tests.

Lemma record_step_Some (df_source df_others : list SourceRow) (q q' : dict Quantity)
      (r : RecordId) :
  record_step df_source df_others q r = Return q' ->
  exists row k,
    first_row df_source r = Some row /\ row_label row = Some k
    /\ (q1 <- (if agreed_at df_others k r then incr_overlaps (Some k) q else Return q) ;;
        if contested_at df_others k r then incr_conflicts (Some k) q1 else Return q1)%py
       = Return q'.
Proof.
  unfold record_step.
  destruct (filter _ df_source) as [|row rest] eqn:Ef; [discriminate|].
  assert (Hrow : first_row df_source r = Some row) by (apply find_Some_filter; eauto).
  fold (labels_on df_others r).
  destruct (labels_on df_others r) as [|label0 lrest] eqn:El; [cbn; discriminate|].
  destruct (row_label row) as [k|] eqn:Ek.
  - intros H. exists row, k. split; [assumption|]. split; [exact Ek|].
    rewrite <- El, mem_labels_on, El in H.
    rewrite <- (conflict_test df_others r k El).
    destruct (agreed_at df_others k r).
    + destruct (incr_overlaps (Some k) q) as [q1|e]; [|discriminate]. cbn [bind] in *.
      destruct (1 <? length (label0 :: lrest))%nat; exact H.
    + cbn [bind] in *. destruct (1 <? length (label0 :: lrest))%nat; exact H.
  - destruct (Pd.mem label_eqb None (label0 :: lrest)) eqn:Emem; [discriminate|].
    cbn [bind].
    destruct (1 <? length (label0 :: lrest))%nat; [discriminate|].
    destruct label0 as [l0|]; [discriminate|].
    unfold Pd.mem in Emem. simpl in Emem. discriminate.
Qed.

Lemma quantity_eta (old : Quantity) :
  mkQuantity (record_coverage old) (source_overlaps old) (source_conflicts old) = old.
Proof. now destruct old. Qed.

Lemma record_step_exact (df_source df_others : list SourceRow) (keys : list string)
      (done : list RecordId) (q q' : dict Quantity) (r : RecordId) :
  quantity_exact df_source df_others keys done q ->
  record_step df_source df_others q r = Return q' ->
  quantity_exact df_source df_others keys (r :: done) q'.
Proof.
  intros [Hkeys Hget] Hstep.
  apply record_step_Some in Hstep. destruct Hstep as (row & k & Hrow & Hk & Hstep).
  set (A := agreed_at df_others k r) in *. set (C := contested_at df_others k r) in *.
  assert (Hfirst : forall l, first_is df_source l r = String.eqb k l).
  { intros l. unfold first_is. rewrite Hrow, Hk. reflexivity. }
  assert (Hq' : dict_keys q' = dict_keys q
                /\ forall l, dict_get l q'
                   = if String.eqb l k
                     then match dict_get k q with
                          | Some old =>
                              if A || C
                              then Some (mkQuantity (record_coverage old)
                                           (source_overlaps old + (if A then 1 else 0))
                                           (source_conflicts old + (if C then 1 else 0)))
                              else Some old
                          | None => dict_get l q'
                          end
                     else dict_get l q).
  { destruct A.
    - destruct (incr_overlaps (Some k) q) as [q1|e] eqn:E1; [|discriminate].
      cbn [bind] in Hstep. apply incr_overlaps_Return in E1.
      destruct E1 as (old & Hold & ->).
      assert (Hin : In k (dict_keys q)).
      { apply dict_get_In in Hold. change k with (fst (k, old)). now apply in_map. }
      destruct C.
      + apply incr_conflicts_Return in Hstep. destruct Hstep as (old1 & Hold1 & ->).
        rewrite dict_get_set, String.eqb_refl in Hold1. injection Hold1 as <-.
        split.
        * rewrite !dict_keys_set; auto. rewrite dict_keys_set; auto.
        * intros l. rewrite !dict_get_set, Hold.
          destruct (String.eqb l k); reflexivity.
      + injection Hstep as <-. split; [now apply dict_keys_set|].
        intros l. rewrite dict_get_set, Hold. cbn [orb].
        destruct (String.eqb l k); [|reflexivity].
        now rewrite Z.add_0_r.
    - cbn [bind] in Hstep. destruct C.
      + apply incr_conflicts_Return in Hstep. destruct Hstep as (old & Hold & ->).
        assert (Hin : In k (dict_keys q)).
        { apply dict_get_In in Hold. change k with (fst (k, old)). now apply in_map. }
        split; [now apply dict_keys_set|].
        intros l. rewrite dict_get_set, Hold. cbn [orb].
        destruct (String.eqb l k); [|reflexivity].
        now rewrite Z.add_0_r.
      + injection Hstep as <-. split; [reflexivity|].
        intros l. cbn [orb]. destruct (String.eqb l k) eqn:E; [|reflexivity].
        apply String.eqb_eq in E. subst l. now destruct (dict_get k q). }
  destruct Hq' as [Hkeys' Hget']. split; [congruence|].
  intros l Hl. rewrite Hget', !count_records_cons, !Hfirst.
  destruct (String.eqb l k) eqn:E.
  - apply String.eqb_eq in E. subst l. rewrite (Hget k Hl), String.eqb_refl.
    cbn [andb record_coverage source_overlaps source_conflicts]. subst A C.
    destruct (agreed_at df_others k r), (contested_at df_others k r);
      cbn [orb]; rewrite ?Z.add_0_r; reflexivity.
  - rewrite (Hget l Hl), String.eqb_sym, E. cbn [andb]. now rewrite !Z.add_0_r.
Qed.

Lemma exists_on_others (P : SourceRow -> bool) (df : list SourceRow) (s : string)
      (x : RecordId) :
  In x (map row_record (df_source_of df s)) ->
  existsb (fun row => String.eqb (row_record row) x && P row)
          (df_others_of df (df_source_of df s) s)
  = existsb (fun row => String.eqb (row_record row) x && P row) (other_rows df s).
Proof.
  intros Hx. apply bool_eq_iff. rewrite !existsb_exists.
  unfold df_others_of, other_rows. split.
  - intros (row & Hin & H). exists row. split; [|assumption].
    apply filter_In in Hin. destruct Hin as [Hin Hc].
    apply andb_true_iff in Hc. apply filter_In. tauto.
  - intros (row & Hin & H). exists row. split; [|assumption].
    apply filter_In in Hin. destruct Hin as [Hin Hc].
    apply filter_In. split; [assumption|]. rewrite Hc. cbn [andb].
    apply andb_true_iff in H. destruct H as [Hr _]. apply String.eqb_eq in Hr.
    rewrite Hr. apply (mem_In String.eqb string_eqb_spec).
    now apply (In_unique String.eqb string_eqb_spec).
Qed.

Lemma first_is_covered (df_source : list SourceRow) (l : string) (x : RecordId) :
  first_is df_source l x = true -> In x (map row_record df_source).
Proof.
  unfold first_is, first_row. destruct (find _ df_source) as [row|] eqn:E; [|discriminate].
  intros _. apply find_some in E. destruct E as [Hin E]. apply String.eqb_eq in E.
  rewrite <- E. now apply in_map.
Qed.

Lemma exists_on_others_covered (P : SourceRow -> bool) (df : list SourceRow) (s : string)
      (x : RecordId) :
  existsb (fun row => String.eqb (row_record row) x && P row)
          (df_others_of df (df_source_of df s) s) = true ->
  In x (map row_record (df_others_of df (df_source_of df s) s)).
Proof.
  intros H. apply existsb_exists in H. destruct H as (row & Hin & H).
  apply andb_true_iff in H. destruct H as [Hr _]. apply String.eqb_eq in Hr.
  rewrite <- Hr. now apply in_map.
Qed.

(** The dictionary computed for a source, in closed form. *)
Lemma source_quantity_exact (df : list SourceRow) (s : string) (q : dict Quantity) :
  source_quantity df s = Return q ->
  q = map (fun l => (l, quantity_of (df_source_of df s) (other_rows df s) l))
          (Pd.unique String.eqb (Pd.dropna (map row_label (df_source_of df s)))).
Proof.
  unfold source_quantity.
  set (df_source := df_source_of df s).
  set (df_others := df_others_of df df_source s).
  set (xs := Pd.sort (Pd.unique String.eqb (map row_record df_others))).
  set (keys := Pd.unique String.eqb (Pd.dropna (map row_label df_source))).
  intros Hq.
  assert (Hkeys : NoDup keys) by (apply NoDup_unique; exact string_eqb_spec).
  assert (Hinv : quantity_exact df_source df_others keys (rev xs ++ []) q).
  { apply (@foldM_invariant _ _ (record_step df_source df_others)
             (fun done q => quantity_exact df_source df_others keys done q))
      with (s := initial_quantity df_source).
    - intros done q0 x q1 H0 H1. eapply record_step_exact; eauto.
    - split; [apply dict_keys_initial_quantity|].
      intros l Hl. apply dict_get_NoDup.
      + now rewrite dict_keys_initial_quantity.
      + unfold initial_quantity. apply in_map_iff. exists l. split; [reflexivity | exact Hl].
    - exact Hq. }
  rewrite app_nil_r in Hinv. destruct Hinv as [Hk Hget].
  assert (Hxs : NoDup (rev xs)).
  { apply NoDup_rev. unfold xs. apply NoDup_sort, NoDup_unique. exact string_eqb_spec. }
  assert (Hrecs : NoDup (Pd.unique String.eqb (map row_record df_source)))
    by (apply NoDup_unique; exact string_eqb_spec).
  assert (Hin_xs : forall x, In x (map row_record df_others) -> In x (rev xs)).
  { intros x Hx. apply in_rev. rewrite rev_involutive. unfold xs.
    apply In_sort. now apply (In_unique String.eqb string_eqb_spec). }
  apply dict_ext; [assumption | assumption|].
  intros l Hl. rewrite (Hget l Hl). unfold quantity_of. fold df_source. do 2 f_equal.
  - apply count_records_same; [assumption | assumption | |].
    + intros x. destruct (first_is df_source l x) eqn:E; [|reflexivity]. cbn [andb].
      apply (exists_on_others (fun row => label_eqb (row_label row) (Some l))).
      eapply first_is_covered; eauto.
    + intros x H. apply andb_true_iff in H. destruct H as [Hf Ha]. split.
      * apply Hin_xs. eapply exists_on_others_covered. exact Ha.
      * apply (In_unique String.eqb string_eqb_spec). eapply first_is_covered; eauto.
  - apply count_records_same; [assumption | assumption | |].
    + intros x. destruct (first_is df_source l x) eqn:E; [|reflexivity]. cbn [andb].
      apply (exists_on_others (fun row => negb (label_eqb (row_label row) (Some l)))).
      eapply first_is_covered; eauto.
    + intros x H. apply andb_true_iff in H. destruct H as [Hf Ha]. split.
      * apply Hin_xs. eapply exists_on_others_covered. exact Ha.
      * apply (In_unique String.eqb string_eqb_spec). eapply first_is_covered; eauto.
Qed.

Lemma quantity_metrics_slot (m m' : CNLM) (table : list QuantityRow) (v : SourceVector) :
  quantity_metrics m = (m', Return table) ->
  In v (vectors_noisy m') -> is_empty v = false ->
  source_quantity (concat_sources (vectors_noisy m)) (identifier v) = Return (quantity v).
Proof.
  intros Hrun Hv Hne. unfold quantity_metrics in Hrun.
  destruct (vectors_noisy m) as [|v0 vs0] eqn:Evs; [discriminate|].
  rewrite <- Evs in *.
  set (df := concat_sources (vectors_noisy m)) in *.
  set (srcs := Pd.sort (Pd.unique String.eqb (map source df))) in *.
  destruct (quantity_loop df (vectors_noisy m) srcs) as [vs [u|e]] eqn:Eloop; [|discriminate].
  injection Hrun as <- _.
  apply quantity_loop_Return in Eloop. destruct Eloop as [Hall ->].
  simpl vectors_noisy in Hv.
  apply in_map_iff in Hv. destruct Hv as (v1 & <- & Hv1).
  assert (Hsrc : In (identifier v1) srcs).
  { apply nonempty_vector_source; [assumption|].
    unfold is_empty in *. now rewrite quantity_written_associations in Hne. }
  destruct (Hall _ Hsrc) as [qv Hqv].
  rewrite quantity_written_identifier. unfold quantity_written.
  rewrite (proj2 (mem_In String.eqb string_eqb_spec _ _) Hsrc), Hqv. reflexivity.
Qed.

(** X11. What [quantity_metrics] writes for a non-empty noisy vector: one
    entry per distinct non-null label of its source, in order of first
    appearance, where [record_coverage] is the number of the source's
    associations with the label, [source_overlaps] the number of records
    whose first label is that label and to which another source gives the
    same label, and [source_conflicts] the number of those to which another
    source gives something else. *)
Theorem quantity_metrics_counts (m m' : CNLM) (table : list QuantityRow)
        (Hrun : quantity_metrics m = (m', Return table)) :
  forall v, In v (vectors_noisy m') -> is_empty v = false ->
    let df := concat_sources (vectors_noisy m) in
    let df_source := df_source_of df (identifier v) in
    quantity v
    = map (fun l => (l, quantity_of df_source (other_rows df (identifier v)) l))
          (Pd.unique String.eqb (Pd.dropna (map row_label df_source))).
Proof.
  intros v Hv Hne df df_source.
  apply source_quantity_exact. eapply quantity_metrics_slot; eauto.
Qed.

(** X12. A source none of whose records is held by a vector of another
    identifier has no overlap and no conflict: every entry written for it
    has both counters at [0]. *)
Theorem quantity_metrics_alone (m m' : CNLM) (table : list QuantityRow) (v : SourceVector)
        (Hrun : quantity_metrics m = (m', Return table))
        (Hv : In v (vectors_noisy m'))
        (Hne : is_empty v = false)
        (Halone : forall w a, In w (vectors_noisy m) -> identifier w <> identifier v ->
                              In a (rows (associations w)) ->
                              ~ covers (vectors_noisy m) (identifier v) (record a)) :
  forall l q, In (l, q) (quantity v) -> source_overlaps q = 0%Z /\ source_conflicts q = 0%Z.
Proof.
  intros l q Hin.
  pose proof (@quantity_metrics_slot m m' table v Hrun Hv Hne) as Hslot.
  apply source_quantity_exact in Hslot. rewrite Hslot in Hin.
  apply in_map_iff in Hin. destruct Hin as (l' & [= -> <-] & _).
  set (df := concat_sources (vectors_noisy m)).
  assert (Hnone : forall (P : SourceRow -> bool) r,
             In r (Pd.unique String.eqb (map row_record (df_source_of df (identifier v)))) ->
             existsb (fun row => String.eqb (row_record row) r && P row)
                     (other_rows df (identifier v)) = false).
  { intros P r Hr. apply (proj1 (In_unique String.eqb string_eqb_spec _ _)) in Hr.
    destruct (existsb _ _) eqn:E; [|reflexivity]. exfalso.
    apply existsb_exists in E. destruct E as (row & Hrow & H).
    apply andb_true_iff in H. destruct H as [Hrec _]. apply String.eqb_eq in Hrec.
    unfold other_rows in Hrow. apply filter_In in Hrow. destruct Hrow as [Hrow Hsrc].
    apply negb_true_iff, String.eqb_neq in Hsrc.
    apply In_concat_sources in Hrow. destruct Hrow as (w & Hw & Hid & Ha).
    apply (Halone w (snd row) Hw); [congruence | assumption|].
    apply covers_df_source. fold df. unfold row_record in Hrec. now rewrite Hrec. }
  unfold quantity_of, count_records. cbn [source_overlaps source_conflicts].
  fold df. split.
  - rewrite filter_none; [reflexivity|]. intros r Hr.
    unfold agreed_at. rewrite (Hnone _ r Hr). apply andb_false_r.
  - rewrite filter_none; [reflexivity|]. intros r Hr.
    unfold contested_at. rewrite (Hnone _ r Hr). apply andb_false_r.
Qed.

(** ** quality_metrics: what the counts count *)

Lemma filter_filter_and {A : Type} (f g : A -> bool) (l : list A) :
  filter f (filter g l) = filter (fun x => g x && f x) l.
Proof.
  induction l as [|a l IH]; simpl; [reflexivity|].
  destruct (g a); simpl; [destruct (f a)|]; now rewrite IH.
Qed.

Lemma filter_split_length {A : Type} (f g : A -> bool) (l : list A) :
  length (filter g l)
  = (length (filter (fun x => g x && f x) l)
     + length (filter (fun x => g x && negb (f x)) l))%nat.
Proof.
  induction l as [|a l IH]; simpl; [reflexivity|].
  destruct (g a); simpl; [|exact IH].
  destruct (f a); simpl; lia.
Qed.

Lemma group_quality_counts (reference noisy : list Association) (l : string) :
  group_quality (df_inner_join reference noisy) l
  = mkQuality (matches reference noisy l) (mismatches reference noisy l).
Proof.
  unfold group_quality, matches, mismatches.
  set (join := df_inner_join reference noisy).
  set (g := fun p : Association * Association => label_eqb (label_noisy p) (Some l)).
  set (f := fun p : Association * Association => label_eqb (label_reference p) (Some l)).
  assert (Htp : filter (fun p => series_eq (label_reference p) (label_noisy p)) (filter g join)
                = filter (fun p => g p && f p) join).
  { rewrite filter_filter_and. apply filter_ext. intros p. unfold g, f.
    destruct (label_eqb (label_noisy p) (Some l)) eqn:E; [|reflexivity]. cbn [andb].
    apply label_eqb_spec in E. rewrite E. apply series_eq_Some. }
  rewrite Htp, (filter_split_length f g join).
  f_equal. unfold g, f. lia.
Qed.

Lemma quality_metrics_slot (m m' : CNLM) (table : list QualityRow)
      (reference v : SourceVector) :
  quality_metrics m = (m', Return table) ->
  vector_reference m = Some reference ->
  In v (vectors_noisy m') -> is_empty v = false ->
  quality v
  = map (fun l => (l, group_quality (df_inner_join (rows (associations reference))
                                                   (rows (associations v))) l))
        (Pd.unique String.eqb (Pd.dropna (map label (rows (associations v))))).
Proof.
  intros Hrun Href Hv Hne. apply quality_metrics_table in Hrun.
  destruct Hrun as (reference' & Href' & -> & _).
  rewrite Href in Href'. injection Href' as <-.
  cbn [vectors_noisy set_vectors_noisy] in Hv.
  apply in_map_iff in Hv. destruct Hv as (v0 & <- & _).
  unfold is_empty in Hne. rewrite update_quality_associations in *.
  unfold update_quality, is_empty.
  destruct (rows (associations v0)) eqn:E; [discriminate|].
  cbn [quality set_quality]. apply vector_quality_eq.
Qed.

(** X13. What [quality_metrics] writes for a non-empty noisy vector: one
    entry per distinct non-null label of the vector, in order of first
    appearance, where [true_positives] is the number of pairs of one of
    its associations with that label and a reference association on the
    same record that carries the same label, and [false_positives] the
    number of such pairs where the reference carries something else. *)
Theorem quality_metrics_counts (m m' : CNLM) (table : list QualityRow)
        (reference : SourceVector)
        (Hrun : quality_metrics m = (m', Return table))
        (Href : vector_reference m = Some reference) :
  forall v, In v (vectors_noisy m') -> is_empty v = false ->
    quality v
    = map (fun l => (l, mkQuality
                          (matches (rows (associations reference)) (rows (associations v)) l)
                          (mismatches (rows (associations reference)) (rows (associations v)) l)))
          (Pd.unique String.eqb (Pd.dropna (map label (rows (associations v))))).
Proof.
  intros v Hv Hne. rewrite (@quality_metrics_slot m m' table reference v Hrun Href Hv Hne).
  apply map_ext. intros l. now rewrite group_quality_counts.
Qed.

Lemma Qdiv_inject_eq (a b c : Z) :
  b <> 0%Z -> ((inject_Z a / inject_Z b == inject_Z c)%Q <-> a = (c * b)%Z).
Proof.
  intros Hb.
  assert (Hnz : ~ (inject_Z b == 0)%Q).
  { intros H. change 0%Q with (inject_Z 0) in H. rewrite inject_Z_injective in H. lia. }
  split.
  - intros H. apply inject_Z_injective. rewrite inject_Z_mult, <- H.
    field. exact Hnz.
  - intros ->. rewrite inject_Z_mult. field. exact Hnz.
Qed.

Lemma calc_precision_range (tp fp : Z) :
  (0 <= tp)%Z -> (0 <= fp)%Z ->
  (0 <= calc_precision tp fp)%Q /\ (calc_precision tp fp <= 1)%Q
  /\ ((calc_precision tp fp == 1)%Q <-> (fp = 0 /\ 0 < tp)%Z)
  /\ ((calc_precision tp fp == 0)%Q <-> tp = 0%Z).
Proof.
  intros Htp Hfp. unfold calc_precision. cbv zeta.
  destruct (tp + fp =? 0)%Z eqn:E.
  - apply Z.eqb_eq in E.
    split; [apply Qle_refl|]. split; [discriminate|].
    split; split.
    + intros H. discriminate H.
    + intros [H1 H2]. lia.
    + intros _. lia.
    + intros _. reflexivity.
  - apply Z.eqb_neq in E.
    assert (Hpos : (0 < inject_Z (tp + fp))%Q).
    { change 0%Q with (inject_Z 0). rewrite <- Zlt_Qlt. lia. }
    split; [|split; [|split]].
    + apply Qle_shift_div_l; [assumption|]. rewrite Qmult_0_l.
      change 0%Q with (inject_Z 0). rewrite <- Zle_Qle. assumption.
    + apply Qle_shift_div_r; [assumption|]. rewrite Qmult_1_l.
      rewrite <- Zle_Qle. lia.
    + change 1%Q with (inject_Z 1). rewrite (@Qdiv_inject_eq tp (tp + fp) 1 E). lia.
    + change 0%Q with (inject_Z 0). rewrite (@Qdiv_inject_eq tp (tp + fp) 0 E). lia.
Qed.

(** X14. When the quality slots of the empty noisy vectors, which
    [quality_metrics] leaves as they are, hold no negative count, every
    row of the table of [quality_metrics] has non-negative counts and a
    precision between 0 and 1; the precision is 1 exactly when the row
    has a true positive and no false positive, and 0 exactly when it has
    no true positive. *)
Theorem quality_metrics_precision_range (m m' : CNLM) (table : list QualityRow)
        (Hslots : forall v l q, In v (vectors_noisy m) -> is_empty v = true ->
                  In (l, q) (quality v) ->
                  (0 <= true_positives q)%Z /\ (0 <= false_positives q)%Z)
        (Hrun : quality_metrics m = (m', Return table)) :
  forall row, In row table ->
    (0 <= q_true_positives row)%Z /\ (0 <= q_false_positives row)%Z
    /\ (0 <= q_precision row)%Q /\ (q_precision row <= 1)%Q
    /\ ((q_precision row == 1)%Q
        <-> (q_false_positives row = 0 /\ 0 < q_true_positives row)%Z)
    /\ ((q_precision row == 0)%Q <-> q_true_positives row = 0%Z).
Proof.
  intros row Hrow. apply quality_metrics_table in Hrun.
  destruct Hrun as (reference & _ & _ & ->).
  unfold quality_statistics in Hrow. apply in_flat_map in Hrow.
  destruct Hrow as (v' & Hv' & Hrow). apply in_map_iff in Hv'.
  destruct Hv' as (v & <- & Hv).
  apply in_map_iff in Hrow. destruct Hrow as ([l q] & <- & Hq).
  cbn [q_true_positives q_false_positives q_precision].
  assert (Hnonneg : (0 <= true_positives q)%Z /\ (0 <= false_positives q)%Z).
  { unfold update_quality in Hq. destruct (is_empty v) eqn:Ee.
    - exact (Hslots v l q Hv Ee Hq).
    - cbn [quality set_quality] in Hq. rewrite vector_quality_eq in Hq.
      apply in_map_iff in Hq. destruct Hq as (l' & [= -> <-] & _).
      rewrite group_quality_counts. unfold matches, mismatches. simpl. lia. }
  destruct Hnonneg as [Htp Hfp].
  destruct (calc_precision_range Htp Hfp) as (H0 & H1 & Hone & Hzero).
  tauto.
Qed.

Lemma filter_or_length {A : Type} (f g : A -> bool) (l : list A) :
  (forall x, f x && g x = false) ->
  length (filter (fun x => f x || g x) l)
  = (length (filter f l) + length (filter g l))%nat.
Proof.
  intros Hfg. induction l as [|a l IH]; simpl; [reflexivity|].
  specialize (Hfg a). destruct (f a), (g a); simpl; try discriminate; lia.
Qed.

Lemma count_by_label (join : list (Association * Association)) (ls : list string) :
  NoDup ls ->
  sumZ (map (fun l => Z.of_nat (length (filter (fun p => label_eqb (label_noisy p) (Some l))
                                               join))) ls)
  = Z.of_nat (length (filter (fun p => match label_noisy p with
                                       | Some l => Pd.mem String.eqb l ls
                                       | None => false
                                       end) join)).
Proof.
  induction 1 as [|l ls Hl Hls IH]; simpl.
  - rewrite (@filter_ext _ _ (fun _ => false)); [|intros p; now destruct (label_noisy p)].
    induction join; [reflexivity | assumption].
  - rewrite IH, <- Nat2Z.inj_add, <- filter_or_length.
    + do 2 f_equal. apply filter_ext. intros p. destruct (label_noisy p) as [k|]; reflexivity.
    + intros p. destruct (label_noisy p) as [k|]; [|reflexivity]. cbn [label_eqb].
      destruct (String.eqb k l) eqn:E; [|reflexivity]. apply String.eqb_eq in E. subst k.
      destruct (Pd.mem String.eqb l ls) eqn:M; [|reflexivity].
      apply (mem_In String.eqb string_eqb_spec) in M. contradiction.
Qed.

(** X15. The counts that [quality_metrics] writes for a non-empty noisy
    vector add up, over its labels, to the number of pairs of a reference
    association and one of its associations on the same record whose noisy
    label is not null: every such pair is counted once, as a true or as a
    false positive of the noisy label. *)
Theorem quality_metrics_total (m m' : CNLM) (table : list QualityRow)
        (reference : SourceVector)
        (Hrun : quality_metrics m = (m', Return table))
        (Href : vector_reference m = Some reference) :
  forall v, In v (vectors_noisy m') -> is_empty v = false ->
    sumZ (map (fun kv : string * Quality =>
                 (true_positives (snd kv) + false_positives (snd kv))%Z)
              (quality v))
    = Z.of_nat (length (filter (fun p => match label_noisy p with
                                         | Some _ => true
                                         | None => false
                                         end)
                               (df_inner_join (rows (associations reference))
                                              (rows (associations v))))).
Proof.
  intros v Hv Hne. rewrite (@quality_metrics_slot m m' table reference v Hrun Href Hv Hne).
  rewrite map_map. cbn [snd].
  set (join := df_inner_join _ _).
  set (ls := Pd.unique String.eqb _).
  rewrite (@map_ext _ _ _
             (fun l => Z.of_nat (length (filter (fun p => label_eqb (label_noisy p) (Some l))
                                                join)))).
  2:{ intros l. unfold group_quality. cbn [true_positives false_positives]. lia. }
  rewrite count_by_label; [|apply NoDup_unique, string_eqb_spec].
  do 2 f_equal. apply filter_ext_in. intros p Hp.
  destruct (label_noisy p) as [k|] eqn:E; [|reflexivity].
  apply (mem_In String.eqb string_eqb_spec), (In_unique String.eqb string_eqb_spec), In_dropna.
  apply In_inner_join in Hp. destruct Hp as (_ & Hp & _).
  unfold label_noisy in E. rewrite <- E. now apply in_map.
Qed.

(** ** weakly_supervise: one cell for a row and a source *)















(** ** The further properties at work on the example matrices *)

Lemma sigmoid_shape_witness :
  Float64Laws exact_arithmetic
  /\ (0 <= sigmoid exact_arithmetic 1 1 1 <= 1)%R
  /\ ((1 * 1)%R = 1%R -> rnd exact_arithmetic 1 = 1%R ->
      sigmoid exact_arithmetic 1 1 1 = (1 / 2)%R)
  /\ ((0 <= 1)%R -> forall y, (1 <= y)%R ->
      (sigmoid exact_arithmetic 1 1 1 <= sigmoid exact_arithmetic y 1 1)%R).
Proof.
  split; [exact exact_arithmetic_laws|].
  exact (@sigmoid_shape exact_arithmetic 1 1 1 exact_arithmetic_laws).
Defined.

Lemma margin_winner_witness :
  margin [Some ("b"%string, Fin (1 # 2)); Some ("a"%string, Fin 1); None;
          Some ("c"%string, Fin 1)]
  = Return ("a"%string, Fin (-1 # 2))
  /\ exists pre v post,
      voters_of [Some ("b"%string, Fin (1 # 2)); Some ("a"%string, Fin 1); None;
                 Some ("c"%string, Fin 1)]
      = pre ++ ("a"%string, Fin v) :: post
      /\ Forall (fun kv => (fval (snd kv) < v)%Q) pre
      /\ Forall (fun kv => (fval (snd kv) <= v)%Q) post.
Proof.
  split; [vm_compute; reflexivity|].
  apply (@margin_winner [Some ("b"%string, Fin (1 # 2)); Some ("a"%string, Fin 1); None;
                         Some ("c"%string, Fin 1)]
                        "a"%string (Fin (-1 # 2))).
  - vm_compute. reflexivity.
  - vm_compute. reflexivity.
Defined.

Lemma ensemble_unanimous_witness :
  total_for "a" [Some ("a"%string, Fin (1 # 2)); None; Some ("a"%string, Fin (1 # 4))]
  = Fin (6 # 8)
  /\ exists q,
      (q == 6 # 8)%Q
      /\ margin [Some ("a"%string, Fin (1 # 2)); None; Some ("a"%string, Fin (1 # 4))]
         = Return ("a"%string, Fin q)
      /\ ((0 < 6 # 8)%Q ->
          ensemble exact_arithmetic [Some ("a"%string, Fin (1 # 2)); None; Some ("a"%string, Fin (1 # 4))]
          = Return (Some ("a"%string, sigmoid exact_arithmetic (Q2R q) 1 1)))
      /\ ((6 # 8 <= 0)%Q ->
          ensemble exact_arithmetic [Some ("a"%string, Fin (1 # 2)); None; Some ("a"%string, Fin (1 # 4))]
          = Return None).
Proof.
  split; [vm_compute; reflexivity|].
  apply (@ensemble_unanimous exact_arithmetic
           [Some ("a"%string, Fin (1 # 2)); None; Some ("a"%string, Fin (1 # 4))]
           "a"%string (6 # 8)).
  - reflexivity.
  - simpl. intros p [<- | [<- | []]]; reflexivity.
  - vm_compute. reflexivity.
Defined.

Lemma ensemble_nan_vote_witness :
  In (Some ("b"%string, NaN)) [Some ("a"%string, Fin 1); Some ("b"%string, NaN)]
  /\ ensemble exact_arithmetic [Some ("a"%string, Fin 1); Some ("b"%string, NaN)] = Return None.
Proof.
  assert (Hnan : In (Some ("b"%string, NaN))
                    [Some ("a"%string, Fin 1); Some ("b"%string, NaN)]).
  { simpl. right. left. reflexivity. }
  split; [exact Hnan|].
  exact (@ensemble_nan_vote exact_arithmetic [Some ("a"%string, Fin 1); Some ("b"%string, NaN)]
                            "b"%string Hnan).
Defined.

Lemma weakly_supervise_null_association_witness :
  exists e, snd (weakly_supervise exact_arithmetic Examples.m_none) = Raise e.
Proof.
  apply (@weakly_supervise_null_association exact_arithmetic Examples.m_none
           (Examples.vector "s1" [mkAssociation "r1"%string (Some "a"%string) None])
           (mkAssociation "r1"%string (Some "a"%string) None)).
  - simpl. left. reflexivity.
  - simpl. left. reflexivity.
  - right. reflexivity.
Defined.

Lemma weakly_supervise_idempotent_witness :
  weakly_supervise exact_arithmetic Examples.m_margin_one
  = (fst (weakly_supervise exact_arithmetic Examples.m_margin_one),
     Return [("r1"%string, Some ("a"%string, sigmoid exact_arithmetic (Q2R 1) 1 1))])
  /\ weakly_supervise exact_arithmetic (fst (weakly_supervise exact_arithmetic Examples.m_margin_one))
     = (fst (weakly_supervise exact_arithmetic Examples.m_margin_one),
        Return [("r1"%string, Some ("a"%string, sigmoid exact_arithmetic (Q2R 1) 1 1))]).
Proof.
  assert (Hrun : weakly_supervise exact_arithmetic Examples.m_margin_one
                 = (fst (weakly_supervise exact_arithmetic Examples.m_margin_one),
                    Return [("r1"%string, Some ("a"%string, sigmoid exact_arithmetic (Q2R 1) 1 1))])).
  { rewrite <- (m_margin_one_run exact_arithmetic). apply surjective_pairing. }
  split; [exact Hrun|].
  exact (@weakly_supervise_idempotent exact_arithmetic Examples.m_margin_one _ _ Hrun).
Defined.

Lemma m_two_sources_votes :
  snd (weakly_supervise_votes Examples.m_two_sources)
  = Return [("r1"%string, [Some ("a"%string, Fin 1); Some ("a"%string, Fin (1 # 2))]);
            ("r2"%string, [Some ("b"%string, Fin 1); Some ("a"%string, Fin (1 # 2))])].
Proof. vm_compute. reflexivity. Qed.

Lemma m_two_sources_run (F : Float64) :
  exists out, snd (weakly_supervise F Examples.m_two_sources) = Return out.
Proof.
  rewrite weakly_supervise_snd, m_two_sources_votes. cbn [bind].
  apply apply_ensemble_total. repeat constructor.
Qed.

Lemma weakly_supervise_records_witness :
  exists out,
    snd (weakly_supervise exact_arithmetic Examples.m_two_sources) = Return out
    /\ forall r, In r (map fst out)
                 <-> In r (records Examples.m_two_sources)
                     /\ voted_on (vectors_noisy Examples.m_two_sources) r.
Proof.
  destruct (m_two_sources_run exact_arithmetic) as [out Hout].
  exists out. split; [exact Hout|].
  apply (@weakly_supervise_records exact_arithmetic Examples.m_two_sources out).
  - discriminate.
  - simpl. repeat constructor; simpl; intuition discriminate.
  - exact Hout.
Defined.

Lemma weakly_supervise_returns_witness :
  exists out, snd (weakly_supervise exact_arithmetic Examples.m_two_sources) = Return out.
Proof.
  apply (@weakly_supervise_returns exact_arithmetic Examples.m_two_sources
           (Examples.vector "ref" [Examples.assoc "r1" "a" 1; Examples.assoc "r2" "b" 1])).
  - reflexivity.
  - simpl. repeat constructor; simpl; intuition discriminate.
  - simpl. intros v [<- | [<- | []]]; constructor.
  - eexists. split; [simpl; left; reflexivity | reflexivity].
  - simpl. intros v a [<- | [<- | []]] [<- | [<- | []]]; split; discriminate.
  - simpl. intros v [<- | [<- | []]]; simpl;
      repeat constructor; simpl; intuition discriminate.
Defined.

Lemma quantity_metrics_counts_witness :
  exists table,
    quantity_metrics Examples.m_two_sources
    = (fst (quantity_metrics Examples.m_two_sources), Return table)
    /\ forall v, In v (vectors_noisy (fst (quantity_metrics Examples.m_two_sources))) ->
         is_empty v = false ->
         let df := concat_sources (vectors_noisy Examples.m_two_sources) in
         let df_source := df_source_of df (identifier v) in
         quantity v
         = map (fun l => (l, quantity_of df_source (other_rows df (identifier v)) l))
               (Pd.unique String.eqb (Pd.dropna (map row_label df_source))).
Proof.
  eexists. split.
  - vm_compute. reflexivity.
  - eapply (@quantity_metrics_counts Examples.m_two_sources). vm_compute. reflexivity.
Defined.

Lemma quantity_metrics_alone_witness :
  exists table v,
    quantity_metrics Examples.m_disjoint
    = (fst (quantity_metrics Examples.m_disjoint), Return table)
    /\ In v (vectors_noisy (fst (quantity_metrics Examples.m_disjoint)))
    /\ identifier v = "s1"%string
    /\ quantity v = [("a"%string, mkQuantity 1 0 0)]
    /\ forall l q, In (l, q) (quantity v) ->
         source_overlaps q = 0%Z /\ source_conflicts q = 0%Z.
Proof.
  eexists.
  exists (mkSourceVector "s1"%string (mkAssocTable [Examples.assoc "r1" "a" 1] None) []
                         [("a"%string, mkQuantity 1 0 0)]).
  split; [vm_compute; reflexivity|].
  split; [vm_compute; left; reflexivity|].
  split; [reflexivity|]. split; [reflexivity|].
  eapply (@quantity_metrics_alone Examples.m_disjoint).
  - vm_compute. reflexivity.
  - vm_compute. left. reflexivity.
  - reflexivity.
  - simpl. intros w a [<- | [<- | []]] Hid [<- | []].
    + contradiction Hid. reflexivity.
    + unfold covers. simpl. intros [H | []]. discriminate H.
Defined.

Lemma quality_metrics_counts_witness :
  exists table,
    quality_metrics Examples.m_two_sources
    = (fst (quality_metrics Examples.m_two_sources), Return table)
    /\ forall v, In v (vectors_noisy (fst (quality_metrics Examples.m_two_sources))) ->
         is_empty v = false ->
         quality v
         = map (fun l =>
                  (l, mkQuality
                        (matches [Examples.assoc "r1" "a" 1; Examples.assoc "r2" "b" 1]
                                 (rows (associations v)) l)
                        (mismatches [Examples.assoc "r1" "a" 1; Examples.assoc "r2" "b" 1]
                                    (rows (associations v)) l)))
               (Pd.unique String.eqb (Pd.dropna (map label (rows (associations v))))).
Proof.
  eexists. split.
  - vm_compute. reflexivity.
  - eapply (@quality_metrics_counts Examples.m_two_sources _ _
              (Examples.vector "ref" [Examples.assoc "r1" "a" 1; Examples.assoc "r2" "b" 1])).
    + vm_compute. reflexivity.
    + reflexivity.
Defined.

Lemma quality_metrics_precision_range_witness :
  exists table,
    quality_metrics Examples.m_two_sources
    = (fst (quality_metrics Examples.m_two_sources), Return table)
    /\ forall row, In row table ->
         (0 <= q_true_positives row)%Z /\ (0 <= q_false_positives row)%Z
         /\ (0 <= q_precision row)%Q /\ (q_precision row <= 1)%Q
         /\ ((q_precision row == 1)%Q
             <-> (q_false_positives row = 0 /\ 0 < q_true_positives row)%Z)
         /\ ((q_precision row == 0)%Q <-> q_true_positives row = 0%Z).
Proof.
  eexists. split.
  - vm_compute. reflexivity.
  - eapply (@quality_metrics_precision_range Examples.m_two_sources).
    + simpl. intros v l q [<- | [<- | []]] Hempty; discriminate Hempty.
    + vm_compute. reflexivity.
Defined.

Lemma quality_metrics_total_witness :
  exists table,
    quality_metrics Examples.m_two_sources
    = (fst (quality_metrics Examples.m_two_sources), Return table)
    /\ forall v, In v (vectors_noisy (fst (quality_metrics Examples.m_two_sources))) ->
         is_empty v = false ->
         sumZ (map (fun kv : string * Quality =>
                      (true_positives (snd kv) + false_positives (snd kv))%Z)
                   (quality v))
         = Z.of_nat (length (filter (fun p => match label_noisy p with
                                              | Some _ => true
                                              | None => false
                                              end)
                                    (df_inner_join
                                       [Examples.assoc "r1" "a" 1; Examples.assoc "r2" "b" 1]
                                       (rows (associations v))))).
Proof.
  eexists. split.
  - vm_compute. reflexivity.
  - eapply (@quality_metrics_total Examples.m_two_sources _ _
              (Examples.vector "ref" [Examples.assoc "r1" "a" 1; Examples.assoc "r2" "b" 1])).
    + vm_compute. reflexivity.
    + reflexivity.
Defined.

